(** * VideoPlayerManager: a shallow embedding and its verified properties

  The development follows [src/components/VideoPlayerManager.js].

  - [Number]: JavaScript numbers, i.e. IEEE 754 binary64 values, over the
    executable specification of the Standard Library ([SpecFloat]), with
    [Math.min], [Math.max] and [Math.round] as ECMAScript defines them.
  - [Media]: the playback state of the video element and the methods that
    [createVideoFunctions] installs on it.
  - [Js]: the values of host properties, and host objects as finite maps.
  - [Dom], [Html]: the element store of the document and the markup that
    [innerHTML] parses.
  - [Player]: the player itself: its construction, the fullscreen and
    play/pause methods, the listeners, the timers and the event loop.
  - [Examples], [Dyadic], [Notions]: example pages and browsers, and the
    notions in which the properties are stated and proved.
  - [NumberFacts], [MediaFacts], [FullscreenFacts], [ConstructionFacts],
    [PlayerFacts]: the properties.
  - [Grid], [Runs], [Hosts], [Pages], [Markup], [Samples] and, at the
    end, [GridFacts], [RunFacts], [HostFacts], [PageFacts],
    [MarkupFacts], [ElementFacts]: further notions and properties, of
    whole runs of the player and of the elements it creates. *)

From Stdlib Require Import ZArith Lia Bool Ascii String.
From Stdlib Require Import Floats.SpecFloat.
From stdpp Require Import base list strings gmap.

Open Scope Z_scope.

#[local] Set Warnings "-register-all".

(** ** JavaScript numbers *)

Module Number.

Definition prec : Z := 53.
Definition emax : Z := 1024.

(** A JavaScript number is a binary64 value. *)
Definition number : Type := spec_float.

Definition add : number -> number -> number := SFadd prec emax.
Definition sub : number -> number -> number := SFsub prec emax.
Definition mul : number -> number -> number := SFmul prec emax.
Definition div : number -> number -> number := SFdiv prec emax.

(** The number denoted by an integer literal. *)
Definition of_Z (z : Z) : number := binary_normalize prec emax z 0 false.

(** The number denoted by the decimal literal [num/den], correctly
    rounded: [literal 5 100] is the literal [0.05]. *)
Definition literal (num den : Z) : number := div (of_Z num) (of_Z den).

Definition exponent (x : number) : Z :=
  match x with S754_finite _ _ e => e | _ => 0 end.

(** The exact value of a finite [x], multiplied by [2 ^ (- k)]; an
    integer as soon as [k] is at most the exponent of [x]. *)
Definition scaled (k : Z) (x : number) : Z :=
  match x with
  | S754_finite s m e => cond_Zopp s (Zpos m * 2 ^ (e - k))
  | _ => 0
  end.

(** Comparison of the exact values; [None] when an operand is NaN. *)
Definition compare (x y : number) : option comparison :=
  match x, y with
  | S754_nan, _ | _, S754_nan => None
  | S754_infinity s1, S754_infinity s2 =>
      Some match s1, s2 with
           | true, false => Lt
           | false, true => Gt
           | _, _ => Eq
           end
  | S754_infinity s, _ => Some (if s then Lt else Gt)
  | _, S754_infinity s => Some (if s then Gt else Lt)
  | _, _ =>
      let k := Z.min (exponent x) (exponent y) in
      Some (scaled k x ?= scaled k y)
  end.

Definition leb (x y : number) : bool :=
  match compare x y with Some (Lt | Eq) => true | _ => false end.

Definition ltb (x y : number) : bool :=
  match compare x y with Some Lt => true | _ => false end.

Definition eqb (x y : number) : bool :=
  match compare x y with Some Eq => true | _ => false end.

Definition is_neg_zero (x : number) : bool :=
  match x with S754_zero true => true | _ => false end.

(** [Math.min(x, y)]: NaN if an operand is NaN, and -0 is below +0. *)
Definition Math_min (x y : number) : number :=
  match compare x y with
  | None => S754_nan
  | Some Lt => x
  | Some Gt => y
  | Some Eq => if is_neg_zero y then y else x
  end.

(** [Math.max(x, y)]: NaN if an operand is NaN, and +0 is above -0. *)
Definition Math_max (x y : number) : number :=
  match compare x y with
  | None => S754_nan
  | Some Lt => y
  | Some Gt => x
  | Some Eq => if is_neg_zero x then y else x
  end.

(** The integer closest to a finite [x], the larger one in case of a
    tie: [floor (x + 1/2)], computed exactly. *)
Definition round_half_up (x : number) : Z :=
  match x with
  | S754_finite s m e =>
      if 0 <=? e then cond_Zopp s (Zpos m * 2 ^ e)
      else (2 * cond_Zopp s (Zpos m) + 2 ^ (- e)) / 2 ^ (1 - e)
  | _ => 0
  end.

(** [Math.round(x)]: zeros, infinities and NaN are returned unchanged; a
    finite [x] gives the number of [round_half_up x], which is a zero of
    the sign of [x] when that integer is 0. *)
Definition Math_round (x : number) : number :=
  match x with
  | S754_finite s _ _ =>
      let k := round_half_up x in
      if k =? 0 then S754_zero s else of_Z k
  | _ => x
  end.

(** [lo <= x <= hi], false when [x] is NaN. *)
Definition within (lo hi x : number) : bool := leb lo x && leb x hi.

#[export] Instance number_eq_dec : EqDecision number.
Proof. unfold number. solve_decision. Defined.

End Number.

(** ** The playback state of the video element

  [createVideoFunctions] installs methods on the video element; those of
  this section read and assign the element's native playback properties
  and nothing else. [this.x = v] is the assignment of the field [x]. *)

Module Media.
Import Number.

Record Video : Type := mkVideo {
  currentTime : number;
  volume : number;
  playbackRate : number;
  paused : bool;
  muted : bool
}.

Definition set_currentTime (x : number) (v : Video) : Video :=
  mkVideo x (volume v) (playbackRate v) (paused v) (muted v).
Definition set_volume (x : number) (v : Video) : Video :=
  mkVideo (currentTime v) x (playbackRate v) (paused v) (muted v).
Definition set_playbackRate (x : number) (v : Video) : Video :=
  mkVideo (currentTime v) (volume v) x (paused v) (muted v).
Definition set_paused (b : bool) (v : Video) : Video :=
  mkVideo (currentTime v) (volume v) (playbackRate v) b (muted v).
Definition set_muted (b : bool) (v : Video) : Video :=
  mkVideo (currentTime v) (volume v) (playbackRate v) (paused v) b.

(** The numeric literals of the source, as binary64 values. *)
Definition lit_0 : number := S754_zero false.
Definition lit_1 : number := S754_finite false 4503599627370496 (-52).
Definition lit_2 : number := S754_finite false 4503599627370496 (-51).
Definition lit_100 : number := S754_finite false 7036874417766400 (-46).
Definition lit_0_05 : number := S754_finite false 7205759403792794 (-57).
Definition lit_0_25 : number := S754_finite false 4503599627370496 (-54).

(** [function roundBy2Decimals(number) { return Math.round(number * 100) / 100; }] *)
Definition roundBy2Decimals (n : number) : number :=
  div (Math_round (mul n lit_100)) lit_100.

(** The spec's wording of that rounding, "round-half-up at 2 decimal
    places": the decimal [k / 100], as a number, for the integer [k]
    nearest to [n * 100], the larger one in case of a tie. *)
Definition round_half_up_2dec (n : number) : number :=
  literal (round_half_up (mul n lit_100)) 100.

(** [video.goForward = function (seconds) { this.currentTime += seconds; }] *)
Definition goForward (seconds : number) (v : Video) : Video :=
  set_currentTime (add (currentTime v) seconds) v.

(** [video.goBack = function (seconds) { this.currentTime -= seconds; }] *)
Definition goBack (seconds : number) (v : Video) : Video :=
  set_currentTime (sub (currentTime v) seconds) v.

(** [video.goToSpecificTime = function (seconds) { this.currentTime = seconds; }] *)
Definition goToSpecificTime (seconds : number) (v : Video) : Video :=
  set_currentTime seconds v.

(** [this.volume = Math.min(roundBy2Decimals(this.volume + 0.05), 1);] *)
Definition increaseVolumeBy5Percent (v : Video) : Video :=
  set_volume (Math_min (roundBy2Decimals (add (volume v) lit_0_05)) lit_1) v.

(** [this.volume = Math.max(0, roundBy2Decimals(this.volume - 0.05));] *)
Definition decreaseVolumeBy5Percent (v : Video) : Video :=
  set_volume (Math_max lit_0 (roundBy2Decimals (sub (volume v) lit_0_05))) v.

(** [this.playbackRate = Math.min(this.playbackRate + 0.25, 2);] *)
Definition increaseSpeed (v : Video) : Video :=
  set_playbackRate (Math_min (add (playbackRate v) lit_0_25) lit_2) v.

(** [this.playbackRate = Math.max(0.25, this.playbackRate - 0.25);] *)
Definition decreaseSpeed (v : Video) : Video :=
  set_playbackRate (Math_max lit_0_25 (sub (playbackRate v) lit_0_25)) v.

(** [this.muted = !this.muted;] *)
Definition toggleMuteUnmuteAudio (v : Video) : Video :=
  set_muted (negb (muted v)) v.

End Media.

(** ** JavaScript values and host objects *)

Module Js.
Import Number.

Inductive value : Type :=
| VUndefined
| VNull
| VBoolean (b : bool)
| VNumber (n : number)
| VString (s : string)
| VFunction (name : string)
| VObject (id : nat).

(** [ToBoolean]: what an [if] makes of a value. *)
Definition truthy (v : value) : bool :=
  match v with
  | VUndefined | VNull => false
  | VBoolean b => b
  | VNumber (S754_zero _) | VNumber S754_nan => false
  | VNumber _ => true
  | VString s => negb (String.eqb s "")
  | VFunction _ | VObject _ => true
  end.

(** [v !== null] *)
Definition strict_not_null (v : value) : bool :=
  match v with VNull => false | _ => true end.

(** A host object maps property names to values; reading a property
    that is absent gives [undefined]. *)
Definition get (o : gmap string value) (p : string) : value :=
  default VUndefined (o !! p).

Inductive error : Type := TypeError.

#[export] Instance error_eq_dec : EqDecision error.
Proof. solve_decision. Defined.

End Js.

(** ** The elements of the document *)

Module Dom.

Abbreviation loc := nat.

(** The three [addEventListener] calls of the source, and the one the
    shortcut manager makes. *)
Inductive Registration : Type :=
| RegDblClick
| RegClick
| RegTogglePlayPause
| RegShortcut.

Definition event_type (r : Registration) : string :=
  match r with
  | RegDblClick => "dblclick"
  | RegClick => "click"
  | RegTogglePlayPause => "togglePlayPause"
  | RegShortcut => "keydown"
  end.

(** [srcTag.onerror = function () { self.interfaceManager.showFailureMessage(); }] *)
Inductive ErrorHandler : Type := OnErrorShowFailure.

#[export] Instance Registration_eq_dec : EqDecision Registration.
Proof. solve_decision. Defined.
#[export] Instance ErrorHandler_eq_dec : EqDecision ErrorHandler.
Proof. solve_decision. Defined.

Record Element : Type := mkElement {
  tagName : string;
  attributes : list (string * string);
  properties : list (string * string);
  onerror : option ErrorHandler;
  listeners : list Registration;
  childNodes : list loc;
  parentNode : option loc
}.

Fixpoint get_attr (name : string) (attrs : list (string * string)) : option string :=
  match attrs with
  | [] => None
  | (n, v) :: rest => if String.eqb n name then Some v else get_attr name rest
  end.

Fixpoint set_attr (name v : string) (attrs : list (string * string))
  : list (string * string) :=
  match attrs with
  | [] => [(name, v)]
  | (n, v') :: rest =>
      if String.eqb n name then (n, v) :: rest else (n, v') :: set_attr name v rest
  end.

Definition with_attributes (f : list (string * string) -> list (string * string))
  (el : Element) : Element :=
  mkElement (tagName el) (f (attributes el)) (properties el) (onerror el)
    (listeners el) (childNodes el) (parentNode el).
Definition with_properties (f : list (string * string) -> list (string * string))
  (el : Element) : Element :=
  mkElement (tagName el) (attributes el) (f (properties el)) (onerror el)
    (listeners el) (childNodes el) (parentNode el).
Definition with_onerror (h : option ErrorHandler) (el : Element) : Element :=
  mkElement (tagName el) (attributes el) (properties el) h
    (listeners el) (childNodes el) (parentNode el).
Definition with_listeners (f : list Registration -> list Registration)
  (el : Element) : Element :=
  mkElement (tagName el) (attributes el) (properties el) (onerror el)
    (f (listeners el)) (childNodes el) (parentNode el).
Definition with_childNodes (f : list loc -> list loc) (el : Element) : Element :=
  mkElement (tagName el) (attributes el) (properties el) (onerror el)
    (listeners el) (f (childNodes el)) (parentNode el).
Definition with_parentNode (p : option loc) (el : Element) : Element :=
  mkElement (tagName el) (attributes el) (properties el) (onerror el)
    (listeners el) (childNodes el) p.

(** The reflected properties: [el.id] is the attribute [id],
    [el.className] the attribute [class], [el.style.cssText] the
    attribute [style]; a boolean property such as [controls] is the
    presence of its attribute. *)
Definition id (el : Element) : string := default "" (get_attr "id" (attributes el)).
Definition className (el : Element) : string :=
  default "" (get_attr "class" (attributes el)).
Definition cssText (el : Element) : string :=
  default "" (get_attr "style" (attributes el)).
Definition has_attribute (name : string) (el : Element) : bool :=
  bool_decide (is_Some (get_attr name (attributes el))).

(** An element is hidden by its own style when that is exactly the
    declaration the source writes. *)
Definition hidden (el : Element) : bool := String.eqb (cssText el) "display: none;".

(** The store holds every element ever created, attached or not; an
    element is named by its index. *)
Abbreviation Store := (list Element).

Definition createElement (tag : string) (st : Store) : loc * Store :=
  (length st, st ++ [mkElement tag [] [] None [] [] None]).

Definition setAttribute (l : loc) (name v : string) (st : Store) : Store :=
  alter (with_attributes (set_attr name v)) l st.

Definition remove_child (child : loc) (kids : list loc) : list loc :=
  filter (fun k => k <> child) kids.

(** [parent.appendChild(child)]: the child leaves its former parent, if
    any, and becomes the last child of [parent]. *)
Definition appendChild (parent child : loc) (st : Store) : Store :=
  let st1 :=
    match st !! child with
    | Some el =>
        match parentNode el with
        | Some old => alter (with_childNodes (remove_child child)) old st
        | None => st
        end
    | None => st
    end in
  let st2 := alter (with_childNodes (fun kids => kids ++ [child])) parent st1 in
  alter (with_parentNode (Some parent)) child st2.

(** The elements below [l], itself included, in tree order. *)
Fixpoint subtree (fuel : nat) (st : Store) (l : loc) : list loc :=
  match fuel with
  | O => []
  | S fuel' =>
      match st !! l with
      | Some el => l :: flat_map (subtree fuel' st) (childNodes el)
      | None => []
      end
  end.

Definition has_id (st : Store) (name : string) (l : loc) : bool :=
  match st !! l with
  | Some el => String.eqb (id el) name
  | None => false
  end.

(** [querySelector] for the selectors of the source, [#name]: the first
    element in tree order whose id is [name]; [None] stands for [null]. *)
Definition querySelector (root : loc) (selector : string) (st : Store) : option loc :=
  match selector with
  | String "#"%char name => find (has_id st name) (subtree (length st) st root)
  | _ => None
  end.

End Dom.

(** ** Markup

    [createFeedbackIcon] builds an element by assigning markup to
    [innerHTML]. The parser below reads the markup the source writes:
    elements with double-quoted attributes, nested, without text. *)

Module Html.
Import Dom.

Inductive Tree : Type :=
| Node (tag : string) (attrs : list (string * string)) (children : list Tree).

(** The double quote, and a string between double quotes. *)
Definition quote : string := String "034"%char EmptyString.
Definition quoted (s : string) : string := quote ++ s ++ quote.

Fixpoint take_until (stop : ascii -> bool) (s : string) : string * string :=
  match s with
  | EmptyString => (EmptyString, EmptyString)
  | String c rest =>
      if stop c then (EmptyString, s)
      else let '(taken, remaining) := take_until stop rest in (String c taken, remaining)
  end.

Fixpoint skip_spaces (s : string) : string :=
  match s with
  | String " "%char rest => skip_spaces rest
  | _ => s
  end.

Fixpoint strip_prefix (p s : string) : option string :=
  match p, s with
  | EmptyString, _ => Some s
  | String a p', String b s' => if Ascii.eqb a b then strip_prefix p' s' else None
  | String _ _, EmptyString => None
  end.

Definition ends_name (c : ascii) : bool :=
  Ascii.eqb c " " || Ascii.eqb c ">" || Ascii.eqb c "=".

(** The attributes of a start tag, up to and including its [>]. *)
Fixpoint parse_attributes (fuel : nat) (s : string)
  : option (list (string * string) * string) :=
  match fuel with
  | O => None
  | S fuel' =>
      match skip_spaces s with
      | EmptyString => None
      | String ">"%char rest => Some ([], rest)
      | s' =>
          let '(name, r) := take_until ends_name s' in
          match r with
          | String "="%char (String "034"%char r2) =>
              let '(v, r3) := take_until (Ascii.eqb "034") r2 in
              match r3 with
              | String "034"%char r4 =>
                  '(attrs, r5) ← parse_attributes fuel' r4;
                  Some ((name, v) :: attrs, r5)
              | _ => None
              end
          | _ => None
          end
      end
  end.

(** A sequence of sibling elements, up to the end of the text or to the
    end tag of their parent. *)
Fixpoint parse_nodes (fuel : nat) (s : string) : option (list Tree * string) :=
  match fuel with
  | O => None
  | S fuel' =>
      match s with
      | EmptyString => Some ([], EmptyString)
      | String "<"%char (String "/"%char _) => Some ([], s)
      | String "<"%char rest =>
          let '(tag, r) := take_until ends_name rest in
          '(attrs, r2) ← parse_attributes fuel' r;
          '(kids, r3) ← parse_nodes fuel' r2;
          r4 ← strip_prefix ("</" ++ tag ++ ">") r3;
          '(siblings, r5) ← parse_nodes fuel' r4;
          Some (Node tag attrs kids :: siblings, r5)
      | _ => None
      end
  end.

(** The elements that markup denotes; no element when it is not of the
    form above. *)
Definition parse (html : string) : list Tree :=
  match parse_nodes (S (String.length html)) html with
  | Some (trees, EmptyString) => trees
  | _ => []
  end.

(** A parsed element enters the store as the last child of [parent],
    followed by its descendants. *)
Fixpoint insert_tree (parent : loc) (t : Tree) (st : Store) : Store :=
  match t with
  | Node tag attrs kids =>
      let l := length st in
      let el := mkElement tag attrs [] None [] [] (Some parent) in
      let st1 := alter (with_childNodes (fun ks => ks ++ [l])) parent (st ++ [el]) in
      fold_left (fun st' kid => insert_tree l kid st') kids st1
  end.

(** [el.innerHTML = html]: the children of [el] are replaced by the
    elements of the markup. *)
Definition set_innerHTML (l : loc) (html : string) (st : Store) : Store :=
  fold_left (fun st' t => insert_tree l t st') (parse html)
    (alter (with_childNodes (fun _ => [])) l st).

End Html.

(** ** The player *)

Module Player.
Import Number Media Js Dom Html.

(** [setTimeout(function () { feedback.style.cssText = "display: none;"; }, 500)]:
    the callback keeps the element it closed over. *)
Inductive TimerTask : Type := HideFeedback (feedback : loc).

(** What the player does to its collaborators and to the platform. *)
Inductive Effect : Type :=
| Play
| Pause
| DispatchEvent (type : string)
| ShowFailureMessage
| Invoke (fn : string)
| Uncaught (e : error).

#[export] Instance Effect_eq_dec : EqDecision Effect.
Proof. solve_decision. Defined.

(** The document of the interface manager, which is also the owner
    document of the video element, with the platform state the player
    reads and writes: the playback state of its video element, the host
    properties of that element and of the document that the fullscreen
    methods probe, the pending timers and the clock (in ms). *)
Record World : Type := mkWorld {
  store : Store;
  documentElement : loc;
  media : Video;
  videoApi : gmap string value;
  documentApi : gmap string value;
  timers : list (Z * TimerTask);
  now : Z;
  log : list Effect
}.

Definition with_store (f : Store -> Store) (w : World) : World :=
  mkWorld (f (store w)) (documentElement w) (media w) (videoApi w) (documentApi w)
    (timers w) (now w) (log w).
Definition with_media (f : Video -> Video) (w : World) : World :=
  mkWorld (store w) (documentElement w) (f (media w)) (videoApi w) (documentApi w)
    (timers w) (now w) (log w).
Definition with_timers (f : list (Z * TimerTask) -> list (Z * TimerTask))
  (w : World) : World :=
  mkWorld (store w) (documentElement w) (media w) (videoApi w) (documentApi w)
    (f (timers w)) (now w) (log w).
Definition with_now (t : Z) (w : World) : World :=
  mkWorld (store w) (documentElement w) (media w) (videoApi w) (documentApi w)
    (timers w) t (log w).
Definition emit (e : Effect) (w : World) : World :=
  mkWorld (store w) (documentElement w) (media w) (videoApi w) (documentApi w)
    (timers w) (now w) (log w ++ [e]).

(** A call returns normally or throws. *)
Inductive Result : Type :=
| Normal (w : World)
| Thrown (e : error) (w : World).

(** An exception that leaves a listener, a timer callback or a call made
    from outside is reported and goes no further. *)
Definition report (r : Result) : World :=
  match r with
  | Normal w => w
  | Thrown e w => emit (Uncaught e) w
  end.

(** The object under construction: [this.outerDiv] and [this.video];
    [this.interfaceManager.document] is the world's document. *)
Record Manager : Type := mkManager {
  outerDiv : loc;
  video : loc
}.

(** *** The platform *)

(** [video.play()] and [video.pause()] of the media element: they clear
    and set the [paused] flag. *)
Definition play (w : World) : World := emit Play (with_media (set_paused false) w).
Definition pause (w : World) : World := emit Pause (with_media (set_paused true) w).

Definition setTimeout (task : TimerTask) (delay : Z) (w : World) : World :=
  with_timers (fun ts => ts ++ [(now w + delay, task)]) w.

Definition addEventListener (l : loc) (r : Registration) (w : World) : World :=
  with_store (alter (with_listeners (fun rs => rs ++ [r])) l) w.

Definition listeners_of (l : loc) (w : World) : list Registration :=
  match store w !! l with
  | Some el => listeners el
  | None => []
  end.

(** [o.p()]: a [TypeError] unless the property holds a function. *)
Definition invoke (o : gmap string value) (p : string) (w : World) : Result :=
  match get o p with
  | VFunction f => Normal (emit (Invoke f) w)
  | _ => Thrown TypeError w
  end.

(** *** The methods of [createVideoFunctions] that reach outside the
    playback state *)

(** The callback of the timer of [updateVisualFeedback]. *)
Definition run_task (task : TimerTask) (w : World) : World :=
  match task with
  | HideFeedback feedback =>
      with_store (setAttribute feedback "style" "display: none;") w
  end.

(** [updateVisualFeedback(isVideoPaused)] of [enablePlayPauseFeedback]:
    reading [feedback.style] throws when [querySelector] found nothing. *)
Definition updateVisualFeedback (isVideoPaused : bool) (w : World) : Result :=
  let selector := if isVideoPaused then "#pauseFeedback" else "#playFeedback" in
  match querySelector (documentElement w) selector (store w) with
  | None => Thrown TypeError w
  | Some feedback =>
      Normal (setTimeout (HideFeedback feedback) 500
                (with_store (setAttribute feedback "style" "") w))
  end.

(** The listener of [enablePlayPauseFeedback]: [updateVisualFeedback(this.paused)]. *)
Definition feedback_listener (w : World) : Result :=
  updateVisualFeedback (paused (media w)) w.

(** [this.dispatchEvent(new Event("togglePlayPause"))]: the listeners
    registered on the video for that type run in the order of their
    registration. Only [enablePlayPauseFeedback] registers for it. *)
Definition dispatch_togglePlayPause (m : Manager) (w : World) : World :=
  fold_left
    (fun w' r =>
       match r with
       | RegTogglePlayPause => report (feedback_listener w')
       | _ => w'
       end)
    (listeners_of (video m) w)
    (emit (DispatchEvent "togglePlayPause") w).

Definition togglePlayPause (m : Manager) (w : World) : World :=
  dispatch_togglePlayPause m (if paused (media w) then play w else pause w).

(** [return this.ownerDocument.webkitFullscreenElement !== null;] *)
Definition isFullScreenModeEnabled (w : World) : bool :=
  strict_not_null (get (documentApi w) "webkitFullscreenElement").

Definition enterFullScreenMode (w : World) : Result :=
  if truthy (get (videoApi w) "webkitRequestFullscreen") then
    invoke (videoApi w) "webkitRequestFullScreen" w
  else if truthy (get (videoApi w) "mozRequestFullScreen") then
    invoke (videoApi w) "mozRequestFullScreen" w
  else if truthy (get (videoApi w) "msRequestFullscreen") then
    invoke (videoApi w) "msRequestFullscreen" w
  else Normal w.

Definition exitFullScreenMode (w : World) : Result :=
  if truthy (get (documentApi w) "webkitExitFullscreen") then
    invoke (documentApi w) "webkitExitFullscreen" w
  else if truthy (get (documentApi w) "mozCancelFullScreen") then
    invoke (documentApi w) "mozCancelFullScreen" w
  else if truthy (get (documentApi w) "msExitFullscreen") then
    invoke (documentApi w) "msExitFullscreen" w
  else Normal w.

Definition toggleFullScreenMode (w : World) : Result :=
  if isFullScreenModeEnabled w then exitFullScreenMode w else enterFullScreenMode w.

(** The listener of [enableFullScreenModeOnDoubleClick]. *)
Definition dblclick_listener (w : World) : Result :=
  if isFullScreenModeEnabled w then exitFullScreenMode w else enterFullScreenMode w.

(** The listener of [enablePlayPauseVideoControlOnClick]. *)
Definition click_listener (m : Manager) (w : World) : World :=
  togglePlayPause m w.

(** *** Construction *)

(** [videoTag.p = true] for a boolean property that reflects an
    attribute, and [el.onerror = h]. *)
Definition set_flag (l : loc) (name : string) (w : World) : World :=
  with_store (setAttribute l name "") w.
Definition set_onerror (l : loc) (h : ErrorHandler) (w : World) : World :=
  with_store (alter (with_onerror (Some h)) l) w.
Definition set_property (l : loc) (name v : string) (w : World) : World :=
  with_store (alter (with_properties (set_attr name v)) l) w.

(** [createVideoFunctions(video)] assigns function properties to the
    element; they are the functions of [Media] and of this module, and
    the element itself is left as it is. *)
Definition createVideoFunctions (videoTag : loc) (w : World) : World := w.

Definition enableFullScreenModeOnDoubleClick (videoTag : loc) (w : World) : World :=
  addEventListener videoTag RegDblClick w.

Definition enablePlayPauseVideoControlOnClick (videoTag : loc) (w : World) : World :=
  addEventListener videoTag RegClick w.

Definition createVideoElement (videoLink : string) (w : World) : loc * World :=
  let '(videoTag, st1) := createElement "video" (store w) in
  let '(srcTag, st2) := createElement "source" st1 in
  let w := with_store (fun _ => st2) w in
  let w := set_flag videoTag "controls" w in
  let w := set_flag videoTag "autoplay" w in
  let w := set_property videoTag "name" "media" w in
  let w := with_store (setAttribute videoTag "style" "width: 100%;") w in
  let w := with_store (setAttribute videoTag "id" "videoTag") w in
  let w := with_store (setAttribute videoTag "class" "video-stream html5-main-video") w in
  let w := createVideoFunctions videoTag w in
  let w := enableFullScreenModeOnDoubleClick videoTag w in
  let w := enablePlayPauseVideoControlOnClick videoTag w in
  let w := with_store (setAttribute srcTag "src" videoLink) w in
  let w := with_store (setAttribute srcTag "type" "video/mp4") w in
  let w := set_onerror srcTag OnErrorShowFailure w in
  let w := with_store (appendChild videoTag srcTag) w in
  (videoTag, w).

(** The markup of [createFeedbackIcon]. *)
Definition feedbackMarkup (id svgPath : string) : string :=
  "<div id=" +:+ quoted id +:+ " class=" +:+ quoted "ytp-bezel" +:+
    " role=" +:+ quoted "status" +:+ " data-layer=" +:+ quoted "4" +:+
    " style=" +:+ quoted "display: none;" +:+ ">" +:+
  "<div class=" +:+ quoted "ytp-bezel-icon" +:+ ">" +:+
  "<svg height=" +:+ quoted "100%" +:+ " version=" +:+ quoted "1.1" +:+
    " viewBox=" +:+ quoted "0 0 36 36" +:+ " width=" +:+ quoted "100%" +:+ ">" +:+
  "<use class=" +:+ quoted "ytp-svg-shadow" +:+
    " xmlns:xlink=" +:+ quoted "http://www.w3.org/1999/xlink" +:+
    " xlink:href=" +:+ quoted ("#ytp-id-" +:+ id) +:+ "></use>" +:+
  "<path class=" +:+ quoted "ytp-svg-fill" +:+ " d=" +:+ quoted svgPath +:+
    " id=" +:+ quoted ("ytp-id-" +:+ id) +:+ "></path>" +:+
  "</svg>" +:+
  "</div>" +:+
  "</div>".

(** [return div.childNodes[0];], [None] standing for [undefined]. *)
Definition createFeedbackIcon (id svgPath : string) (w : World) : option loc * World :=
  let '(div, st1) := createElement "div" (store w) in
  let st2 := set_innerHTML div (feedbackMarkup id svgPath) st1 in
  let first :=
    match st2 !! div with
    | Some el => childNodes el !! 0%nat
    | None => None
    end in
  (first, with_store (fun _ => st2) w).

(** [node.appendChild(child)], which throws when [child] is [undefined]. *)
Definition appendChild_value (parent : loc) (child : option loc) (w : World) : Result :=
  match child with
  | Some c => Normal (with_store (appendChild parent c) w)
  | None => Thrown TypeError w
  end.

Definition pausePath : string :=
  "M 12,26 16,26 16,10 12,10 z M 21,26 25,26 25,10 21,10 z".
Definition playPath : string :=
  "M 12,26 18.5,22 18.5,14 12,10 z M 18.5,22 25,18 25,18 18.5,14 z".

Definition createAllFeedbackIcons (m : Manager) (w : World) : Result :=
  let '(pauseFeedback, w) := createFeedbackIcon "pauseFeedback" pausePath w in
  let '(playFeedback, w) := createFeedbackIcon "playFeedback" playPath w in
  match appendChild_value (outerDiv m) pauseFeedback w with
  | Normal w => appendChild_value (outerDiv m) playFeedback w
  | Thrown e w => Thrown e w
  end.

Definition enablePlayPauseFeedback (m : Manager) (w : World) : World :=
  addEventListener (video m) RegTogglePlayPause w.

Definition enableVisualFeedbacks (m : Manager) (w : World) : Result :=
  match createAllFeedbackIcons m w with
  | Normal w => Normal (enablePlayPauseFeedback m w)
  | Thrown e w => Thrown e w
  end.

(** Modelled from the spec: the shortcut manager is a collaborator whose
    source is not part of the component. It is "constructed with the
    video element"; the component "only instantiates it and exposes the
    element for it to attach listeners to". *)
Definition VideoShortcutManager (videoTag : loc) (w : World) : World :=
  addEventListener videoTag RegShortcut w.

(** The constructor; [this.interfaceManager.document] is the world. *)
Definition VideoPlayerManager (videoLink : string) (outerDiv : loc) (w : World)
  : Manager * Result :=
  let '(videoTag, w) := createVideoElement videoLink w in
  let m := mkManager outerDiv videoTag in
  let w := VideoShortcutManager videoTag w in
  (m, match enableVisualFeedbacks m w with
      | Normal w => Normal (with_store (appendChild outerDiv videoTag) w)
      | Thrown e w => Thrown e w
      end).

(** [createVideoFrame] *)
Definition createVideoFrame (m : Manager) : loc := video m.

(** *** Events *)

Inductive Method : Type :=
| GoForward (seconds : number)
| GoBack (seconds : number)
| TogglePlayPause
| GoToSpecificTime (seconds : number)
| IncreaseVolumeBy5Percent
| DecreaseVolumeBy5Percent
| IncreaseSpeed
| DecreaseSpeed
| ToggleMuteUnmuteAudio
| IsFullScreenModeEnabled
| ToggleFullScreenMode
| EnterFullScreenMode
| ExitFullScreenMode.

(** A call of a method of the video element. *)
Definition call (m : Manager) (meth : Method) (w : World) : Result :=
  match meth with
  | GoForward s => Normal (with_media (goForward s) w)
  | GoBack s => Normal (with_media (goBack s) w)
  | TogglePlayPause => Normal (togglePlayPause m w)
  | GoToSpecificTime s => Normal (with_media (goToSpecificTime s) w)
  | IncreaseVolumeBy5Percent => Normal (with_media increaseVolumeBy5Percent w)
  | DecreaseVolumeBy5Percent => Normal (with_media decreaseVolumeBy5Percent w)
  | IncreaseSpeed => Normal (with_media increaseSpeed w)
  | DecreaseSpeed => Normal (with_media decreaseSpeed w)
  | ToggleMuteUnmuteAudio => Normal (with_media toggleMuteUnmuteAudio w)
  | IsFullScreenModeEnabled => Normal w
  | ToggleFullScreenMode => toggleFullScreenMode w
  | EnterFullScreenMode => enterFullScreenMode w
  | ExitFullScreenMode => exitFullScreenMode w
  end.

(** Modelled from the spec: what the listener of the shortcut manager
    does is out of scope; the calls it makes on the video element are
    the [Call] events below. *)
Definition shortcut_listener (w : World) : World := w.

Definition run_listener (m : Manager) (r : Registration) (w : World) : World :=
  match r with
  | RegDblClick => report (dblclick_listener w)
  | RegClick => click_listener m w
  | RegTogglePlayPause => report (feedback_listener w)
  | RegShortcut => shortcut_listener w
  end.

(** An event of the given type reaches the video element. *)
Definition dispatch (type : string) (m : Manager) (w : World) : World :=
  fold_left
    (fun w' r => if String.eqb (event_type r) type then run_listener m r w' else w')
    (listeners_of (video m) w) w.

(** An [error] event reaches the element [target]: its [onerror]
    handler runs, if it has one. *)
Definition fire_error (target : loc) (w : World) : World :=
  match store w !! target with
  | Some el =>
      match onerror el with
      | Some OnErrorShowFailure => emit ShowFailureMessage w
      | None => w
      end
  | None => w
  end.

(** What reaches the player from outside: clicks and double clicks on
    the video, key presses, an [error] event on an element, and calls of
    the methods of the video element. *)
Inductive Event : Type :=
| Click
| DblClick
| KeyDown
| ErrorEvent (target : loc)
| Call (meth : Method).

Definition handle (m : Manager) (ev : Event) (w : World) : World :=
  match ev with
  | Click => dispatch "click" m w
  | DblClick => dispatch "dblclick" m w
  | KeyDown => dispatch "keydown" m w
  | ErrorEvent target => fire_error target w
  | Call meth => report (call m meth w)
  end.

Definition is_due (t : Z) (timer : Z * TimerTask) : bool := fst timer <=? t.

(** The clock moves to [t]: the timers due by then run, in the order in
    which they were set, which is the order in which they fall due since
    every timer of the player has the same delay. *)
Definition advance (t : Z) (w : World) : World :=
  let due := filter (fun timer => is_due t timer = true) (timers w) in
  let pending := filter (fun timer => is_due t timer = false) (timers w) in
  fold_left (fun w' timer => run_task (snd timer) w') due
    (with_now (Z.max (now w) t) (with_timers (fun _ => pending) w)).

(** A run: each event happens at its time; the clock is moved there
    first. *)
Definition run (m : Manager) (events : list (Z * Event)) (w : World) : World :=
  fold_left (fun w' '(t, ev) => handle m ev (advance t w')) events w.

(** The world at the moment [t] of a run: the events up to [t] have
    happened, and the timers due by [t] have run. *)
Definition at_time (m : Manager) (events : list (Z * Event)) (t : Z) (w : World)
  : World :=
  advance t (run m (filter (fun '(t', _) => t' <= t) events) w).

End Player.

(** * Notions of the statements *)

(** ** Example worlds *)

Module Examples.
Import Number Media Js Dom Html Player.

(** A page: [html > body > div#player], the last being the container. *)
Definition page : Store :=
  [ mkElement "html" [] [] None [] [1%nat] None;
    mkElement "body" [] [] None [] [2%nat] (Some 0%nat);
    mkElement "div" [("id", "player")] [] None [] [] (Some 1%nat) ].

Definition container : loc := 2%nat.

Definition fresh_video : Video := mkVideo lit_0 lit_1 lit_1 true false.

Definition world_of (videoApi documentApi : gmap string value) : World :=
  mkWorld page 0%nat fresh_video videoApi documentApi [] 0 [].

(** No fullscreen support at all. *)
Definition bare_world : World := world_of ∅ ∅.

(** A browser with both spellings of the WebKit request function. *)
Definition webkit_world : World :=
  world_of
    (<["webkitRequestFullscreen" := VFunction "webkitRequestFullscreen"]>
       (<["webkitRequestFullScreen" := VFunction "webkitRequestFullScreen"]> ∅))
    (<["webkitFullscreenElement" := VNull]>
       (<["webkitExitFullscreen" := VFunction "webkitExitFullscreen"]> ∅)).

(** An element that has [webkitRequestFullscreen] only. *)
Definition lowercase_only_world : World :=
  world_of (<["webkitRequestFullscreen" := VFunction "webkitRequestFullscreen"]> ∅) ∅.

(** A browser with the Mozilla prefix only, not in fullscreen. *)
Definition moz_world : World :=
  world_of
    (<["mozRequestFullScreen" := VFunction "mozRequestFullScreen"]> ∅)
    (<["mozFullScreenElement" := VNull]>
       (<["mozCancelFullScreen" := VFunction "mozCancelFullScreen"]> ∅)).

(** The player built on the page of [webkit_world]. *)
Definition built : Manager * Result :=
  VideoPlayerManager "https://example.org/video.mp4" container webkit_world.
Definition manager : Manager := fst built.
Definition ready_world : World :=
  match snd built with
  | Normal w => w
  | Thrown _ w => w
  end.

(** The two feedback icons of [ready_world]. *)
Definition pauseIcon : loc := 6%nat.
Definition playIcon : loc := 12%nat.

(** Two clicks 100 ms apart, and two toggles 600 ms apart. *)
Definition quick_toggles : list (Z * Event) := [(0, Click); (100, Click)].
Definition spaced_toggles : list (Z * Event) :=
  [(0, Click); (600, Call TogglePlayPause)].

(** A run in which the source fails to load twice: at 10 ms and at
    40 ms the [error] event reaches the source element; in between come
    a click and an [error] event on the video element. *)
Definition failing_run : list (Z * Event) :=
  [(10, ErrorEvent 4%nat); (20, Click); (30, ErrorEvent 3%nat); (40, ErrorEvent 4%nat)].

(** A video whose volume is the literal [0.97], and one that plays at
    the rate [2]. *)
Definition video_at_0_97 : Video := mkVideo lit_0 (literal 97 100) lit_1 true false.
Definition video_at_rate_2 : Video := mkVideo lit_0 lit_1 lit_2 true false.

End Examples.

(** ** Dyadic bounds

    The notions in which the rounding of the binary64 operations is
    bounded. *)

Module Dyadic.
Import Number Media.

(** What [k] right shifts of the mantissa [m], from an exact location,
    leave in the record. *)
Definition shifted (m k : Z) (mrs : shr_record) : Prop :=
  shr_m mrs = m / 2 ^ k /\
  (shr_r mrs || shr_s mrs = true -> m mod 2 ^ k <> 0).

Definition emin : Z := -1074.

(** The number of bits that rounding drops from the mantissa [m] at the
    exponent [e]. *)
Definition dropped (m e : Z) : Z :=
  Z.max 0 (fexp prec emax (Zdigits2 m + e) - e).

(** Dyadic numbers [m * 2 ^ e], compared exactly. *)
Definition dle (m1 e1 m2 e2 : Z) : Prop :=
  m1 * 2 ^ (e1 - Z.min e1 e2) <= m2 * 2 ^ (e2 - Z.min e1 e2).

Definition exp_max : Z := 971.

(** [x] has the sign [s] and a magnitude of at most the integer [K]. *)
Definition bounded_by (s : bool) (K : Z) (x : number) : Prop :=
  x = S754_zero s \/
  exists m e, x = S754_finite s m e /\ e <= exp_max /\ dle (Zpos m) e K 0.

(** What [Math.round] returns for a finite number of sign [s] that
    rounds to the integer [k]. *)
Definition rounded (s : bool) (k : Z) : number :=
  if k =? 0 then S754_zero s else of_Z k.

(** Checking a property of the integers [lo], ..., [lo + n - 1]. *)
Definition forall_range (lo : Z) (n : nat) (P : Z -> bool) : bool :=
  forallb (fun i => P (lo + Z.of_nat i)) (seq 0 n).

Definition increase_check (k : Z) : bool :=
  within Media.lit_0 Media.lit_1
    (Math_min (div (rounded false k) Media.lit_100) Media.lit_1).

Definition decrease_check (s : bool) (k : Z) : bool :=
  let r := div (rounded s k) Media.lit_100 in
  bool_decide (Math_max Media.lit_0 r = Math_max Media.lit_0 (literal k 100)) &&
  within Media.lit_0 Media.lit_1 (Math_max Media.lit_0 r).

End Dyadic.

(** ** What the statements speak of *)

Module Notions.
Import Number Media Js Dom Html Player.

(** *** Volume and playback rate *)

(** One step of the volume or of the playback rate, and a sequence of
    them. *)
Inductive Step : Type := VolumeUp | VolumeDown | SpeedUp | SpeedDown.

Definition step (s : Step) (v : Video) : Video :=
  match s with
  | VolumeUp => increaseVolumeBy5Percent v
  | VolumeDown => decreaseVolumeBy5Percent v
  | SpeedUp => increaseSpeed v
  | SpeedDown => decreaseSpeed v
  end.

(** *** Fullscreen *)

(** The spec's wording of the probing: "probe an ordered list of named
    capabilities on the element/document and invoke the first present". *)
Fixpoint invoke_first_present (o : gmap string value) (names : list string)
  (w : World) : Result :=
  match names with
  | [] => Normal w
  | name :: rest =>
      if truthy (get o name) then invoke o name w
      else invoke_first_present o rest w
  end.

(** The spec's wording of the query: fullscreen is reported through
    "whichever vendor-prefixed API is present" on the document. *)
Definition fullscreen_elements : list string :=
  ["webkitFullscreenElement"; "mozFullScreenElement"; "msFullscreenElement"].

Definition reported_by_first_present (o : gmap string value) : bool :=
  match find (fun name => bool_decide (is_Some (o !! name))) fullscreen_elements with
  | Some name => strict_not_null (get o name)
  | None => false
  end.

Definition request_functions : list string :=
  ["webkitRequestFullscreen"; "mozRequestFullScreen"; "msRequestFullscreen"].

Definition exit_functions : list string :=
  ["webkitExitFullscreen"; "mozCancelFullScreen"; "msExitFullscreen"].

Definition absent (o : gmap string value) (name : string) : Prop := o !! name = None.

(** *** Construction *)

(** The video element and its source as [createVideoElement] leaves
    them, the video being stored at [n]. *)
Definition videoElement (n : nat) : Element :=
  mkElement "video"
    [("controls", ""); ("autoplay", ""); ("style", "width: 100%;");
     ("id", "videoTag"); ("class", "video-stream html5-main-video")]
    [("name", "media")] None [RegDblClick; RegClick] [(n + 1)%nat] None.

Definition sourceElement (n : nat) (videoLink : string) : Element :=
  mkElement "source" [("src", videoLink); ("type", "video/mp4")] []
    (Some OnErrorShowFailure) [] [] (Some n).

(** What the markup of [createFeedbackIcon] parses to. *)
Definition iconTree (id svgPath : string) : Tree :=
  Node "div"
    [("id", id); ("class", "ytp-bezel"); ("role", "status"); ("data-layer", "4");
     ("style", "display: none;")]
    [Node "div" [("class", "ytp-bezel-icon")]
       [Node "svg"
          [("height", "100%"); ("version", "1.1"); ("viewBox", "0 0 36 36");
           ("width", "100%")]
          [Node "use"
             [("class", "ytp-svg-shadow");
              ("xmlns:xlink", "http://www.w3.org/1999/xlink");
              ("xlink:href", "#ytp-id-" +:+ id)] [];
           Node "path"
             [("class", "ytp-svg-fill"); ("d", svgPath); ("id", "ytp-id-" +:+ id)]
             []]]].

(** The icon that [createFeedbackIcon] builds, stored from [first] on,
    as a child of [parent]. *)
Definition feedbackIcon (id svgPath : string) (first : nat) (parent : loc)
  : list Element :=
  [ mkElement "div"
      [("id", id); ("class", "ytp-bezel"); ("role", "status"); ("data-layer", "4");
       ("style", "display: none;")]
      [] None [] [(first + 1)%nat] (Some parent);
    mkElement "div" [("class", "ytp-bezel-icon")] [] None [] [(first + 2)%nat]
      (Some first);
    mkElement "svg"
      [("height", "100%"); ("version", "1.1"); ("viewBox", "0 0 36 36");
       ("width", "100%")]
      [] None [] [(first + 3)%nat; (first + 4)%nat] (Some (first + 1)%nat);
    mkElement "use"
      [("class", "ytp-svg-shadow"); ("xmlns:xlink", "http://www.w3.org/1999/xlink");
       ("xlink:href", "#ytp-id-" +:+ id)]
      [] None [] [] (Some (first + 2)%nat);
    mkElement "path"
      [("class", "ytp-svg-fill"); ("d", svgPath); ("id", "ytp-id-" +:+ id)]
      [] None [] [] (Some (first + 2)%nat) ].

(** The [div] whose [innerHTML] held an icon. *)
Definition scratchDiv (children : list loc) : Element :=
  mkElement "div" [] [] None [] children None.

(** The elements the constructor creates, in a store that held [n]
    elements. *)
Definition builtElements (videoLink : string) (container : loc) (n : nat)
  : list Element :=
  [ mkElement "video"
      [("controls", ""); ("autoplay", ""); ("style", "width: 100%;");
       ("id", "videoTag"); ("class", "video-stream html5-main-video")]
      [("name", "media")] None
      [RegDblClick; RegClick; RegShortcut; RegTogglePlayPause]
      [(n + 1)%nat] (Some container);
    sourceElement n videoLink;
    scratchDiv [] ] ++
  feedbackIcon "pauseFeedback" pausePath (n + 3) container ++
  [ scratchDiv [] ] ++
  feedbackIcon "playFeedback" playPath (n + 9) container.

(** *** Toggles and feedback icons *)

(** One step of [dispatch_togglePlayPause]. *)
Definition toggle_listeners (w : World) (r : Registration) : World :=
  match r with
  | RegTogglePlayPause => report (feedback_listener w)
  | _ => w
  end.

(** The element [l] exists and is not hidden by its own style. *)
Definition shown (w : World) (l : loc) : bool :=
  match store w !! l with
  | Some el => negb (hidden el)
  | None => false
  end.

(** The number of [togglePlayPause] events dispatched so far. *)
Definition toggle_events (w : World) : nat :=
  length (filter (fun e => e = DispatchEvent "togglePlayPause") (log w)).

(** The element that a timer will hide. *)
Definition target (timer : Z * TimerTask) : loc :=
  match snd timer with HideFeedback l => l end.

(** The player is wired as the constructor leaves it: the listeners of
    the video element, and the two icons that [querySelector] finds. *)
Definition wired (m : Manager) (p q : loc) (w : World) : Prop :=
  listeners_of (video m) w = [RegDblClick; RegClick; RegShortcut; RegTogglePlayPause] /\
  querySelector (documentElement w) "#pauseFeedback" (store w) = Some p /\
  querySelector (documentElement w) "#playFeedback" (store w) = Some q.

(** A click on the video and a call of [togglePlayPause] are the two
    ways to toggle. *)
Definition toggle_event (ev : Event) : bool :=
  match ev with
  | Click | Call TogglePlayPause => true
  | _ => false
  end.

(** The world after a toggle of a wired player: the icon of the new
    state is shown and a timer is set to hide it. *)
Definition toggled (p q : loc) (w : World) : World :=
  let selected := if paused (media w) then q else p in
  mkWorld (setAttribute selected "style" "" (store w)) (documentElement w)
    (set_paused (negb (paused (media w))) (media w)) (videoApi w) (documentApi w)
    (timers w ++ [(now w + 500, HideFeedback selected)]) (now w)
    (log w ++ [if paused (media w) then Play else Pause;
               DispatchEvent "togglePlayPause"]).

(** Consecutive events are at least [gap] apart. *)
Fixpoint apart (gap : Z) (events : list (Z * Event)) : bool :=
  match events with
  | (t, _) :: rest =>
      match rest with
      | (t', _) :: _ => (t + gap <=? t') && apart gap rest
      | [] => true
      end
  | [] => true
  end.

(** The first event is not before [from]. *)
Definition starts_at (from : Z) (events : list (Z * Event)) : bool :=
  match events with
  | (t, _) :: _ => from <=? t
  | [] => true
  end.

(** Every event is a toggle. *)
Definition toggles_only (events : list (Z * Event)) : bool :=
  forallb (fun event => toggle_event (snd event)) events.

(** The moment [t] is within 500 ms after one of the events. *)
Definition in_window (events : list (Z * Event)) (t : Z) : bool :=
  existsb (fun event => (fst event <=? t) && (t <? fst event + 500)) events.

(** One of the timers [ts] will hide [l]. *)
Definition targets (l : loc) (ts : list (Z * TimerTask)) : bool :=
  existsb (fun timer => bool_decide (target timer = l)) ts.

(** Every pending timer is due by [T], and an icon that is shown has a
    pending timer that will hide it. *)
Definition settled_by (T : Z) (m : Manager) (p q : loc) (w : World) : Prop :=
  wired m p q w /\
  Forall (fun timer => fst timer <= T) (timers w) /\
  (forall l, l = p \/ l = q -> shown w l = true -> targets l (timers w) = true).

(** A toggle happened at [t], no other since the icons were last
    hidden. *)
Definition busy_since (t : Z) (m : Manager) (p q : loc) (w : World) : Prop :=
  settled_by (t + 500) m p q w /\
  now w = t /\
  xorb (shown w p) (shown w q) = true /\
  Forall (fun timer => t + 500 <= fst timer) (timers w).

(** *** The failure message *)

(** The number of calls of [showFailureMessage] so far. *)
Definition failure_calls (w : World) : nat :=
  length (filter (fun e => e = ShowFailureMessage) (log w)).

(** The [onerror] handler of each element. *)
Definition error_handlers (w : World) : list (option ErrorHandler) :=
  onerror <$> store w.

(** The event is an [error] event on an element whose [onerror] is the
    handler that the constructor gives the source element. *)
Definition source_failed (w : World) (ev : Event) : bool :=
  match ev with
  | ErrorEvent target =>
      bool_decide (error_handlers w !! target = Some (Some OnErrorShowFailure))
  | _ => false
  end.

(** [w'] comes from [w] without a call of [showFailureMessage] and
    without a change of an [onerror] handler. *)
Definition inert (w w' : World) : Prop :=
  failure_calls w' = failure_calls w /\ error_handlers w' = error_handlers w.

End Notions.

(** ** Further notions

    The grids of volumes and rates, what runs keep, host objects, pages
    and markup. *)

Module Grid.
Import Number Media Dyadic Notions.

(** The volume of [k] hundredths and the rate of [q] quarters, as the
    nearest numbers. *)
Definition hundredths (k : Z) : number := literal k 100.
Definition quarters (q : Z) : number := literal q 4.

(** What the clamping and the steps give on those values; each is
    checked by evaluation over its range. *)
Definition min_check (k : Z) : bool :=
  bool_decide (Math_min (hundredths k) lit_1 = hundredths (Z.min k 100)).
Definition max_check (k : Z) : bool :=
  bool_decide (Math_max lit_0 (hundredths k) = hundredths (Z.max k 0)).
Definition up_check (k : Z) : bool :=
  bool_decide (Math_min (roundBy2Decimals (add (hundredths k) lit_0_05)) lit_1
               = hundredths (Z.min (k + 5) 100)).
Definition down_check (k : Z) : bool :=
  bool_decide (Math_max lit_0 (roundBy2Decimals (sub (hundredths k) lit_0_05))
               = hundredths (Z.max (k - 5) 0)).
Definition faster_check (q : Z) : bool :=
  bool_decide (Math_min (add (quarters q) lit_0_25) lit_2 = quarters (Z.min (q + 1) 8)).
Definition slower_check (q : Z) : bool :=
  bool_decide (Math_max lit_0_25 (sub (quarters q) lit_0_25) = quarters (Z.max (q - 1) 1)).

(** The counters that the steps move: hundredths of volume and quarters
    of rate. *)
Definition step_counters (s : Step) (c : Z * Z) : Z * Z :=
  match s with
  | VolumeUp => (Z.min (fst c + 5) 100, snd c)
  | VolumeDown => (Z.max (fst c - 5) 0, snd c)
  | SpeedUp => (fst c, Z.min (snd c + 1) 8)
  | SpeedDown => (fst c, Z.max (snd c - 1) 1)
  end.

(** The volume of [v] is [fst c] hundredths and its rate [snd c]
    quarters. *)
Definition on_grid (c : Z * Z) (v : Video) : Prop :=
  (0 <= fst c <= 100 /\ volume v = hundredths (fst c)) /\
  (1 <= snd c <= 8 /\ playbackRate v = quarters (snd c)).

End Grid.

Module Runs.
Import Number Media Js Dom Html Player Notions.

(** The volume and the playback rate are within their ranges. *)
Definition in_range (v : Video) : Prop :=
  within lit_0 lit_1 (volume v) = true /\
  within lit_0_25 lit_2 (playbackRate v) = true.

(** [v'] is [v] but for the [paused] flag. *)
Definition same_levels (v v' : Video) : Prop :=
  currentTime v' = currentTime v /\ volume v' = volume v /\
  playbackRate v' = playbackRate v /\ muted v' = muted v.

(** The event is a call of [toggleMuteUnmuteAudio]. *)
Definition mute_event (ev : Event) : bool :=
  match ev with
  | Call ToggleMuteUnmuteAudio => true
  | _ => false
  end.


(** The number of events of a run that satisfy [P]. *)
Definition count_events (P : Event -> bool) (events : list (Z * Event)) : nat :=
  length (filter (fun event => P (snd event) = true) events).

(** The listeners that the constructor leaves on the video element. *)
Definition built_listeners : list Registration :=
  [RegDblClick; RegClick; RegShortcut; RegTogglePlayPause].

End Runs.

Module Hosts.
Import Number Media Js Dom Html Player Notions.

(** The property [name] of the host object [o] is a function, if the
    object has it. *)
Definition callable_or_absent (o : gmap string value) (name : string) : Prop :=
  o !! name = None \/ exists f, o !! name = Some (VFunction f).

Definition throws (r : Result) : bool :=
  match r with Normal _ => false | Thrown _ _ => true end.

(** [w'] is [w] but for its log. *)
Definition same_but_log (w w' : World) : Prop :=
  store w' = store w /\ documentElement w' = documentElement w /\
  media w' = media w /\ videoApi w' = videoApi w /\ documentApi w' = documentApi w /\
  timers w' = timers w /\ now w' = now w.

(** The call that returned [r] from [w] changed nothing but the log,
    to which it added at most one effect: the invocation of a platform
    function, or the report of its exception. *)
Definition one_effect (w : World) (r : Result) : Prop :=
  same_but_log w (report r) /\
  (log (report r) = log w \/
   log (report r) = log w ++ [Uncaught TypeError] \/
   exists f, log (report r) = log w ++ [Invoke f]).

(** The host objects and the root of the document. *)
Definition same_hosts (w w' : World) : Prop :=
  videoApi w' = videoApi w /\ documentApi w' = documentApi w /\
  documentElement w' = documentElement w.

End Hosts.

Module Pages.
Import Number Media Js Dom Html Player Notions.

(** The element [l] is in the document: [querySelector] can reach it. *)
Definition attached (w : World) (l : loc) : Prop :=
  In l (subtree (length (store w)) (store w) (documentElement w)).

(** No element, attached or not, has the id [name]. *)
Definition id_unused (name : string) (w : World) : Prop :=
  Forall (fun el => id el <> name) (store w).

(** Every element of [st] is in [st'], with at least the children it
    had. *)
Definition extends (st st' : Store) : Prop :=
  forall i el, st !! i = Some el ->
    exists el', st' !! i = Some el' /\
                forall c, In c (childNodes el) -> In c (childNodes el').

End Pages.

Module Markup.
Import Number Media Js Dom Html Player Notions.

(** The text holds no double quote. *)
Fixpoint quote_free (s : string) : bool :=
  match s with
  | EmptyString => true
  | String c rest => negb (Ascii.eqb "034" c) && quote_free rest
  end.













End Markup.

(** ** Further examples *)

Module Samples.
Import Number Media Js Dom Html Player Notions Grid.

(** A video at half volume and normal rate. *)
Definition video_at_half : Video := mkVideo lit_0 (hundredths 50) (quarters 4) true false.

(** Louder, faster, faster, quieter. *)
Definition some_steps : list Step := [VolumeUp; SpeedUp; SpeedUp; VolumeDown].

(** A run with three calls of the mute toggle, two clicks and one call
    of [togglePlayPause], among other events. *)
Definition busy_run : list (Z * Event) :=
  [(10, Call ToggleMuteUnmuteAudio); (20, Click); (30, Call IncreaseVolumeBy5Percent);
   (40, Call ToggleMuteUnmuteAudio); (50, DblClick); (700, Click);
   (800, Call TogglePlayPause); (900, Call ToggleMuteUnmuteAudio);
   (950, Call DecreaseSpeed); (960, KeyDown); (970, ErrorEvent 4%nat)].

(** The player built in a browser with the Mozilla prefix only. *)
Definition moz_built : Manager * Result :=
  VideoPlayerManager "https://example.org/video.mp4" Examples.container Examples.moz_world.

(** A page whose container is not in the document: [html], and a [div]
    without parent. *)
Definition detached_page : Store :=
  [ mkElement "html" [] [] None [] [] None;
    mkElement "div" [("id", "player")] [] None [] [] None ].

Definition detached_world : World :=
  mkWorld detached_page 0%nat Examples.fresh_video ∅ ∅ [] 0 [].

Definition detached_built : Manager * Result :=
  VideoPlayerManager "https://example.org/video.mp4" 1%nat detached_world.

End Samples.

(** * Properties *)

(** ** Rounding of binary64 operations

    The sum, difference and product of two numbers is the exact result,
    rounded once to the nearest number. The lemmas of this module bound
    that rounding: it never crosses a number of at most 53 bits. *)

Module NumberFacts.
Import Number Media Dyadic.

Lemma pow2_pos (a : Z) : 0 <= a -> 0 < 2 ^ a.
Proof. intros; apply Z.pow_pos_nonneg; lia. Qed.

Lemma pow2_add (a b : Z) : 0 <= a -> 0 <= b -> 2 ^ (a + b) = 2 ^ a * 2 ^ b.
Proof. intros; apply Z.pow_add_r; lia. Qed.

Lemma pow2_le (a b : Z) : 0 <= a <= b -> 2 ^ a <= 2 ^ b.
Proof. intros; apply Z.pow_le_mono_r; lia. Qed.

Lemma pow2_lt (a b : Z) : 0 <= a < b -> 2 ^ a < 2 ^ b.
Proof. intros; apply Z.pow_lt_mono_r; lia. Qed.

Lemma digits2_pos_bounds (m : positive) :
  2 ^ (Zpos (digits2_pos m) - 1) <= Zpos m < 2 ^ Zpos (digits2_pos m).
Proof.
  induction m as [m IH | m IH |]; cbn [digits2_pos].
  - rewrite Pos2Z.inj_succ.
    replace (Z.succ (Zpos (digits2_pos m)) - 1) with (Zpos (digits2_pos m) - 1 + 1) by lia.
    rewrite pow2_add by lia. rewrite Z.pow_succ_r by lia. lia.
  - rewrite Pos2Z.inj_succ.
    replace (Z.succ (Zpos (digits2_pos m)) - 1) with (Zpos (digits2_pos m) - 1 + 1) by lia.
    rewrite pow2_add by lia. rewrite Z.pow_succ_r by lia. lia.
  - cbn. lia.
Qed.

(** An invariant indexed by the number of steps is kept by [iter_pos]. *)
Lemma iter_pos_invariant {A : Type} (f : A -> A) (I : Z -> A -> Prop) :
  (forall k x, 0 <= k -> I k x -> I (k + 1) (f x)) ->
  forall p k x, 0 <= k -> I k x -> I (k + Zpos p) (SpecFloat.iter_pos f p x).
Proof.
  intros step. induction p as [p IH | p IH |]; intros k x Hk Hx; cbn [SpecFloat.iter_pos].
  - replace (k + Zpos p~1) with (k + 1 + Zpos p + Zpos p) by lia.
    apply IH; [lia|]. apply IH; [lia|]. now apply step.
  - replace (k + Zpos p~0) with (k + Zpos p + Zpos p) by lia.
    apply IH; [lia|]. now apply IH.
  - now apply step.
Qed.

Lemma shr_1_shifted (m k : Z) (mrs : shr_record) :
  0 <= m -> 0 <= k -> shifted m k mrs -> shifted m (k + 1) (shr_1 mrs).
Proof.
  intros Hm Hk [Hq Hr]. destruct mrs as [q r s]; cbn [shr_m shr_r shr_s] in *.
  assert (Hp : 0 < 2 ^ k) by now apply pow2_pos.
  assert (Hdiv : m / 2 ^ (k + 1) = q / 2).
  { rewrite pow2_add, <- Z.div_div by lia. now rewrite Hq. }
  assert (Hmod : m mod 2 ^ (k + 1) = 2 ^ k * (q mod 2) + m mod 2 ^ k).
  { rewrite pow2_add by lia. rewrite Z.rem_mul_r by lia. rewrite Hq. change (2 ^ 1) with 2. lia. }
  assert (Hrem : 0 <= m mod 2 ^ k < 2 ^ k) by (apply Z.mod_pos_bound; lia).
  assert (Hstick : r || s = true -> m mod 2 ^ (k + 1) <> 0).
  { intros H. specialize (Hr H). rewrite Hmod.
    assert (0 <= q mod 2) by (apply Z.mod_pos_bound; lia). nia. }
  unfold shifted. rewrite Hdiv.
  destruct q as [| [q | q |] | q]; cbn [shr_1 shr_m shr_r shr_s];
    try (exfalso; assert (0 <= m / 2 ^ k) by (apply Z.div_pos; lia); lia).
  - split; [reflexivity|]. cbn. intros H. apply Hstick. exact H.
  - split; [now rewrite Pos2Z.inj_xI, Z.mul_comm, Z.div_add_l by lia|].
    intros _. rewrite Hmod. rewrite Pos2Z.inj_xI.
    replace ((2 * Zpos q + 1) mod 2) with 1; [nia|].
    rewrite Z.add_comm, Z.mul_comm, Z.mod_add by lia. reflexivity.
  - split; [now rewrite Pos2Z.inj_xO, Z.mul_comm, Z.div_mul by lia|].
    cbn. intros H. apply Hstick. exact H.
  - split; [reflexivity|]. intros _. rewrite Hmod. change (1 mod 2) with 1. nia.
Qed.

Lemma fexp_eq (x : Z) : fexp prec emax x = Z.max (x - 53) emin.
Proof. reflexivity. Qed.

Lemma shr_fexp_exact (m e : Z) :
  0 <= m ->
  exists mrs,
    shr_fexp prec emax m e loc_Exact = (mrs, e + dropped m e) /\
    shifted m (dropped m e) mrs.
Proof.
  intros Hm. unfold shr_fexp, shr, dropped. cbn [shr_record_of_loc].
  assert (H0 : shifted m 0 {| shr_m := m; shr_r := false; shr_s := false |}).
  { split; cbn; [now rewrite Z.div_1_r | discriminate]. }
  destruct (fexp prec emax (Zdigits2 m + e) - e) as [| p | p] eqn:Hn.
  - eexists; split; [f_equal; lia | exact H0].
  - eexists; split; [reflexivity|].
    change (Z.max 0 (Zpos p)) with (0 + Zpos p).
    apply iter_pos_invariant; [| lia | exact H0].
    intros k x Hk Hx. now apply shr_1_shifted.
  - eexists; split; [f_equal; lia | exact H0].
Qed.

Lemma round_nearest_even_shifted (m k : Z) (mrs : shr_record) :
  shifted m k mrs ->
  let m1 := round_nearest_even (shr_m mrs) (loc_of_shr_record mrs) in
  m1 = m / 2 ^ k \/ (m1 = m / 2 ^ k + 1 /\ m mod 2 ^ k <> 0).
Proof.
  intros [Hq Hr]. destruct mrs as [q r s]; cbn [shr_m shr_r shr_s] in *.
  destruct r, s; cbn [loc_of_shr_record round_nearest_even]; subst q.
  - right; split; [reflexivity | now apply Hr].
  - destruct (Z.even (m / 2 ^ k)); [now left|].
    right; split; [reflexivity | now apply Hr].
  - now left.
  - now left.
Qed.

Lemma dle_scale (k m1 e1 m2 e2 : Z) :
  k <= e1 -> k <= e2 ->
  dle m1 e1 m2 e2 <-> m1 * 2 ^ (e1 - k) <= m2 * 2 ^ (e2 - k).
Proof.
  intros H1 H2. unfold dle. set (k0 := Z.min e1 e2).
  assert (Hk0 : k <= k0 /\ k0 <= e1 /\ k0 <= e2) by (unfold k0; lia).
  replace (e1 - k) with ((e1 - k0) + (k0 - k)) by lia.
  replace (e2 - k) with ((e2 - k0) + (k0 - k)) by lia.
  rewrite !pow2_add by lia.
  assert (0 < 2 ^ (k0 - k)) by (apply pow2_pos; lia).
  rewrite !Z.mul_assoc. split; intros H0; nia.
Qed.

Lemma dropped_nonneg (m e : Z) : 0 <= dropped m e.
Proof. unfold dropped; lia. Qed.

(** When bits are dropped above the least exponent, 53 bits are kept. *)
Lemma dropped_normal (m e : Z) :
  0 < m -> 0 < dropped m e -> emin < e + dropped m e ->
  2 ^ 52 <= m / 2 ^ dropped m e.
Proof.
  intros Hm Hn He. unfold dropped in *. rewrite fexp_eq in *.
  destruct m as [| p | p]; try lia. cbn [Zdigits2] in *.
  pose proof (digits2_pos_bounds p) as [Hlo _].
  set (d := Zpos (digits2_pos p)) in *.
  assert (Hd : Z.max 0 (Z.max (d + e - 53) emin - e) = d - 53) by lia.
  rewrite Hd in *. apply Z.div_le_lower_bound; [apply pow2_pos; lia|].
  rewrite <- pow2_add by lia. replace (d - 53 + 52) with (d - 1) by lia. exact Hlo.
Qed.

Lemma floor_lower (a ea m e : Z) :
  0 < m -> 0 < a < 2 ^ 53 -> emin <= ea ->
  dle a ea m e ->
  dle a ea (m / 2 ^ dropped m e) (e + dropped m e).
Proof.
  intros Hm Ha Hea H. pose proof (dropped_nonneg m e) as Hn.
  set (n := dropped m e) in *.
  destruct (Z.eq_dec n 0) as [Hz | Hz].
  { rewrite Hz, Z.div_1_r, Z.add_0_r. exact H. }
  destruct (Z_le_gt_dec (e + n) ea) as [Hc | Hc].
  - apply (dle_scale e) in H; [| lia | lia].
    apply (dle_scale e); [lia | lia |].
    replace (ea - e) with ((ea - (e + n)) + n) in * by lia.
    rewrite pow2_add in * by lia. rewrite Z.sub_diag, Z.mul_1_r in H.
    replace (e + n - e) with n by lia.
    assert (0 < 2 ^ n) by (apply pow2_pos; lia).
    assert (a * 2 ^ (ea - (e + n)) <= m / 2 ^ n).
    { apply Z.div_le_lower_bound; [lia | lia]. }
    nia.
  - set (k := Z.min ea e).
    apply (dle_scale k); [lia | lia |].
    assert (Hnorm : 2 ^ 52 <= m / 2 ^ n) by (apply dropped_normal; fold n; lia).
    assert (0 < 2 ^ (ea - k)) by (apply pow2_pos; lia).
    assert (2 ^ (53 + (ea - k)) <= 2 ^ (52 + (e + n - k))) by (apply pow2_le; lia).
    rewrite !pow2_add in * by lia. nia.
Qed.

Lemma ceil_upper (b eb m e m1 : Z) :
  0 < m -> 0 < b < 2 ^ 53 -> emin <= eb ->
  dle m e b eb ->
  m1 = m / 2 ^ dropped m e \/
  (m1 = m / 2 ^ dropped m e + 1 /\ m mod 2 ^ dropped m e <> 0) ->
  dle m1 (e + dropped m e) b eb.
Proof.
  intros Hm Hb Heb H Hm1. pose proof (dropped_nonneg m e) as Hn.
  set (n := dropped m e) in *.
  assert (Hp : 0 < 2 ^ n) by (apply pow2_pos; lia).
  pose proof (Z.div_mod m (2 ^ n) ltac:(lia)) as Hdm.
  pose proof (Z.mod_pos_bound m (2 ^ n) Hp) as Hmod.
  destruct (Z.eq_dec n 0) as [Hz | Hz].
  { rewrite Hz in *. rewrite Z.add_0_r. change (2 ^ 0) with 1 in *.
    rewrite Z.div_1_r in *. assert (m1 = m) by lia. now subst m1. }
  destruct (Z_le_gt_dec (e + n) eb) as [Hc | Hc].
  - apply (dle_scale e) in H; [| lia | lia].
    apply (dle_scale e); [lia | lia |].
    replace (eb - e) with ((eb - (e + n)) + n) in * by lia.
    rewrite pow2_add in * by lia. rewrite Z.sub_diag, Z.mul_1_r in H.
    replace (e + n - e) with n by lia.
    assert (0 < 2 ^ (eb - (e + n))) by (apply pow2_pos; lia).
    rewrite Z.mul_assoc in *.
    set (beta := b * 2 ^ (eb - (e + n))) in *.
    set (P := 2 ^ n) in *. set (q := m / P) in *. set (r := m mod P) in *.
    clearbody beta P q r.
    assert (Hq : q <= beta).
    { apply Z.lt_succ_r. apply (Z.mul_lt_mono_pos_l P); lia. }
    assert (Hm1' : m1 <= beta).
    { destruct Hm1 as [-> | [-> Hr]]; [exact Hq|].
      apply Z.lt_succ_r. unfold Z.succ.
      assert (P * q < P * beta) by lia.
      apply (Z.mul_lt_mono_pos_l P); lia. }
    apply Z.mul_le_mono_nonneg_r; lia.
  - exfalso. set (k := Z.min e eb).
    unfold dle in H. fold k in H.
    assert (Hnorm : 2 ^ 52 <= m / 2 ^ n) by (apply dropped_normal; fold n; lia).
    assert (0 < 2 ^ (eb - k)) by (apply pow2_pos; lia).
    assert (0 < 2 ^ (e - k)) by (apply pow2_pos; lia).
    assert (Hpow : 2 ^ (53 + (eb - k)) <= 2 ^ (52 + (n + (e - k)))) by (apply pow2_le; lia).
    rewrite !pow2_add in Hpow by lia.
    set (P := 2 ^ n) in *. set (q := m / P) in *. set (r := m mod P) in *.
    set (A := 2 ^ (e - k)) in *. set (B := 2 ^ (eb - k)) in *.
    clearbody P q r A B.
    assert (b * B < 2 ^ 53 * B) by (apply Z.mul_lt_mono_pos_r; lia).
    assert (2 ^ 52 * (P * A) <= q * (P * A)) by (apply Z.mul_le_mono_nonneg_r; nia).
    assert (q * (P * A) <= m * A) by nia.
    lia.
Qed.

Lemma dle_mono_l (m1 m1' e1 m2 e2 : Z) :
  m1' <= m1 -> dle m1 e1 m2 e2 -> dle m1' e1 m2 e2.
Proof.
  unfold dle. intros Hle H.
  assert (0 < 2 ^ (e1 - Z.min e1 e2)) by (apply pow2_pos; lia). nia.
Qed.

Lemma dle_mono_r (m1 e1 m2 m2' e2 : Z) :
  m2 <= m2' -> dle m1 e1 m2 e2 -> dle m1 e1 m2' e2.
Proof.
  unfold dle. intros Hle H.
  assert (0 < 2 ^ (e2 - Z.min e1 e2)) by (apply pow2_pos; lia). nia.
Qed.

Lemma dle_pos (a ea m e : Z) : 0 < a -> dle a ea m e -> 0 < m.
Proof.
  unfold dle. intros Ha H.
  assert (0 < 2 ^ (ea - Z.min ea e)) by (apply pow2_pos; lia).
  assert (0 < 2 ^ (e - Z.min ea e)) by (apply pow2_pos; lia). nia.
Qed.

(** Dropping low bits without rounding does not increase the value. *)
Lemma trunc_upper (m e n b eb : Z) :
  0 <= m -> 0 <= n -> dle m e b eb -> dle (m / 2 ^ n) (e + n) b eb.
Proof.
  intros Hm Hn H. set (k := Z.min e eb).
  unfold dle in H. fold k in H.
  apply (dle_scale k); [lia | lia |].
  replace (e + n - k) with (n + (e - k)) by lia. rewrite pow2_add by lia.
  assert (Hp : 0 < 2 ^ n) by (apply pow2_pos; lia).
  assert (0 < 2 ^ (e - k)) by (apply pow2_pos; lia).
  pose proof (Z.mul_div_le m (2 ^ n) Hp).
  assert (m / 2 ^ n * (2 ^ n * 2 ^ (e - k)) <= m * 2 ^ (e - k)); [| lia].
  rewrite Z.mul_assoc. apply Z.mul_le_mono_nonneg_r; lia.
Qed.

(** A 53-bit mantissa below a bound has an exponent below the bound's. *)
Lemma dle_exponent (m e b eb : Z) :
  2 ^ 52 <= m -> b < 2 ^ 53 -> dle m e b eb -> e <= eb.
Proof.
  intros Hm Hb H. destruct (Z_le_gt_dec e eb) as [|Hgt]; [assumption|exfalso].
  unfold dle in H. replace (Z.min e eb) with eb in H by lia.
  rewrite Z.sub_diag, Z.mul_1_r in H.
  assert (2 ^ 1 <= 2 ^ (e - eb)) by (apply pow2_le; lia).
  change (2 ^ 1) with 2 in *. nia.
Qed.

Lemma binary_round_aux_upper (s : bool) (m e b eb : Z) :
  0 < m -> e <= exp_max -> 0 < b < 2 ^ 53 -> emin <= eb <= exp_max ->
  dle m e b eb ->
  binary_round_aux prec emax s m e loc_Exact = S754_zero s \/
  exists mz ez,
    binary_round_aux prec emax s m e loc_Exact = S754_finite s mz ez /\
    ez <= exp_max /\ dle (Zpos mz) ez b eb.
Proof.
  intros Hm He Hb Heb H. unfold binary_round_aux.
  destruct (shr_fexp_exact m e) as (mrs & -> & Hsh); [lia|].
  pose proof (round_nearest_even_shifted _ _ _ Hsh) as Hm1. cbv zeta in Hm1.
  set (m1 := round_nearest_even (shr_m mrs) (loc_of_shr_record mrs)) in *.
  pose proof (dropped_nonneg m e) as Hn. set (n := dropped m e) in *.
  assert (Hlo : 0 <= m / 2 ^ n) by (apply Z.div_pos; [lia | apply pow2_pos; lia]).
  assert (Hm1pos : 0 <= m1) by lia.
  assert (Hd1 : dle m1 (e + n) b eb) by (apply ceil_upper; first [assumption | lia]).
  destruct (shr_fexp_exact m1 (e + n)) as (mrs2 & -> & [Hq2 _]); [lia|].
  rewrite Hq2. pose proof (dropped_nonneg m1 (e + n)) as Hn2.
  set (n2 := dropped m1 (e + n)) in *.
  assert (Hd2 : dle (m1 / 2 ^ n2) (e + n + n2) b eb) by (apply trunc_upper; assumption).
  assert (Hm2 : 0 <= m1 / 2 ^ n2) by (apply Z.div_pos; [lia | apply pow2_pos; lia]).
  destruct (m1 / 2 ^ n2) as [| mz | mz] eqn:Em2; [now left | right | lia].
  assert (Hez : e + n + n2 <= exp_max).
  { destruct (Z.eq_dec n2 0) as [Hz2 | Hz2].
    - rewrite Hz2, Z.add_0_r. destruct (Z.eq_dec n 0) as [Hz | Hz]; [lia|].
      destruct (Z_le_gt_dec (e + n) emin) as [|Hgt]; [unfold emin, exp_max in *; lia|].
      assert (2 ^ 52 <= m / 2 ^ n) by (apply dropped_normal; fold n; lia).
      assert (e + n <= eb); [| lia].
      apply (dle_exponent m1 _ b); [lia | lia | assumption].
    - destruct (Z_le_gt_dec (e + n + n2) emin) as [|Hgt]; [unfold emin, exp_max in *; lia|].
      assert (0 < m1).
      { destruct (Z.eq_dec m1 0) as [Hz | Hz]; [| lia].
        rewrite Hz, Z.div_0_l in Em2; [discriminate|].
        assert (0 < 2 ^ n2) by (apply pow2_pos; lia). lia. }
      assert (2 ^ 52 <= m1 / 2 ^ n2) by (apply dropped_normal; fold n2; lia).
      assert (e + n + n2 <= eb); [| lia].
      apply (dle_exponent (m1 / 2 ^ n2) _ b); [lia | lia |]. rewrite Em2. assumption. }
  exists mz, (e + n + n2). split; [| split; assumption].
  unfold exp_max in Hez. destruct (Z.leb_spec (e + n + n2) (emax - prec)) as [|Hlt];
    [reflexivity | unfold emax, prec in Hlt; lia].
Qed.

Lemma binary_round_aux_lower (s : bool) (m e a ea : Z) :
  0 < m -> 0 < a < 2 ^ 53 -> emin <= ea ->
  dle a ea m e ->
  binary_round_aux prec emax s m e loc_Exact = S754_infinity s \/
  exists mz ez,
    binary_round_aux prec emax s m e loc_Exact = S754_finite s mz ez /\
    dle a ea (Zpos mz) ez.
Proof.
  intros Hm Ha Hea H. unfold binary_round_aux.
  destruct (shr_fexp_exact m e) as (mrs & -> & Hsh); [lia|].
  pose proof (round_nearest_even_shifted _ _ _ Hsh) as Hm1. cbv zeta in Hm1.
  set (m1 := round_nearest_even (shr_m mrs) (loc_of_shr_record mrs)) in *.
  set (n := dropped m e) in *.
  assert (Hd0 : dle a ea (m / 2 ^ n) (e + n)) by (apply floor_lower; assumption).
  assert (Hd1 : dle a ea m1 (e + n)) by (apply (dle_mono_r _ _ (m / 2 ^ n)); [lia | assumption]).
  assert (Hm1pos : 0 < m1) by (apply (dle_pos a ea _ (e + n)); [lia | assumption]).
  destruct (shr_fexp_exact m1 (e + n)) as (mrs2 & -> & [Hq2 _]); [lia|].
  rewrite Hq2. set (n2 := dropped m1 (e + n)) in *.
  assert (Hd2 : dle a ea (m1 / 2 ^ n2) (e + n + n2)) by (apply floor_lower; assumption).
  assert (Hm2 : 0 < m1 / 2 ^ n2) by (apply (dle_pos a ea _ (e + n + n2)); [lia | assumption]).
  destruct (m1 / 2 ^ n2) as [| mz | mz] eqn:Em2; [lia | | lia].
  destruct (e + n + n2 <=? emax - prec); [right | now left].
  exists mz, (e + n + n2). split; [reflexivity | assumption].
Qed.

Lemma dle_shift (m e d b eb : Z) :
  0 <= d -> dle m e b eb -> dle (m * 2 ^ d) (e - d) b eb.
Proof.
  intros Hd H. set (k := Z.min (e - d) eb).
  apply (proj1 (dle_scale k m e b eb ltac:(lia) ltac:(lia))) in H.
  unfold dle. fold k.
  replace (e - k) with (d + (e - d - k)) in H by lia.
  rewrite pow2_add in H by lia. lia.
Qed.

Lemma dle_shift_r (a ea m e d : Z) :
  0 <= d -> dle a ea m e -> dle a ea (m * 2 ^ d) (e - d).
Proof.
  intros Hd H. set (k := Z.min ea (e - d)).
  apply (proj1 (dle_scale k a ea m e ltac:(lia) ltac:(lia))) in H.
  unfold dle. fold k.
  replace (e - k) with (d + (e - d - k)) in H by lia.
  rewrite pow2_add in H by lia. lia.
Qed.

Lemma iter_xO (m d : positive) : Zpos (Pos.iter xO m d) = Zpos m * 2 ^ Zpos d.
Proof.
  induction d as [| d IH] using Pos.peano_ind.
  - cbn. lia.
  - rewrite Pos.iter_succ, Pos2Z.inj_xO, IH, Pos2Z.inj_succ, Z.pow_succ_r by lia. lia.
Qed.

Lemma shl_align_spec (m : positive) (e e' : Z) :
  let '(mz, ez) := shl_align m e e' in
  ez <= e /\ Zpos mz = Zpos m * 2 ^ (e - ez) /\ (e' <= e -> ez = e').
Proof.
  unfold shl_align. destruct (e' - e) as [| d | d] eqn:Hd.
  - rewrite Z.sub_diag. repeat split; lia.
  - rewrite Z.sub_diag. repeat split; lia.
  - split; [lia | split; [| reflexivity]]. rewrite iter_xO. f_equal. f_equal. lia.
Qed.

Lemma binary_round_upper (s : bool) (m : positive) (e b eb : Z) :
  e <= exp_max -> 0 < b < 2 ^ 53 -> emin <= eb <= exp_max ->
  dle (Zpos m) e b eb ->
  binary_round prec emax s m e = S754_zero s \/
  exists mz ez,
    binary_round prec emax s m e = S754_finite s mz ez /\
    ez <= exp_max /\ dle (Zpos mz) ez b eb.
Proof.
  intros He Hb Heb H. unfold binary_round.
  pose proof (shl_align_spec m e (fexp prec emax (Zpos (digits2_pos m) + e))) as Hal.
  destruct (shl_align m e _) as [mz ez]. destruct Hal as (Hez & Hmz & _).
  apply binary_round_aux_upper; [lia | lia | assumption | assumption |].
  rewrite Hmz. replace ez with (e - (e - ez)) at 2 by lia.
  apply dle_shift; [lia | assumption].
Qed.

Lemma binary_round_lower (s : bool) (m : positive) (e a ea : Z) :
  0 < a < 2 ^ 53 -> emin <= ea ->
  dle a ea (Zpos m) e ->
  binary_round prec emax s m e = S754_infinity s \/
  exists mz ez,
    binary_round prec emax s m e = S754_finite s mz ez /\
    dle a ea (Zpos mz) ez.
Proof.
  intros Ha Hea H. unfold binary_round.
  pose proof (shl_align_spec m e (fexp prec emax (Zpos (digits2_pos m) + e))) as Hal.
  destruct (shl_align m e _) as [mz ez]. destruct Hal as (Hez & Hmz & _).
  apply binary_round_aux_lower; [lia | assumption | assumption |].
  rewrite Hmz. replace ez with (e - (e - ez)) at 2 by lia.
  apply dle_shift_r; [lia | assumption].
Qed.

(** Sums and differences of finite numbers are computed exactly, then
    rounded once. *)
Lemma shl_align_fst (m : positive) (e k : Z) :
  k <= e -> Zpos (fst (shl_align m e k)) = Zpos m * 2 ^ (e - k).
Proof.
  intros Hk. pose proof (shl_align_spec m e k) as H.
  destruct (shl_align m e k) as [mz ez]. destruct H as (_ & Hm & Hz).
  cbn [fst]. rewrite Hm, Hz by lia. reflexivity.
Qed.

Lemma add_finite (sx sy : bool) (mx my : positive) (ex ey : Z) :
  let x := S754_finite sx mx ex in
  let y := S754_finite sy my ey in
  let k := Z.min ex ey in
  add x y = binary_normalize prec emax (scaled k x + scaled k y) k false.
Proof.
  cbv zeta. unfold add, SFadd, scaled.
  rewrite !shl_align_fst by lia. reflexivity.
Qed.

Lemma sub_finite (sx sy : bool) (mx my : positive) (ex ey : Z) :
  let x := S754_finite sx mx ex in
  let y := S754_finite sy my ey in
  let k := Z.min ex ey in
  sub x y = binary_normalize prec emax (scaled k x - scaled k y) k false.
Proof.
  cbv zeta. unfold sub, SFsub, scaled.
  rewrite !shl_align_fst by lia. reflexivity.
Qed.

Lemma normalize_bounded (X k K : Z) :
  k <= exp_max -> 0 < K < 2 ^ 53 -> dle (Z.abs X) k K 0 ->
  bounded_by (X <? 0) K (binary_normalize prec emax X k false).
Proof.
  intros Hk HK H. unfold binary_normalize, bounded_by.
  destruct X as [| p | p]; cbn [Z.abs Z.ltb Z.compare] in *.
  - now left.
  - apply binary_round_upper; try assumption. unfold emin, exp_max; lia.
  - apply binary_round_upper; try assumption. unfold emin, exp_max; lia.
Qed.

Lemma dle_add (m1 m2 k K1 K2 : Z) :
  dle m1 k K1 0 -> dle m2 k K2 0 -> dle (m1 + m2) k (K1 + K2) 0.
Proof. unfold dle. lia. Qed.

Lemma scaled_finite (s : bool) (m : positive) (e k : Z) :
  scaled k (S754_finite s m e) = cond_Zopp s (Zpos m * 2 ^ (e - k)).
Proof. reflexivity. Qed.

Lemma dle_scaled (m : positive) (e k K : Z) :
  k <= e -> dle (Zpos m) e K 0 -> dle (Zpos m * 2 ^ (e - k)) k K 0.
Proof.
  intros Hk H. replace k with (e - (e - k)) at 2 by lia.
  apply dle_shift; [lia | assumption].
Qed.

Lemma mul_bounded (s : bool) (K : Z) (x : number) :
  0 < K -> 100 * K < 2 ^ 53 -> bounded_by s K x ->
  bounded_by s (100 * K) (mul x Media.lit_100).
Proof.
  intros HK HK' [-> | (m & e & -> & He & H)].
  - left. cbn. now rewrite xorb_false_r.
  - unfold mul, Media.lit_100, SFmul. rewrite xorb_false_r.
    apply binary_round_aux_upper; [lia | unfold exp_max in *; lia | lia
      | unfold emin, exp_max; lia |].
    rewrite Pos2Z.inj_mul.
    change (Zpos 7036874417766400) with (100 * 2 ^ 46).
    replace (Zpos m * (100 * 2 ^ 46)) with (100 * Zpos m * 2 ^ 46) by lia.
    replace (e + -46) with (e - 46) by lia.
    apply dle_shift; [lia|]. unfold dle in *.
    assert (0 < 2 ^ (e - Z.min e 0)) by (apply pow2_pos; lia). lia.
Qed.

Lemma round_half_up_bounded (s : bool) (K : Z) (m : positive) (e : Z) :
  0 <= K -> dle (Zpos m) e K 0 ->
  let k := round_half_up (S754_finite s m e) in
  if s then - K <= k <= 0 else 0 <= k <= K.
Proof.
  intros HK H. unfold round_half_up, dle in *.
  destruct (Z.leb_spec 0 e) as [He | He].
  - replace (Z.min e 0) with 0 in H by lia. rewrite !Z.sub_0_r in H.
    change (2 ^ 0) with 1 in H. destruct s; cbn [cond_Zopp]; lia.
  - replace (Z.min e 0) with e in H by lia. rewrite Z.sub_diag, Z.sub_0_l in H.
    change (2 ^ 0) with 1 in H. rewrite Z.mul_1_r in H.
    assert (Hp : 0 < 2 ^ (- e)) by (apply pow2_pos; lia).
    assert (Hq : 2 ^ (1 - e) = 2 * 2 ^ (- e)).
    { replace (1 - e) with (1 + - e) by lia. now rewrite pow2_add by lia. }
    rewrite Hq. destruct s; cbn [cond_Zopp]; split.
    + apply Z.div_le_lower_bound; lia.
    + apply Z.lt_succ_r. apply Z.div_lt_upper_bound; lia.
    + apply Z.div_pos; lia.
    + apply Z.lt_succ_r. apply Z.div_lt_upper_bound; lia.
Qed.

Lemma Math_round_bounded (s : bool) (K : Z) (x : number) :
  0 <= K -> bounded_by s K x ->
  Math_round x = rounded s (round_half_up x) /\
  if s then - K <= round_half_up x <= 0 else 0 <= round_half_up x <= K.
Proof.
  intros HK [-> | (m & e & -> & He & H)].
  - split; [reflexivity|]. cbn. destruct s; lia.
  - split; [reflexivity|]. now apply round_half_up_bounded.
Qed.

Lemma dle_unshift_r (a ea b eb d : Z) :
  0 <= d -> dle a ea (b * 2 ^ d) (eb - d) -> dle a ea b eb.
Proof.
  intros Hd H. set (k := Z.min ea (eb - d)).
  unfold dle in H. fold k in H.
  apply (dle_scale k); [lia | lia |].
  replace (eb - k) with (d + (eb - d - k)) by lia.
  rewrite pow2_add by lia. lia.
Qed.

Lemma dle_unshift_l (a ea b eb d : Z) :
  0 <= d -> dle (a * 2 ^ d) (ea - d) b eb -> dle a ea b eb.
Proof.
  intros Hd H. set (k := Z.min (ea - d) eb).
  unfold dle in H. fold k in H.
  apply (dle_scale k); [lia | lia |].
  replace (ea - k) with (d + (ea - d - k)) by lia.
  rewrite pow2_add by lia. lia.
Qed.

Lemma leb_finite (m1 m2 : positive) (e1 e2 : Z) :
  leb (S754_finite false m1 e1) (S754_finite false m2 e2) = true <->
  dle (Zpos m1) e1 (Zpos m2) e2.
Proof.
  unfold leb, compare, dle, scaled, exponent. cbn [cond_Zopp].
  destruct (Z.compare_spec (Zpos m1 * 2 ^ (e1 - Z.min e1 e2))
                           (Zpos m2 * 2 ^ (e2 - Z.min e1 e2))); split; intros; (lia || done).
Qed.

Lemma leb_finite_sign (m1 m2 : positive) (e1 e2 : Z) (s : bool) :
  leb (S754_finite false m1 e1) (S754_finite s m2 e2) = true -> s = false.
Proof.
  destruct s; [| reflexivity]. unfold leb, compare, scaled, exponent. cbn [cond_Zopp].
  set (k := Z.min e1 e2).
  assert (0 < 2 ^ (e1 - k)) by (apply pow2_pos; lia).
  assert (0 < 2 ^ (e2 - k)) by (apply pow2_pos; lia).
  destruct (Z.compare_spec (Zpos m1 * 2 ^ (e1 - k)) (- (Zpos m2 * 2 ^ (e2 - k)))); (lia || done).
Qed.

Lemma within_0_1 (x : number) :
  within Media.lit_0 Media.lit_1 x = true ->
  (exists s, x = S754_zero s) \/
  exists m e, x = S754_finite false m e /\ dle (Zpos m) e 1 0.
Proof.
  unfold within. intros [H0 H1]%andb_prop. destruct x as [s | s | | s m e]; try done.
  - left. now exists s.
  - destruct s; done.
  - right. assert (s = false) as ->.
    { destruct s; [| reflexivity]. exfalso. revert H0.
      unfold leb, compare, scaled, exponent, Media.lit_0. cbn [cond_Zopp].
      assert (0 < 2 ^ (e - Z.min 0 e)) by (apply pow2_pos; lia).
      destruct (Z.compare_spec 0 (- (Zpos m * 2 ^ (e - Z.min 0 e)))); (lia || done). }
    exists m, e. split; [reflexivity|].
    apply leb_finite in H1. apply (dle_unshift_r _ _ 1 0 52); [lia | exact H1].
Qed.

Lemma within_025_2 (x : number) :
  within Media.lit_0_25 Media.lit_2 x = true ->
  exists m e, x = S754_finite false m e /\
              dle 1 (-2) (Zpos m) e /\ dle (Zpos m) e 2 0.
Proof.
  unfold within. intros [H0 H1]%andb_prop. destruct x as [s | s | | s m e]; try done.
  - destruct s; done.
  - pose proof (leb_finite_sign _ _ _ _ _ H0) as ->.
    exists m, e. split; [reflexivity|]. apply leb_finite in H0, H1. split.
    + apply (dle_unshift_l 1 (-2) _ _ 52); [lia | exact H0].
    + apply (dle_unshift_r _ _ 2 0 51); [lia | exact H1].
Qed.

Lemma forall_range_spec (lo : Z) (n : nat) (P : Z -> bool) :
  forall_range lo n P = true ->
  forall k, lo <= k < lo + Z.of_nat n -> P k = true.
Proof.
  unfold forall_range. rewrite forallb_forall. intros H k Hk.
  replace k with (lo + Z.of_nat (Z.to_nat (k - lo))) by lia.
  apply H. apply in_seq. lia.
Qed.

Lemma increase_check_all : forall_range 0 201 increase_check = true.
Proof. vm_compute. reflexivity. Qed.

Lemma decrease_check_pos : forall_range 0 101 (decrease_check false) = true.
Proof. vm_compute. reflexivity. Qed.

Lemma decrease_check_neg : forall_range (-100) 101 (decrease_check true) = true.
Proof. vm_compute. reflexivity. Qed.

Lemma lit_0_05_le_1 : dle (Zpos 7205759403792794) (-57) 1 0.
Proof. unfold dle. vm_compute. discriminate. Qed.

Lemma add_0_05_bounded (x : number) :
  within Media.lit_0 Media.lit_1 x = true ->
  bounded_by false 2 (add x Media.lit_0_05).
Proof.
  intros [[s ->] | (m & e & -> & H)]%within_0_1.
  - right. destruct s; (do 2 eexists; split; [reflexivity|]);
      (split; [unfold exp_max; lia | unfold dle; vm_compute; discriminate]).
  - unfold Media.lit_0_05. rewrite add_finite. cbv zeta. rewrite !scaled_finite.
    cbn [cond_Zopp]. set (k := Z.min e (-57)).
    set (X := Zpos m * 2 ^ (e - k) + Zpos 7205759403792794 * 2 ^ (-57 - k)).
    assert (0 < 2 ^ (e - k)) by (apply pow2_pos; lia).
    assert (0 < 2 ^ (-57 - k)) by (apply pow2_pos; lia).
    assert (HX : 0 < X) by (unfold X; lia).
    replace false with (X <? 0) at 1 by lia.
    apply normalize_bounded; [unfold exp_max; lia | lia |].
    rewrite Z.abs_eq by lia.
    apply (dle_add _ _ k 1 1); apply dle_scaled;
      first [lia | assumption | apply lit_0_05_le_1].
Qed.

Lemma sub_0_05_bounded (x : number) :
  within Media.lit_0 Media.lit_1 x = true ->
  exists s, bounded_by s 1 (sub x Media.lit_0_05).
Proof.
  intros [[s ->] | (m & e & -> & H)]%within_0_1.
  - exists true. right. destruct s; (do 2 eexists; split; [reflexivity|]);
      (split; [unfold exp_max; lia | apply lit_0_05_le_1]).
  - unfold Media.lit_0_05. rewrite sub_finite. cbv zeta. rewrite !scaled_finite.
    cbn [cond_Zopp]. set (k := Z.min e (-57)).
    set (V := Zpos m * 2 ^ (e - k)). set (C := Zpos 7205759403792794 * 2 ^ (-57 - k)).
    assert (0 < 2 ^ (e - k)) by (apply pow2_pos; lia).
    assert (0 < 2 ^ (-57 - k)) by (apply pow2_pos; lia).
    assert (HV : dle V k 1 0) by (apply dle_scaled; [lia | assumption]).
    assert (HC : dle C k 1 0) by (apply dle_scaled; [lia | apply lit_0_05_le_1]).
    exists (V - C <? 0).
    apply normalize_bounded; [unfold exp_max; lia | lia |].
    destruct (Z_le_gt_dec 0 (V - C)).
    + rewrite Z.abs_eq by lia. apply (dle_mono_l V); [unfold C; lia | assumption].
    + rewrite Z.abs_neq by lia. apply (dle_mono_l C); [unfold V; lia | assumption].
Qed.

Lemma rounded_false (k : Z) : rounded false k = of_Z k.
Proof. unfold rounded. destruct (Z.eqb_spec k 0) as [-> |]; reflexivity. Qed.

Lemma increaseVolume_rounding (x : number) :
  within Media.lit_0 Media.lit_1 x = true ->
  let y := add x Media.lit_0_05 in
  Media.roundBy2Decimals y = round_half_up_2dec y /\
  within Media.lit_0 Media.lit_1 (Math_min (Media.roundBy2Decimals y) Media.lit_1) = true.
Proof.
  intros Hx y. pose proof (add_0_05_bounded x Hx) as Hy. fold y in Hy.
  apply (mul_bounded false 2) in Hy; [| lia | lia].
  apply Math_round_bounded in Hy as [Hr Hk]; [| lia].
  unfold Media.roundBy2Decimals, round_half_up_2dec. rewrite Hr. split.
  - now rewrite rounded_false.
  - apply (forall_range_spec _ _ _ increase_check_all). lia.
Qed.

Lemma decreaseVolume_rounding (x : number) :
  within Media.lit_0 Media.lit_1 x = true ->
  let y := sub x Media.lit_0_05 in
  Math_max Media.lit_0 (Media.roundBy2Decimals y) =
    Math_max Media.lit_0 (round_half_up_2dec y) /\
  within Media.lit_0 Media.lit_1 (Math_max Media.lit_0 (Media.roundBy2Decimals y)) = true.
Proof.
  intros Hx y. destruct (sub_0_05_bounded x Hx) as [s Hy]. fold y in Hy.
  apply (mul_bounded s 1) in Hy; [| lia | lia].
  apply Math_round_bounded in Hy as [Hr Hk]; [| lia].
  unfold Media.roundBy2Decimals, round_half_up_2dec. rewrite Hr.
  set (k := round_half_up (mul y Media.lit_100)) in *.
  assert (Hc : decrease_check s k = true).
  { destruct s.
    - apply (forall_range_spec _ _ _ decrease_check_neg). lia.
    - apply (forall_range_spec _ _ _ decrease_check_pos). lia. }
  apply andb_prop in Hc as [Heq Hin]. apply bool_decide_eq_true in Heq.
  split; assumption.
Qed.

Lemma leb_of_compare (x y : number) (c : comparison) :
  compare x y = Some c -> c <> Gt -> leb x y = true.
Proof. unfold leb. intros ->. destruct c; done. Qed.

Lemma increaseSpeed_in_range (x : number) :
  within Media.lit_0_25 Media.lit_2 x = true ->
  within Media.lit_0_25 Media.lit_2 (Math_min (add x Media.lit_0_25) Media.lit_2) = true.
Proof.
  intros (m & e & -> & Hlo & _)%within_025_2.
  unfold Media.lit_0_25 at 2. rewrite add_finite. cbv zeta. rewrite !scaled_finite.
  cbn [cond_Zopp]. set (k := Z.min e (-54)).
  set (V := Zpos m * 2 ^ (e - k)). set (C := Zpos 4503599627370496 * 2 ^ (-54 - k)).
  assert (0 < 2 ^ (e - k)) by (apply pow2_pos; lia).
  assert (0 < 2 ^ (-54 - k)) by (apply pow2_pos; lia).
  assert (HV : dle 1 (-2) V k).
  { unfold V. replace k with (e - (e - k)) at 2 by lia.
    apply dle_shift_r; [lia | assumption]. }
  assert (HX : dle 1 (-2) (V + C) k) by (apply (dle_mono_r _ _ V); [unfold C; lia | assumption]).
  assert (Hpos : 0 < V + C) by (unfold V, C; lia).
  destruct (V + C) as [| p | p] eqn:EX; try lia.
  cbn [binary_normalize].
  destruct (binary_round_lower false p k 1 (-2)) as [-> | (mz & ez & -> & Hz)];
    [lia | unfold emin; lia | assumption | reflexivity |].
  assert (Hge : leb Media.lit_0_25 (S754_finite false mz ez) = true).
  { apply leb_finite. apply (dle_shift 1 (-2) 52) in Hz; [exact Hz | lia]. }
  unfold Math_min, within.
  destruct (compare (S754_finite false mz ez) Media.lit_2) as [[| |]|] eqn:Ec.
  - cbn [is_neg_zero Media.lit_2]. rewrite Hge. now rewrite (leb_of_compare _ _ _ Ec).
  - rewrite Hge. now rewrite (leb_of_compare _ _ _ Ec).
  - reflexivity.
  - discriminate Ec.
Qed.

Lemma decreaseSpeed_in_range (x : number) :
  within Media.lit_0_25 Media.lit_2 x = true ->
  within Media.lit_0_25 Media.lit_2 (Math_max Media.lit_0_25 (sub x Media.lit_0_25)) = true.
Proof.
  intros (m & e & -> & Hlo & Hhi)%within_025_2.
  unfold Media.lit_0_25 at 3. rewrite sub_finite. cbv zeta. rewrite !scaled_finite.
  cbn [cond_Zopp]. set (k := Z.min e (-54)).
  set (V := Zpos m * 2 ^ (e - k)). set (C := Zpos 4503599627370496 * 2 ^ (-54 - k)).
  assert (0 < 2 ^ (e - k)) by (apply pow2_pos; lia).
  assert (0 < 2 ^ (-54 - k)) by (apply pow2_pos; lia).
  assert (HC : C = 1 * 2 ^ (-2 - k)).
  { unfold C. change (Zpos 4503599627370496) with (2 ^ 52).
    rewrite <- pow2_add by lia. rewrite Z.mul_1_l. f_equal. lia. }
  assert (HVC : C <= V).
  { rewrite HC. unfold V. apply (dle_scale k); [lia | lia | assumption]. }
  assert (Hb : bounded_by (V - C <? 0) 2 (binary_normalize prec emax (V - C) k false)).
  { apply normalize_bounded; [unfold exp_max; lia | lia |].
    rewrite Z.abs_eq by lia. apply (dle_mono_l V); [lia|].
    apply dle_scaled; [lia | assumption]. }
  replace (V - C <? 0) with false in Hb by lia.
  destruct Hb as [-> | (mz & ez & -> & _ & Hz)]; [reflexivity|].
  assert (Hle : leb (S754_finite false mz ez) Media.lit_2 = true).
  { apply leb_finite. apply (dle_shift_r _ _ 2 0 51) in Hz; [exact Hz | lia]. }
  unfold Math_max, within.
  destruct (compare Media.lit_0_25 (S754_finite false mz ez)) as [[| |]|] eqn:Ec.
  - reflexivity.
  - rewrite Hle. now rewrite (leb_of_compare _ _ _ Ec).
  - reflexivity.
  - discriminate Ec.
Qed.

End NumberFacts.

(** ** Volume and playback rate *)

Module MediaFacts.
Import Number Media Dyadic Notions NumberFacts.
(** The literals of [Media] are the binary64 values of the decimal
    literals of the source. *)
Lemma literals_denote :
  lit_0 = of_Z 0 /\ lit_1 = of_Z 1 /\ lit_2 = of_Z 2 /\ lit_100 = of_Z 100 /\
  lit_0_05 = literal 5 100 /\ lit_0_25 = literal 25 100.
Proof. repeat split; vm_compute; reflexivity. Qed.

(** [round_half_up] is rounding to the nearest integer, ties going up:
    for [x = ± m * 2 ^ e] below the integers' exponent, the result [k]
    has [k - 1/2 <= x < k + 1/2]. *)
Lemma round_half_up_nearest (s : bool) (m : positive) (e : Z) :
  e < 0 ->
  let k := round_half_up (S754_finite s m e) in
  let x2 := 2 * cond_Zopp s (Zpos m) in
  (2 * k - 1) * 2 ^ (- e) <= x2 < (2 * k + 1) * 2 ^ (- e).
Proof.
  intros He k x2. unfold k, round_half_up. fold x2.
  destruct (Z.leb_spec 0 e) as [|_]; [lia|].
  assert (Hp : 0 < 2 ^ (- e)) by (apply pow2_pos; lia).
  assert (Hq : 2 ^ (1 - e) = 2 * 2 ^ (- e)).
  { replace (1 - e) with (1 + - e) by lia. now rewrite pow2_add by lia. }
  rewrite Hq.
  pose proof (Z.div_mod (x2 + 2 ^ (- e)) (2 * 2 ^ (- e)) ltac:(lia)) as Hdm.
  pose proof (Z.mod_pos_bound (x2 + 2 ^ (- e)) (2 * 2 ^ (- e)) ltac:(lia)) as Hmod.
  nia.
Qed.



(** C5. For every starting playback rate in [0.25, 2], one call of
    [increaseSpeed] sets the rate to [min(rate + 0.25, 2)], one call of
    [decreaseSpeed] to [max(0.25, rate - 0.25)], and the rate stays
    within [0.25, 2]; from the rate 2, [increaseSpeed] leaves it at 2. *)
Theorem speed_step_stays_in_range (v : Video) :
  within lit_0_25 lit_2 (playbackRate v) = true ->
  playbackRate (increaseSpeed v) = Math_min (add (playbackRate v) lit_0_25) lit_2 /\
  playbackRate (decreaseSpeed v) = Math_max lit_0_25 (sub (playbackRate v) lit_0_25) /\
  within lit_0_25 lit_2 (playbackRate (increaseSpeed v)) = true /\
  within lit_0_25 lit_2 (playbackRate (decreaseSpeed v)) = true /\
  (playbackRate v = lit_2 -> playbackRate (increaseSpeed v) = lit_2).
Proof.
  intros Hv. unfold increaseSpeed, decreaseSpeed. cbn [playbackRate set_playbackRate].
  repeat split.
  - now apply increaseSpeed_in_range.
  - now apply decreaseSpeed_in_range.
  - intros ->. vm_compute. reflexivity.
Qed.

Lemma speed_step_at_rate_2 :
  within lit_0_25 lit_2 (playbackRate Examples.video_at_rate_2) = true /\
  playbackRate (increaseSpeed Examples.video_at_rate_2) = lit_2.
Proof.
  split; [vm_compute; reflexivity|].
  apply (speed_step_stays_in_range Examples.video_at_rate_2); vm_compute; reflexivity.
Defined.

(** The two ranges are kept by every sequence of steps. *)
Lemma steps_stay_in_range (steps : list Step) (v : Video) :
  within lit_0 lit_1 (volume v) = true ->
  within lit_0_25 lit_2 (playbackRate v) = true ->
  within lit_0 lit_1 (volume (fold_left (fun v' s => step s v') steps v)) = true /\
  within lit_0_25 lit_2 (playbackRate (fold_left (fun v' s => step s v') steps v)) = true.
Proof.
  revert v. induction steps as [| s steps IH]; intros v Hvol Hrate; [now split|].
  cbn [fold_left]. apply IH.
  - destruct s; cbn [step]; try assumption.
    + now apply increaseVolume_rounding.
    + now apply decreaseVolume_rounding.
  - destruct s; cbn [step]; try assumption.
    + now apply increaseSpeed_in_range.
    + now apply decreaseSpeed_in_range.
Qed.

End MediaFacts.

(** ** Fullscreen *)

Module FullscreenFacts.
Import Js Dom Player Notions.

Lemma get_absent (o : gmap string value) (name : string) :
  absent o name -> get o name = VUndefined.
Proof. unfold absent, get. now intros ->. Qed.

(** C2, as stated, fails: on a document that has the Mozilla properties
    only and is not in fullscreen, the query reports fullscreen; and on
    an element that has [webkitRequestFullscreen] only, entering invokes
    nothing where the first present function should be invoked. *)
Lemma query_reads_webkit_only :
  reported_by_first_present (documentApi Examples.moz_world) = false /\
  isFullScreenModeEnabled Examples.moz_world = true /\
  invoke_first_present (videoApi Examples.lowercase_only_world) request_functions
    Examples.lowercase_only_world =
    Normal (emit (Invoke "webkitRequestFullscreen") Examples.lowercase_only_world) /\
  enterFullScreenMode Examples.lowercase_only_world =
    Thrown TypeError Examples.lowercase_only_world.
Proof. repeat split; vm_compute; reflexivity. Qed.

(** C2, amended. The query reports whether [webkitFullscreenElement] of
    the owner document is other than [null], whatever other
    vendor-prefixed property is present, so it reports fullscreen where
    that property is absent. [exitFullScreenMode] invokes the first
    present of the exit functions, in the order webkit, moz, ms.
    [enterFullScreenMode] probes the request functions in the same
    order and, [webkitRequestFullscreen] being absent, invokes the first
    present of the other two. [toggleFullScreenMode] exits when the
    query reports fullscreen and enters otherwise. *)
Theorem fullscreen_probing (w : World) :
  (isFullScreenModeEnabled w = true <->
     get (documentApi w) "webkitFullscreenElement" <> VNull) /\
  (absent (documentApi w) "webkitFullscreenElement" ->
     isFullScreenModeEnabled w = true) /\
  exitFullScreenMode w = invoke_first_present (documentApi w) exit_functions w /\
  (truthy (get (videoApi w) "webkitRequestFullscreen") = false ->
     enterFullScreenMode w = invoke_first_present (videoApi w) request_functions w) /\
  toggleFullScreenMode w =
    (if isFullScreenModeEnabled w then exitFullScreenMode w else enterFullScreenMode w).
Proof.
  repeat split.
  - unfold isFullScreenModeEnabled. now destruct (get _ _).
  - unfold isFullScreenModeEnabled. now destruct (get _ _).
  - intros H. unfold isFullScreenModeEnabled. now rewrite (get_absent _ _ H).
  - intros H. unfold enterFullScreenMode. cbn [invoke_first_present request_functions].
    now rewrite H.
Qed.

Lemma fullscreen_probing_on_moz :
  isFullScreenModeEnabled Examples.moz_world = true /\
  enterFullScreenMode Examples.moz_world =
    Normal (emit (Invoke "mozRequestFullScreen") Examples.moz_world) /\
  toggleFullScreenMode Examples.moz_world =
    Normal (emit (Invoke "mozCancelFullScreen") Examples.moz_world).
Proof.
  pose proof (fullscreen_probing Examples.moz_world) as (_ & Hq & Hexit & Henter & Htoggle).
  split; [apply Hq; reflexivity|]. split.
  - rewrite Henter by reflexivity. reflexivity.
  - rewrite Htoggle, Hexit. reflexivity.
Defined.

(** C8. Where none of the vendor-prefixed request functions that
    [enterFullScreenMode] probes is present on the element, it does
    nothing and throws nothing: it returns normally, and the world,
    with its log of invocations, is as it was. The same holds of
    [exitFullScreenMode] and the exit functions of the owner document. *)
Theorem no_fullscreen_api_is_silent (w : World) :
  (Forall (absent (videoApi w)) request_functions ->
     enterFullScreenMode w = Normal w) /\
  (Forall (absent (documentApi w)) exit_functions ->
     exitFullScreenMode w = Normal w).
Proof.
  split; intros H.
  - inversion_clear H as [| ? ? Ha H2].
    inversion_clear H2 as [| ? ? Hb H3]. inversion_clear H3 as [| ? ? Hc _].
    unfold enterFullScreenMode.
    now rewrite (get_absent _ _ Ha), (get_absent _ _ Hb), (get_absent _ _ Hc).
  - inversion_clear H as [| ? ? Ha H1]. inversion_clear H1 as [| ? ? Hb H2].
    inversion_clear H2 as [| ? ? Hc _].
    unfold exitFullScreenMode.
    now rewrite (get_absent _ _ Ha), (get_absent _ _ Hb), (get_absent _ _ Hc).
Qed.

Lemma no_fullscreen_api_on_bare_world :
  enterFullScreenMode Examples.bare_world = Normal Examples.bare_world /\
  exitFullScreenMode Examples.bare_world = Normal Examples.bare_world.
Proof.
  split.
  - apply (no_fullscreen_api_is_silent Examples.bare_world).
    repeat constructor.
  - apply (no_fullscreen_api_is_silent Examples.bare_world).
    repeat constructor.
Defined.

(** C9. The first branch of [enterFullScreenMode] tests
    [webkitRequestFullscreen] and calls [webkitRequestFullScreen]: on
    every element where the former is present and the latter absent,
    that branch is taken, the call is a call of [undefined], and
    [enterFullScreenMode] throws a [TypeError] having invoked nothing. *)
Theorem enter_calls_the_other_spelling (w : World) :
  truthy (get (videoApi w) "webkitRequestFullscreen") = true ->
  absent (videoApi w) "webkitRequestFullScreen" ->
  enterFullScreenMode w = invoke (videoApi w) "webkitRequestFullScreen" w /\
  get (videoApi w) "webkitRequestFullScreen" = VUndefined /\
  enterFullScreenMode w = Thrown TypeError w.
Proof.
  intros Hguard Habsent. unfold enterFullScreenMode. rewrite Hguard.
  split; [reflexivity|]. split; [now apply get_absent|].
  unfold invoke. now rewrite (get_absent _ _ Habsent).
Qed.

Lemma enter_throws_on_lowercase_only :
  enterFullScreenMode Examples.lowercase_only_world =
    Thrown TypeError Examples.lowercase_only_world.
Proof.
  apply (enter_calls_the_other_spelling Examples.lowercase_only_world); reflexivity.
Defined.

End FullscreenFacts.

(** ** Construction *)

Module ConstructionFacts.
Import Number Media Js Dom Html Player Notions.

(** The constructor runs on a store [b ++ L]: [b] is the page as it
    was, of length [n], and [L] the elements created so far. Lookups
    and updates at [n + k] go to [L], those below [n] to [b]. *)
Lemma lookup_new (b L : Store) (n k : nat) :
  length b = n -> (b ++ L) !! (n + k)%nat = L !! k.
Proof. intros <-. rewrite lookup_app_r by lia. f_equal. lia. Qed.

Lemma lookup_new0 (b L : Store) (n : nat) :
  length b = n -> (b ++ L) !! n = L !! 0%nat.
Proof. intros <-. rewrite lookup_app_r by lia. f_equal. lia. Qed.

Lemma lookup_old (b L : Store) (n i : nat) :
  length b = n -> (i < n)%nat -> (b ++ L) !! i = b !! i.
Proof. intros <- Hi. now apply lookup_app_l. Qed.

Lemma alter_new (f : Element -> Element) (b L : Store) (n k : nat) :
  length b = n -> alter f (n + k)%nat (b ++ L) = b ++ alter f k L.
Proof. intros <-. apply alter_app_r. Qed.

Lemma alter_new0 (f : Element -> Element) (b L : Store) (n : nat) :
  length b = n -> alter f n (b ++ L) = b ++ alter f 0%nat L.
Proof. intros <-. rewrite <- (alter_app_r f b L 0). f_equal. lia. Qed.

Lemma alter_old (f : Element -> Element) (b L : Store) (n i : nat) :
  length b = n -> (i < n)%nat -> alter f i (b ++ L) = alter f i b ++ L.
Proof. intros <- Hi. now apply alter_app_l. Qed.

Lemma length_new (b L : Store) (n : nat) :
  length b = n -> length (b ++ L) = (n + length L)%nat.
Proof. intros <-. apply length_app. Qed.

Lemma snoc_new (b L : Store) (e : Element) : (b ++ L) ++ [e] = b ++ (L ++ [e]).
Proof. now rewrite <- app_assoc. Qed.

Lemma snoc_fresh (b : Store) (e : Element) : b ++ [e] = b ++ ([] ++ [e]).
Proof. reflexivity. Qed.

(** [insert_tree] appends the element of the node, makes it a child of
    its parent and goes on with the children of the node. *)
Lemma insert_tree_new (b L : Store) (n j : nat) (tag : string)
  (attrs : list (string * string)) (kids : list Tree) :
  length b = n ->
  insert_tree (n + j)%nat (Node tag attrs kids) (b ++ L) =
    fold_left (fun st' kid => insert_tree (n + length L)%nat kid st') kids
      (b ++ alter (with_childNodes (fun ks => ks ++ [(n + length L)%nat])) j
              (L ++ [mkElement tag attrs [] None [] [] (Some (n + j)%nat)])).
Proof.
  intros Hn. cbn [insert_tree]. rewrite (length_new b L n Hn).
  now rewrite snoc_new, (alter_new _ _ _ n) by assumption.
Qed.

Lemma insert_tree_new0 (b L : Store) (n : nat) (tag : string)
  (attrs : list (string * string)) (kids : list Tree) :
  length b = n ->
  insert_tree n (Node tag attrs kids) (b ++ L) =
    fold_left (fun st' kid => insert_tree (n + length L)%nat kid st') kids
      (b ++ alter (with_childNodes (fun ks => ks ++ [(n + length L)%nat])) 0%nat
              (L ++ [mkElement tag attrs [] None [] [] (Some n)])).
Proof.
  intros Hn. cbn [insert_tree]. rewrite (length_new b L n Hn).
  now rewrite snoc_new, (alter_new0 _ _ _ n) by assumption.
Qed.

Lemma appendChild_unfold (parent child : loc) (b L : Store) :
  appendChild parent child (b ++ L) =
    alter (with_parentNode (Some parent)) child
      (alter (with_childNodes (fun kids => kids ++ [child])) parent
         match (b ++ L) !! child with
         | Some el =>
             match parentNode el with
             | Some old => alter (with_childNodes (remove_child child)) old (b ++ L)
             | None => b ++ L
             end
         | None => b ++ L
         end).
Proof. reflexivity. Qed.

Lemma remove_child_only (child : loc) : remove_child child [child] = [].
Proof. unfold remove_child. now rewrite filter_cons, decide_False by (intros H; now apply H). Qed.

(** Pushing the operations of the constructor through a store of the
    form [b ++ L], where [L] lists the elements created so far. *)
Ltac side_condition := first [rewrite ?length_alter; reflexivity | assumption | lia].
Ltac store_step n :=
  first
    [ rewrite <- app_assoc
    | rewrite <- Nat.add_assoc
    | rewrite (length_new _ _ n) by side_condition
    | rewrite (alter_new _ _ _ n) by side_condition
    | rewrite (alter_new0 _ _ _ n) by side_condition
    | rewrite (lookup_new _ _ n) by side_condition
    | rewrite (lookup_new0 _ _ n) by side_condition
    | rewrite (insert_tree_new _ _ n) by side_condition
    | rewrite (insert_tree_new0 _ _ n) by side_condition
    | rewrite remove_child_only
    | rewrite (alter_old _ _ _ n) by side_condition
    | rewrite (lookup_old _ _ n) by side_condition
    | rewrite appendChild_unfold ];
  cbn -[insert_tree appendChild].
Ltac store_steps n := repeat store_step n.
Ltac same_elements :=
  unfold with_childNodes, with_listeners, with_attributes, with_properties,
    with_onerror, with_parentNode;
  cbn; repeat (f_equal; try lia).

(** Updates of the store compose, and are compared on the store. *)
Lemma with_store_with_store (f g : Store -> Store) (w : World) :
  with_store f (with_store g w) = with_store (fun st => f (g st)) w.
Proof. reflexivity. Qed.

Lemma with_store_ext (f g : Store -> Store) (w : World) :
  f (store w) = g (store w) -> with_store f w = with_store g w.
Proof. unfold with_store. now intros ->. Qed.

(** [createVideoElement] appends the video element and its source. *)
Lemma createVideoElement_store (videoLink : string) (w : World) :
  createVideoElement videoLink w =
    (length (store w),
     with_store (fun st => st ++ [videoElement (length st); sourceElement (length st) videoLink]) w).
Proof.
  unfold createVideoElement, createElement, set_flag, set_property, set_onerror,
    createVideoFunctions, enableFullScreenModeOnDoubleClick,
    enablePlayPauseVideoControlOnClick, addEventListener.
  rewrite !with_store_with_store. f_equal. apply with_store_ext.
  set (st := store w). unfold setAttribute, appendChild.
  store_steps (length st). reflexivity.
Qed.

(** The markup of the two icons parses to the tree of an icon. *)
Lemma parse_pauseFeedback :
  parse (feedbackMarkup "pauseFeedback" pausePath) = [iconTree "pauseFeedback" pausePath].
Proof. vm_compute. reflexivity. Qed.

Lemma parse_playFeedback :
  parse (feedbackMarkup "playFeedback" playPath) = [iconTree "playFeedback" playPath].
Proof. vm_compute. reflexivity. Qed.

(** [createFeedbackIcon] appends a [div] and, below it, the icon; it
    returns the icon. *)
Lemma createFeedbackIcon_store (id svgPath : string) (w : World) :
  parse (feedbackMarkup id svgPath) = [iconTree id svgPath] ->
  createFeedbackIcon id svgPath w =
    (Some (length (store w) + 1)%nat,
     with_store
       (fun st => st ++ scratchDiv [(length st + 1)%nat] ::
                        feedbackIcon id svgPath (length st + 1) (length st)) w).
Proof.
  intros Hparse. unfold createFeedbackIcon, createElement, set_innerHTML.
  rewrite Hparse.
  set (st := store w). unfold iconTree.
  rewrite snoc_fresh. cbn [fold_left].
  store_steps (length st).
  f_equal. apply with_store_ext. fold st. cbv beta. f_equal.
  unfold scratchDiv, feedbackIcon. same_elements.
Qed.

Lemma alter_children_thrice (a b c : loc) (container : loc) (st : Store) :
  alter (with_childNodes (fun kids => kids ++ [c])) container
    (alter (with_childNodes (fun kids => kids ++ [b])) container
       (alter (with_childNodes (fun kids => kids ++ [a])) container st)) =
  alter (with_childNodes (fun kids => kids ++ [a; b; c])) container st.
Proof.
  rewrite !list_alter_alter_eq. apply list_alter_ext; [| reflexivity].
  intros el _. unfold with_childNodes. cbn. f_equal. now rewrite <- !app_assoc.
Qed.

(** The constructor returns normally on a container of the page: it
    appends the elements [builtElements] to the store and three children
    to the container. *)
Lemma VideoPlayerManager_store (videoLink : string) (container : loc) (w : World) :
  (container < length (store w))%nat ->
  VideoPlayerManager videoLink container w =
    (mkManager container (length (store w)),
     Normal
       (with_store
          (fun st =>
             alter
               (with_childNodes
                  (fun kids => kids ++ [(length st + 3)%nat; (length st + 9)%nat; length st]))
               container st ++
             builtElements videoLink container (length st)) w)).
Proof.
  intros Hod. unfold VideoPlayerManager.
  rewrite createVideoElement_store.
  unfold VideoShortcutManager, enableVisualFeedbacks, createAllFeedbackIcons,
    enablePlayPauseFeedback, addEventListener.
  cbn [Player.outerDiv Player.video].
  rewrite with_store_with_store.
  rewrite (createFeedbackIcon_store _ _ _ parse_pauseFeedback).
  rewrite (createFeedbackIcon_store _ _ _ parse_playFeedback).
  unfold appendChild_value.
  rewrite !with_store_with_store.
  f_equal. f_equal. apply with_store_ext.
  set (st := store w) in *.
  cbn [store with_store]. fold st.
  unfold videoElement, sourceElement, feedbackIcon, scratchDiv.
  store_steps (length st).
  f_equal; [apply alter_children_thrice |].
  unfold builtElements, feedbackIcon, scratchDiv, sourceElement,
    with_childNodes, with_listeners, with_parentNode.
  cbn -[remove_child]. rewrite !remove_child_only.
  repeat (f_equal; try lia).
Qed.

(** C10. Construction on a container of the document returns normally
    and appends three children to the container, after the children it
    had: the pause feedback icon, the play feedback icon, then the video
    element. Both icons carry [display: none;] and are hidden; the video
    element has [controls] and [autoplay] and the id [videoTag]. No
    other element created by the constructor is a child of the
    container, and the other elements of the page are left as they
    were. *)
Theorem construction_appends_icons_then_video
  (videoLink : string) (container : loc) (w : World) (el : Element) :
  store w !! container = Some el ->
  let n := length (store w) in
  exists (w' : World) (pauseFeedback playFeedback videoTag : Element),
    VideoPlayerManager videoLink container w = (mkManager container n, Normal w') /\
    childNodes <$> store w' !! container
      = Some (childNodes el ++ [(n + 3)%nat; (n + 9)%nat; n]) /\
    (store w' !! (n + 3)%nat = Some pauseFeedback /\
     id pauseFeedback = "pauseFeedback" /\
     cssText pauseFeedback = "display: none;" /\
     hidden pauseFeedback = true /\
     parentNode pauseFeedback = Some container) /\
    (store w' !! (n + 9)%nat = Some playFeedback /\
     id playFeedback = "playFeedback" /\
     cssText playFeedback = "display: none;" /\
     hidden playFeedback = true /\
     parentNode playFeedback = Some container) /\
    (store w' !! n = Some videoTag /\
     tagName videoTag = "video" /\
     has_attribute "controls" videoTag = true /\
     has_attribute "autoplay" videoTag = true /\
     id videoTag = "videoTag" /\
     parentNode videoTag = Some container) /\
    (forall (l : loc) (e : Element),
       (n <= l)%nat -> store w' !! l = Some e -> parentNode e = Some container ->
       l = (n + 3)%nat \/ l = (n + 9)%nat \/ l = n) /\
    (forall l : loc, (l < n)%nat -> l <> container -> store w' !! l = store w !! l).
Proof.
  intros Hel n.
  assert (Hlt : (container < n)%nat) by (now apply lookup_lt_Some in Hel).
  rewrite (VideoPlayerManager_store videoLink container w Hlt). fold n.
  set (children := [(n + 3)%nat; (n + 9)%nat; n]).
  set (st' := alter (with_childNodes (fun kids => kids ++ children)) container (store w)).
  assert (Hlen : length st' = n) by apply length_alter.
  eexists _, _, _, _. split; [reflexivity |].
  cbn [store with_store]. fold n. fold children. fold st'.
  split; [| split; [| split; [| split; [| split]]]].
  - rewrite (lookup_old _ _ n) by assumption.
    unfold st'. rewrite list_lookup_alter_eq, Hel. reflexivity.
  - rewrite (lookup_new _ _ n 3 Hlen). cbn. repeat split; reflexivity.
  - rewrite (lookup_new _ _ n 9 Hlen). cbn. repeat split; reflexivity.
  - rewrite (lookup_new0 _ _ n Hlen). cbn. repeat split; reflexivity.
  - intros l e Hl Hlook Hparent.
    replace l with (n + (l - n))%nat in Hlook by lia.
    rewrite (lookup_new _ _ n _ Hlen) in Hlook.
    remember (l - n)%nat as k eqn:Hk.
    do 14 (destruct k as [| k];
           [cbn in Hlook; injection Hlook as <-; cbn in Hparent;
            first [discriminate | lia
                  | injection Hparent as Hparent; lia ] |]).
    cbn in Hlook. discriminate.
  - intros l Hl Hne.
    rewrite (lookup_old _ _ n) by assumption.
    unfold st'. now rewrite list_lookup_alter_ne by congruence.
Qed.

Lemma construction_on_example_page :
  exists (w' : World) (pauseFeedback playFeedback videoTag : Element),
    VideoPlayerManager "https://example.org/video.mp4" Examples.container
      Examples.webkit_world = (mkManager 2%nat 3%nat, Normal w') /\
    childNodes <$> store w' !! 2%nat = Some [6%nat; 12%nat; 3%nat] /\
    (store w' !! 6%nat = Some pauseFeedback /\ hidden pauseFeedback = true) /\
    (store w' !! 12%nat = Some playFeedback /\ hidden playFeedback = true) /\
    (store w' !! 3%nat = Some videoTag /\ id videoTag = "videoTag").
Proof.
  destruct (construction_appends_icons_then_video "https://example.org/video.mp4"
              Examples.container Examples.webkit_world
              (mkElement "div" [("id", "player")] [] None [] [] (Some 1%nat)) eq_refl)
    as (w' & p & q & v & Hbuilt & Hkids & (Hp & _ & _ & Hhp & _) &
        (Hq & _ & _ & Hhq & _) & (Hv & _ & _ & _ & Hid & _) & _).
  exists w', p, q, v. repeat split; assumption.
Defined.

(** The constructor calls [showFailureMessage] itself never, and gives
    the [onerror] handler to the source element only. *)
Lemma built_error_handlers (videoLink : string) (container : loc) (w : World) :
  (container < length (store w))%nat ->
  let built := VideoPlayerManager videoLink container w in
  error_handlers (report (snd built)) =
    error_handlers w ++ [None; Some OnErrorShowFailure] ++ replicate 12 None /\
  failure_calls (report (snd built)) = failure_calls w.
Proof.
  intros Hlt. cbv zeta. rewrite (VideoPlayerManager_store videoLink container w Hlt).
  cbn [snd report]. split; [| reflexivity].
  unfold error_handlers. cbn [store with_store].
  rewrite fmap_app. f_equal.
  apply list_eq. intros i. rewrite !list_lookup_fmap, list_lookup_alter.
  case_decide; [subst i | reflexivity].
  now destruct (store w !! container).
Qed.

End ConstructionFacts.

(** ** Toggles, feedback icons and the failure message *)

Module PlayerFacts.
Import Number Media Js Dom Html Player Notions.

Lemma get_set_attr (name v : string) (attrs : list (string * string)) :
  get_attr name (set_attr name v attrs) = Some v.
Proof.
  induction attrs as [| [n v'] attrs IH]; cbn.
  - now rewrite String.eqb_refl.
  - destruct (String.eqb n name) eqn:E; cbn; rewrite E; [reflexivity | exact IH].
Qed.

Lemma cssText_set_style (v : string) (el : Element) :
  cssText (with_attributes (set_attr "style" v) el) = v.
Proof. unfold cssText. cbn. now rewrite get_set_attr. Qed.

Lemma lookup_setAttribute (l l' : loc) (name v : string) (st : Store) :
  setAttribute l name v st !! l' =
    if decide (l = l') then with_attributes (set_attr name v) <$> st !! l
    else st !! l'.
Proof. apply list_lookup_alter. Qed.

(** What [querySelector] finds is an element of the store, and its id is
    the one asked for. *)
Lemma querySelector_valid (root : loc) (selector : string) (st : Store) (l : loc) :
  querySelector root selector st = Some l -> is_Some (st !! l).
Proof.
  unfold querySelector. destruct selector as [| c name]; [discriminate|].
  repeat (destruct c as [[] [] [] [] [] [] [] []]; try discriminate).
  intros [_ H]%find_some. unfold has_id in H. destruct (st !! l); [eauto | discriminate].
Qed.

(** The report of an exception is not a dispatched event. *)
Lemma no_toggle_event_in_reports (tail : list Effect) :
  Forall (fun e => e = Uncaught TypeError) tail ->
  filter (fun e => e = DispatchEvent "togglePlayPause") tail = [].
Proof.
  induction 1 as [| e tail -> _ IH]; [reflexivity|].
  now rewrite filter_cons, decide_False by discriminate.
Qed.


(** The effects of a toggle event on the log: nothing, or the report of
    the exception of the listener. *)
Lemma feedback_listener_log (w : World) :
  log (report (feedback_listener w)) = log w \/
  log (report (feedback_listener w)) = log w ++ [Uncaught TypeError].
Proof.
  unfold feedback_listener, updateVisualFeedback.
  destruct (querySelector _ _ _); [now left | now right].
Qed.

Lemma feedback_listener_media (w : World) :
  media (report (feedback_listener w)) = media w.
Proof.
  unfold feedback_listener, updateVisualFeedback.
  now destruct (querySelector _ _ _).
Qed.

(** The listeners of a toggle event leave the playback state alone and
    add nothing to the log but such reports. *)
Lemma toggle_listeners_log (rs : list Registration) (w : World) :
  exists tail,
    log (fold_left toggle_listeners rs w) = log w ++ tail /\
    Forall (fun e => e = Uncaught TypeError) tail /\
    media (fold_left toggle_listeners rs w) = media w.
Proof.
  revert w. induction rs as [| r rs IH]; intros w; cbn [fold_left].
  - exists []. now rewrite app_nil_r.
  - destruct (IH (toggle_listeners w r)) as (tail & Hlog & Htail & Hmedia).
    destruct r; cbn [toggle_listeners] in *; try (exists tail; now repeat split).
    rewrite Hlog, Hmedia, feedback_listener_media.
    destruct (feedback_listener_log w) as [-> | ->].
    + exists tail. now repeat split.
    + exists (Uncaught TypeError :: tail). rewrite <- app_assoc.
      split; [reflexivity | split; [now constructor | reflexivity]].
Qed.

(** C3. [togglePlayPause] on a video whose [paused] flag is set calls
    [play], and on one whose flag is clear calls [pause]; then it
    dispatches one [togglePlayPause] event on the video. Nothing else
    happens but the reports of exceptions of the listeners of that
    event, so exactly one more event has been dispatched, and the flag
    is flipped. *)
Theorem togglePlayPause_plays_or_pauses (m : Manager) (w : World) :
  exists tail,
    log (togglePlayPause m w) =
      log w ++ [if paused (media w) then Play else Pause;
                DispatchEvent "togglePlayPause"] ++ tail /\
    Forall (fun e => e = Uncaught TypeError) tail /\
    toggle_events (togglePlayPause m w) = S (toggle_events w) /\
    paused (media (togglePlayPause m w)) = negb (paused (media w)).
Proof.
  unfold togglePlayPause, dispatch_togglePlayPause.
  set (w1 := if paused (media w) then play w else pause w).
  destruct (toggle_listeners_log (listeners_of (video m) w1)
              (emit (DispatchEvent "togglePlayPause") w1)) as (tail & Hlog & Htail & Hmedia).
  exists tail. change (fun (w' : World) (r : Registration) => _) with toggle_listeners.
  assert (Hlog' : log (fold_left toggle_listeners (listeners_of (video m) w1)
                         (emit (DispatchEvent "togglePlayPause") w1)) =
                  log w ++ [if paused (media w) then Play else Pause;
                            DispatchEvent "togglePlayPause"] ++ tail).
  { rewrite Hlog. unfold w1. destruct (paused (media w)); cbn; now rewrite <- !app_assoc. }
  split; [exact Hlog' | split; [exact Htail | split]].
  - unfold toggle_events. rewrite Hlog', !filter_app, !length_app.
    rewrite (no_toggle_event_in_reports tail Htail).
    destruct (paused (media w));
      rewrite filter_cons, decide_False, filter_cons, decide_True, filter_nil
        by (reflexivity || discriminate); cbn [length]; lia.
  - rewrite Hmedia. unfold w1. now destruct (paused (media w)).
Qed.

(** *** Feedback icons *)

Lemma get_set_attr_ne (name name' v : string) (attrs : list (string * string)) :
  name <> name' -> get_attr name (set_attr name' v attrs) = get_attr name attrs.
Proof.
  intros Hne. induction attrs as [| [n v'] attrs IH]; cbn.
  - destruct (String.eqb_spec name' name); [congruence | reflexivity].
  - destruct (String.eqb_spec n name') as [-> |]; cbn.
    + destruct (String.eqb_spec name' name); [congruence | reflexivity].
    + now rewrite IH.
Qed.

Lemma find_ext {A : Type} (f g : A -> bool) (l : list A) :
  (forall x, f x = g x) -> find f l = find g l.
Proof. intros H. induction l as [| x l IH]; cbn; [reflexivity|]. now rewrite H, IH. Qed.

(** Writing the style of an element changes neither the tree, nor an
    id, nor a listener: [querySelector] finds what it found before. *)
Lemma subtree_set_style (fuel : nat) (l : loc) (v : string) (st : Store) (root : loc) :
  subtree fuel (setAttribute l "style" v st) root = subtree fuel st root.
Proof.
  revert root. induction fuel as [| fuel IH]; intros root; cbn [subtree]; [reflexivity|].
  rewrite lookup_setAttribute. destruct (decide (l = root)) as [-> |].
  - destruct (st !! root) as [el |]; cbn; [| reflexivity].
    f_equal. now apply flat_map_ext.
  - destruct (st !! root) as [el |]; [| reflexivity].
    f_equal. now apply flat_map_ext.
Qed.

Lemma has_id_set_style (l : loc) (v name : string) (st : Store) (l' : loc) :
  has_id (setAttribute l "style" v st) name l' = has_id st name l'.
Proof.
  unfold has_id. rewrite lookup_setAttribute. destruct (decide (l = l')) as [-> |].
  - destruct (st !! l') as [el |]; cbn; [| reflexivity].
    unfold id. cbn. now rewrite get_set_attr_ne.
  - reflexivity.
Qed.

Lemma querySelector_set_style (l : loc) (v : string) (st : Store) (root : loc)
  (selector : string) :
  querySelector root selector (setAttribute l "style" v st) =
  querySelector root selector st.
Proof.
  unfold querySelector. destruct selector as [| c name]; [reflexivity|].
  unfold setAttribute at 2. rewrite length_alter. fold (setAttribute l "style" v st).
  rewrite subtree_set_style.
  destruct c as [[] [] [] [] [] [] [] []]; try reflexivity.
  apply find_ext. intros x. apply has_id_set_style.
Qed.

Lemma listeners_set_style (l : loc) (v : string) (w : World) (l' : loc) :
  listeners_of l' (with_store (setAttribute l "style" v) w) = listeners_of l' w.
Proof.
  unfold listeners_of. cbn. rewrite lookup_setAttribute.
  destruct (decide (l = l')) as [-> |]; [| reflexivity].
  now destruct (store w !! l').
Qed.

(** Which elements are shown after a style is written, after the due
    timers have run, and after the clock has moved. *)
Lemma shown_set_style (l : loc) (v : string) (w : World) (l' : loc) :
  shown (with_store (setAttribute l "style" v) w) l' =
    if decide (l = l')
    then bool_decide (is_Some (store w !! l')) && negb (String.eqb v "display: none;")
    else shown w l'.
Proof.
  unfold shown. cbn. rewrite lookup_setAttribute.
  destruct (decide (l = l')) as [-> |]; [| reflexivity].
  destruct (store w !! l') as [el |]; [| reflexivity].
  cbn [fmap option_fmap option_map]. unfold hidden. rewrite cssText_set_style.
  now rewrite bool_decide_eq_true_2 by eauto.
Qed.

Lemma shown_run_tasks (due : list (Z * TimerTask)) (w : World) (l : loc) :
  shown (fold_left (fun w' timer => run_task (snd timer) w') due w) l =
    shown w l && negb (existsb (fun timer => bool_decide (target timer = l)) due).
Proof.
  revert w. induction due as [| [d [l']] due IH]; intros w; cbn [fold_left existsb].
  - now rewrite andb_true_r.
  - rewrite IH. cbn [snd run_task target]. rewrite shown_set_style.
    destruct (decide (l' = l)) as [-> |].
    + rewrite (bool_decide_eq_true_2 (target (d, HideFeedback l) = l)) by reflexivity.
      change (String.eqb "display: none;" "display: none;") with true.
      cbn [negb orb]. now rewrite !andb_false_r.
    + now rewrite (bool_decide_eq_false_2 (target (d, HideFeedback l') = l)) by assumption.
Qed.

Lemma shown_advance (t : Z) (w : World) (l : loc) :
  shown (advance t w) l =
    shown w l &&
    negb (existsb (fun timer => bool_decide (target timer = l))
            (filter (fun timer => is_due t timer = true) (timers w))).
Proof. unfold advance. now rewrite shown_run_tasks. Qed.

(** The callbacks of the timers write styles and nothing else. *)
Lemma run_tasks_frame (due : list (Z * TimerTask)) (w : World) :
  let w' := fold_left (fun w' timer => run_task (snd timer) w') due w in
  timers w' = timers w /\ now w' = now w /\ media w' = media w /\ log w' = log w /\
  documentElement w' = documentElement w /\
  (forall l, listeners_of l w' = listeners_of l w) /\
  (forall selector,
      querySelector (documentElement w') selector (store w') =
      querySelector (documentElement w) selector (store w)).
Proof.
  revert w. induction due as [| [d [l']] due IH]; intros w; cbn [fold_left].
  - now repeat split.
  - destruct (IH (run_task (snd (d, HideFeedback l')) w)) as (H1 & H2 & H3 & H4 & H5 & H6 & H7).
    cbv zeta. split; [now rewrite H1|]. split; [now rewrite H2|].
    split; [now rewrite H3|]. split; [now rewrite H4|]. split; [now rewrite H5|]. split.
    + intros l. rewrite H6. apply listeners_set_style.
    + intros selector. rewrite H7. apply querySelector_set_style.
Qed.

Lemma timers_advance (t : Z) (w : World) :
  timers (advance t w) = filter (fun timer => is_due t timer = false) (timers w) /\
  now (advance t w) = Z.max (now w) t.
Proof.
  unfold advance.
  destruct (run_tasks_frame (filter (fun timer => is_due t timer = true) (timers w))
              (with_now (Z.max (now w) t)
                 (with_timers
                    (fun _ => filter (fun timer => is_due t timer = false) (timers w)) w)))
    as (H1 & H2 & _).
  cbv zeta in *. now rewrite H1, H2.
Qed.



(** *** Sequences of toggles *)

Lemma wired_distinct (m : Manager) (p q : loc) (w : World) :
  wired m p q w -> p <> q /\ is_Some (store w !! p) /\ is_Some (store w !! q).
Proof.
  intros (_ & Hp & Hq).
  pose proof (querySelector_valid _ _ _ _ Hp) as Hvp.
  pose proof (querySelector_valid _ _ _ _ Hq) as Hvq.
  split; [| now split]. intros ->.
  unfold querySelector in Hp, Hq.
  apply find_some in Hp as [_ Hp]. apply find_some in Hq as [_ Hq].
  unfold has_id in Hp, Hq. destruct (store w !! q) as [el |]; [| discriminate].
  apply String.eqb_eq in Hp, Hq. congruence.
Qed.

(** On a wired player a toggle, by a click or by a call, is [toggled]. *)
Lemma togglePlayPause_wired (m : Manager) (p q : loc) (w : World) :
  wired m p q w -> togglePlayPause m w = toggled p q w.
Proof.
  intros (Hl & Hp & Hq). unfold togglePlayPause, dispatch_togglePlayPause, toggled.
  destruct (paused (media w)) eqn:Epaused.
  - change (listeners_of (video m) (play w)) with (listeners_of (video m) w).
    rewrite Hl. cbn [fold_left]. unfold feedback_listener, updateVisualFeedback.
    cbn [emit play with_media media documentElement store set_paused paused].
    rewrite Hq. cbn [report]. unfold setTimeout, with_timers, with_store, emit, play, with_media.
    cbn. f_equal. now rewrite <- app_assoc.
  - change (listeners_of (video m) (pause w)) with (listeners_of (video m) w).
    rewrite Hl. cbn [fold_left]. unfold feedback_listener, updateVisualFeedback.
    cbn [emit pause with_media media documentElement store set_paused paused].
    rewrite Hp. cbn [report]. unfold setTimeout, with_timers, with_store, emit, pause, with_media.
    cbn. f_equal. now rewrite <- app_assoc.
Qed.

Lemma handle_toggle (m : Manager) (p q : loc) (w : World) (ev : Event) :
  wired m p q w -> toggle_event ev = true -> handle m ev w = toggled p q w.
Proof.
  intros Hw Hev. destruct ev as [| | | |[]]; try discriminate; cbn [handle].
  - unfold dispatch. destruct Hw as (Hl & Hp & Hq). rewrite Hl. cbn.
    apply togglePlayPause_wired. now split.
  - cbn [call report]. now apply togglePlayPause_wired.
Qed.

(** Moving the clock and toggling keep the player wired and settled;
    once every timer has run, both icons are hidden. *)
Lemma advance_wired (m : Manager) (p q : loc) (t : Z) (w : World) :
  wired m p q w -> wired m p q (advance t w).
Proof.
  intros (Hl & Hp & Hq). unfold advance.
  destruct (run_tasks_frame (filter (fun timer => is_due t timer = true) (timers w))
              (with_now (Z.max (now w) t)
                 (with_timers
                    (fun _ => filter (fun timer => is_due t timer = false) (timers w)) w)))
    as (_ & _ & _ & _ & _ & H6 & H7).
  cbv zeta in *. unfold wired. rewrite H6, !H7. now repeat split.
Qed.

Lemma targets_filter (l : loc) (t : Z) (ts : list (Z * TimerTask)) :
  targets l ts = true ->
  targets l (filter (fun timer => is_due t timer = true) ts) = false ->
  targets l (filter (fun timer => is_due t timer = false) ts) = true.
Proof.
  unfold targets. induction ts as [| timer ts IH]; cbn [existsb]; [discriminate|].
  rewrite !filter_cons. destruct (is_due t timer) eqn:Edue.
  - rewrite decide_True, decide_False by (reflexivity || discriminate).
    cbn [existsb]. intros H1 [H2 H3]%orb_false_elim. rewrite H2 in H1. now apply IH.
  - rewrite decide_False, decide_True by (reflexivity || discriminate).
    cbn [existsb]. intros [H1 | H1]%orb_prop H2; rewrite ?H1; [reflexivity|].
    rewrite IH by assumption. apply orb_true_r.
Qed.

Lemma advance_settled (T : Z) (m : Manager) (p q : loc) (t : Z) (w : World) :
  settled_by T m p q w -> settled_by T m p q (advance t w).
Proof.
  intros (Hw & Hdue & Hshown). split; [now apply advance_wired|].
  destruct (timers_advance t w) as [-> _]. split.
  - apply Forall_forall. intros timer [_ Hin]%list_elem_of_filter.
    now apply (proj1 (Forall_forall _ _) Hdue).
  - intros l Hl. rewrite shown_advance. intros [H1 H2]%andb_prop.
    apply targets_filter; [now apply Hshown | now apply negb_true_iff].
Qed.

Lemma advance_quiet (T : Z) (m : Manager) (p q : loc) (t : Z) (w : World) :
  settled_by T m p q w -> T <= t ->
  timers (advance t w) = [] /\
  shown (advance t w) p = false /\ shown (advance t w) q = false.
Proof.
  intros Hs Ht. pose proof (advance_settled T m p q t w Hs) as (_ & _ & Hshown).
  assert (Hnil : timers (advance t w) = []).
  { destruct (timers_advance t w) as [-> _]. destruct Hs as (_ & Hdue & _).
    induction Hdue as [| timer ts Hd _ IH]; [reflexivity|].
    rewrite filter_cons, decide_False; [exact IH|].
    unfold is_due. destruct (Z.leb_spec (fst timer) t); [discriminate | lia]. }
  rewrite Hnil in Hshown. split; [exact Hnil|].
  split; [destruct (shown (advance t w) p) eqn:E | destruct (shown (advance t w) q) eqn:E];
    try reflexivity; exfalso.
  - specialize (Hshown p (or_introl eq_refl) E). discriminate.
  - specialize (Hshown q (or_intror eq_refl) E). discriminate.
Qed.

Lemma toggled_wired (m : Manager) (p q : loc) (w : World) :
  wired m p q w -> wired m p q (toggled p q w).
Proof.
  intros (Hl & Hp & Hq). unfold wired.
  set (selected := if paused (media w) then q else p).
  change (listeners_of (video m) (toggled p q w))
    with (listeners_of (video m) (with_store (setAttribute selected "style" "") w)).
  change (store (toggled p q w)) with (setAttribute selected "style" "" (store w)).
  change (documentElement (toggled p q w)) with (documentElement w).
  now rewrite listeners_set_style, !querySelector_set_style.
Qed.

Lemma shown_toggled (p q : loc) (w : World) (l : loc) :
  shown (toggled p q w) l =
    if decide ((if paused (media w) then q else p) = l)
    then bool_decide (is_Some (store w !! l))
    else shown w l.
Proof.
  set (selected := if paused (media w) then q else p).
  change (shown (toggled p q w) l)
    with (shown (with_store (setAttribute selected "style" "") w) l).
  rewrite shown_set_style. destruct (decide (selected = l)); [| reflexivity].
  apply andb_true_r.
Qed.

Lemma targets_app (l : loc) (ts ts' : list (Z * TimerTask)) :
  targets l (ts ++ ts') = targets l ts || targets l ts'.
Proof. apply existsb_app. Qed.

Lemma toggled_settled (T : Z) (m : Manager) (p q : loc) (w : World) :
  settled_by T m p q w -> settled_by (Z.max T (now w + 500)) m p q (toggled p q w).
Proof.
  intros (Hw & Hdue & Hshown). split; [now apply toggled_wired|]. split.
  - cbn [toggled timers]. apply Forall_app. split.
    + eapply Forall_impl; [exact Hdue|]. cbn. intros; lia.
    + constructor; [cbn; lia | constructor].
  - intros l Hl. rewrite shown_toggled. cbn [toggled timers]. rewrite targets_app.
    destruct (decide ((if paused (media w) then q else p) = l)) as [<- | Hne].
    + intros _. unfold targets at 2. cbn.
      rewrite bool_decide_eq_true_2 by reflexivity. apply orb_true_r.
    + intros H. now rewrite (Hshown l Hl H).
Qed.

(** A toggle after all earlier timers have run shows one icon. *)
Lemma toggled_busy (T : Z) (m : Manager) (p q : loc) (t : Z) (w : World) :
  settled_by T m p q w -> T <= t -> now w <= t ->
  busy_since t m p q (toggled p q (advance t w)).
Proof.
  intros Hs HT Hnow.
  pose proof (advance_settled T m p q t w Hs) as Hs'.
  destruct (advance_quiet T m p q t w Hs HT) as (Hnil & Hp & Hq).
  destruct (timers_advance t w) as [_ Hclock].
  set (w1 := advance t w) in *.
  assert (Hnow1 : now w1 = t) by lia.
  destruct (wired_distinct m p q w1 (proj1 Hs')) as (Hpq & Hvp & Hvq).
  split; [| split; [| split]].
  - pose proof (toggled_settled T m p q w1 Hs') as H. rewrite Hnow1 in H.
    now replace (Z.max T (t + 500)) with (t + 500) in H by lia.
  - exact Hnow1.
  - rewrite !shown_toggled, Hp, Hq. destruct (paused (media w1)).
    + rewrite decide_False, decide_True by (reflexivity || congruence).
      now rewrite bool_decide_eq_true_2.
    + rewrite decide_True, decide_False by (reflexivity || congruence).
      now rewrite bool_decide_eq_true_2.
  - cbn [toggled timers]. rewrite Hnil, Hnow1. repeat constructor. cbn. lia.
Qed.

Lemma at_time_cons (m : Manager) (t : Z) (ev : Event) (events : list (Z * Event))
  (now_ : Z) (w : World) :
  at_time m ((t, ev) :: events) now_ w =
    if decide (t <= now_) then at_time m events now_ (handle m ev (advance t w))
    else at_time m events now_ w.
Proof.
  unfold at_time. rewrite filter_cons. cbn beta iota.
  destruct (decide (t <= now_)); reflexivity.
Qed.

Lemma apart_cons (gap t : Z) (ev : Event) (events : list (Z * Event)) :
  apart gap ((t, ev) :: events) = true ->
  starts_at (t + gap) events = true /\ apart gap events = true.
Proof.
  cbn [apart]. destruct events as [| [t' ev'] events]; [now split|].
  intros [H1 H2]%andb_prop. now split.
Qed.

Lemma starts_at_mono (from from' : Z) (events : list (Z * Event)) :
  from' <= from -> starts_at from events = true -> starts_at from' events = true.
Proof. destruct events as [| [t ev] events]; cbn; [easy | lia]. Qed.

Section Moment.
Variables (m : Manager) (p q : loc) (moment : Z).

Lemma hidden_outside_windows (events : list (Z * Event)) (w : World) (T : Z) :
  settled_by T m p q w -> T <= moment ->
  starts_at (now w) events = true -> apart 0 events = true ->
  toggles_only events = true -> in_window events moment = false ->
  shown (at_time m events moment w) p = false /\
  shown (at_time m events moment w) q = false.
Proof.
  revert w T. induction events as [| [t ev] events IH]; intros w T Hs HT Hstart Hapart Hev Hwin.
  - unfold at_time. rewrite filter_nil. cbn [run fold_left].
    now apply (advance_quiet T m p q moment w Hs).
  - rewrite at_time_cons. apply apart_cons in Hapart as [Hnext Hapart].
    cbn [toggles_only forallb snd] in Hev. apply andb_prop in Hev as [Hev Hevs].
    cbn [in_window existsb fst] in Hwin. apply orb_false_elim in Hwin as [Hwin Hwins].
    cbn [starts_at] in Hstart.
    destruct (decide (t <= moment)) as [Hle | Hgt].
    + pose proof (advance_settled T m p q t w Hs) as Hs'.
      rewrite (handle_toggle m p q _ ev (proj1 Hs') Hev).
      destruct (timers_advance t w) as [_ Hclock].
      apply (IH _ (Z.max T (now (advance t w) + 500))).
      * now apply toggled_settled.
      * lia.
      * cbn [toggled now]. apply (starts_at_mono (t + 0)); [lia | assumption].
      * assumption.
      * assumption.
      * assumption.
    + apply (IH w T); try assumption.
      apply (starts_at_mono (t + 0)); [lia | assumption].
Qed.

Lemma one_shown_from_busy (events : list (Z * Event)) (w : World) (t0 : Z) :
  busy_since t0 m p q w -> t0 <= moment ->
  starts_at (t0 + 500) events = true -> apart 500 events = true ->
  toggles_only events = true ->
  (moment <? t0 + 500) || in_window events moment = true ->
  xorb (shown (at_time m events moment w) p) (shown (at_time m events moment w) q) = true.
Proof.
  revert w t0. induction events as [| [t ev] events IH];
    intros w t0 Hb Ht0 Hstart Hapart Hev Hwin.
  - unfold at_time. rewrite filter_nil. cbn [run fold_left].
    cbn [in_window existsb] in Hwin. rewrite orb_false_r in Hwin.
    destruct Hb as (_ & _ & Hxor & Hdue).
    assert (Hnone : filter (fun timer => is_due moment timer = true) (timers w) = []).
    { induction Hdue as [| timer ts Hd _ IHd]; [reflexivity|].
      rewrite filter_cons, decide_False; [exact IHd|].
      unfold is_due. destruct (Z.leb_spec (fst timer) moment); [lia | discriminate]. }
    rewrite !shown_advance, Hnone. cbn. now rewrite !andb_true_r.
  - rewrite at_time_cons. apply apart_cons in Hapart as [Hnext Hapart].
    cbn [toggles_only forallb snd] in Hev. apply andb_prop in Hev as [Hev Hevs].
    cbn [in_window existsb fst] in Hwin. cbn [starts_at] in Hstart.
    destruct (decide (t <= moment)) as [Hle | Hgt].
    + destruct Hb as (Hs & Hnow & _).
      pose proof (toggled_busy (t0 + 500) m p q t w Hs ltac:(lia) ltac:(lia)) as Hb'.
      rewrite (handle_toggle m p q _ ev (advance_wired m p q t w (proj1 Hs)) Hev).
      apply (IH _ t); try assumption.
      destruct (Z.ltb_spec moment (t0 + 500)); [lia|].
      destruct (Z.leb_spec t moment); [| lia]. exact Hwin.
    + apply (IH w t0); try assumption.
      * apply (starts_at_mono (t + 500)); [lia | assumption].
      * destruct (Z.leb_spec t moment); [lia|]. exact Hwin.
Qed.

Lemma one_shown_when_spaced (events : list (Z * Event)) (w : World) (T : Z) :
  settled_by T m p q w ->
  starts_at (Z.max T (now w)) events = true -> apart 500 events = true ->
  toggles_only events = true -> in_window events moment = true ->
  xorb (shown (at_time m events moment w) p) (shown (at_time m events moment w) q) = true.
Proof.
  revert w T. induction events as [| [t ev] events IH]; intros w T Hs Hstart Hapart Hev Hwin.
  - discriminate Hwin.
  - rewrite at_time_cons. apply apart_cons in Hapart as [Hnext Hapart].
    cbn [toggles_only forallb snd] in Hev. apply andb_prop in Hev as [Hev Hevs].
    cbn [in_window existsb fst] in Hwin. cbn [starts_at] in Hstart.
    destruct (decide (t <= moment)) as [Hle | Hgt].
    + pose proof (toggled_busy T m p q t w Hs ltac:(lia) ltac:(lia)) as Hb'.
      rewrite (handle_toggle m p q _ ev (advance_wired m p q t w (proj1 Hs)) Hev).
      apply (one_shown_from_busy events _ t); try assumption.
      destruct (Z.leb_spec t moment); [| lia]. exact Hwin.
    + apply (IH w T); try assumption.
      * apply (starts_at_mono (t + 500)); [lia | assumption].
      * destruct (Z.leb_spec t moment); [lia|]. exact Hwin.
Qed.

End Moment.

(** The player of the example page is wired, no timer is pending and
    both icons are hidden. *)
Lemma ready_is_wired :
  wired Examples.manager Examples.pauseIcon Examples.playIcon Examples.ready_world /\
  timers Examples.ready_world = [] /\
  shown Examples.ready_world Examples.pauseIcon = false /\
  shown Examples.ready_world Examples.playIcon = false.
Proof. repeat split; vm_compute; reflexivity. Qed.

(** C4, as stated, fails for toggles less than 500 ms apart: after
    clicks at 0 ms and at 100 ms on the player of the example page, the
    moment 200 ms is within 500 ms after a toggle, and both icons are
    visible then. *)
Lemma both_icons_shown_after_quick_toggles :
  wired Examples.manager Examples.pauseIcon Examples.playIcon Examples.ready_world /\
  toggles_only Examples.quick_toggles = true /\
  in_window Examples.quick_toggles 200 = true /\
  shown (at_time Examples.manager Examples.quick_toggles 200 Examples.ready_world)
    Examples.pauseIcon = true /\
  shown (at_time Examples.manager Examples.quick_toggles 200 Examples.ready_world)
    Examples.playIcon = true.
Proof. repeat split; vm_compute; reflexivity. Qed.

(** C4, amended. Take a player wired as the constructor leaves it, with
    no timer pending and both icons hidden, and any sequence of toggles
    at ascending times. At every moment that is not within 500 ms after
    a toggle, both icons are hidden. When consecutive toggles are at
    least 500 ms apart, exactly one of the two icons is visible at every
    moment within 500 ms after a toggle. *)
Theorem feedback_icons_over_time (m : Manager) (p q : loc) (w : World)
  (events : list (Z * Event)) (moment : Z) :
  wired m p q w -> timers w = [] -> shown w p = false -> shown w q = false ->
  starts_at (now w) events = true -> apart 0 events = true ->
  toggles_only events = true ->
  let w' := at_time m events moment w in
  (in_window events moment = false -> shown w' p = false /\ shown w' q = false) /\
  (apart 500 events = true -> in_window events moment = true ->
   xorb (shown w' p) (shown w' q) = true).
Proof.
  intros Hw Htimers Hp Hq Hstart Hapart Hev w'.
  assert (Hs : forall T, settled_by T m p q w).
  { intros T. split; [exact Hw|]. rewrite Htimers. split; [constructor|].
    intros l [-> | ->] H; congruence. }
  split.
  - intros Hwin. now apply (hidden_outside_windows m p q moment events w moment).
  - intros Hspaced Hwin.
    apply (one_shown_when_spaced m p q moment events w (now w)); try easy.
    now rewrite Z.max_id.
Qed.

Lemma feedback_icons_on_spaced_toggles :
  (shown (at_time Examples.manager Examples.spaced_toggles 550 Examples.ready_world)
     Examples.pauseIcon = false /\
   shown (at_time Examples.manager Examples.spaced_toggles 550 Examples.ready_world)
     Examples.playIcon = false) /\
  xorb
    (shown (at_time Examples.manager Examples.spaced_toggles 700 Examples.ready_world)
       Examples.pauseIcon)
    (shown (at_time Examples.manager Examples.spaced_toggles 700 Examples.ready_world)
       Examples.playIcon) = true.
Proof.
  destruct ready_is_wired as (Hw & Ht & Hp & Hq).
  split.
  - apply (feedback_icons_over_time Examples.manager Examples.pauseIcon Examples.playIcon
             Examples.ready_world Examples.spaced_toggles 550 Hw Ht Hp Hq); reflexivity.
  - apply (feedback_icons_over_time Examples.manager Examples.pauseIcon Examples.playIcon
             Examples.ready_world Examples.spaced_toggles 700 Hw Ht Hp Hq); reflexivity.
Defined.

(** *** The failure message *)

(** Everything the player does, other than the [onerror] handler of
    the source element, is inert. *)
Lemma inert_refl (w : World) : inert w w.
Proof. now split. Qed.

Lemma inert_trans (w1 w2 w3 : World) : inert w1 w2 -> inert w2 w3 -> inert w1 w3.
Proof. intros [H1 H2] [H3 H4]. split; congruence. Qed.

Lemma inert_emit (e : Effect) (w : World) : e <> ShowFailureMessage -> inert w (emit e w).
Proof.
  intros He. split; [| reflexivity]. unfold failure_calls. cbn [emit log].
  rewrite filter_app, length_app, filter_cons, decide_False by assumption.
  cbn. lia.
Qed.

Lemma inert_set_attribute (l : loc) (name v : string) (w : World) :
  inert w (with_store (setAttribute l name v) w).
Proof.
  split; [reflexivity|]. unfold error_handlers, setAttribute. cbn [with_store store].
  apply list_eq. intros i. rewrite !list_lookup_fmap, list_lookup_alter.
  case_decide; [subst i | reflexivity].
  now destruct (store w !! l).
Qed.

Lemma inert_report_feedback (w : World) : inert w (report (feedback_listener w)).
Proof.
  unfold feedback_listener, updateVisualFeedback.
  destruct (querySelector _ _ _) as [feedback |]; cbn [report].
  - apply (inert_trans _ (with_store (setAttribute feedback "style" "") w));
      [apply inert_set_attribute | now split].
  - now apply inert_emit.
Qed.

Lemma inert_togglePlayPause (m : Manager) (w : World) : inert w (togglePlayPause m w).
Proof.
  unfold togglePlayPause, dispatch_togglePlayPause.
  set (w1 := if paused (media w) then play w else pause w).
  assert (H1 : inert w (emit (DispatchEvent "togglePlayPause") w1)).
  { apply (inert_trans _ w1); [| now apply inert_emit].
    unfold w1. destruct (paused (media w)).
    - apply (inert_trans _ (with_media (set_paused false) w)); [now split|].
      now apply inert_emit.
    - apply (inert_trans _ (with_media (set_paused true) w)); [now split|].
      now apply inert_emit. }
  revert H1. generalize (emit (DispatchEvent "togglePlayPause") w1).
  induction (listeners_of (video m) w1) as [| r rs IH]; intros w2 H2; [exact H2|].
  cbn [fold_left]. apply IH. destruct r; try exact H2.
  apply (inert_trans _ w2); [exact H2 | apply inert_report_feedback].
Qed.

Lemma inert_invoke (o : gmap string value) (name : string) (w : World) :
  inert w (report (invoke o name w)).
Proof. unfold invoke. destruct (get o name); cbn [report]; now apply inert_emit. Qed.

Lemma inert_enter (w : World) : inert w (report (enterFullScreenMode w)).
Proof.
  unfold enterFullScreenMode.
  repeat (destruct (truthy _); [apply inert_invoke|]). apply inert_refl.
Qed.

Lemma inert_exit (w : World) : inert w (report (exitFullScreenMode w)).
Proof.
  unfold exitFullScreenMode.
  repeat (destruct (truthy _); [apply inert_invoke|]). apply inert_refl.
Qed.

Lemma inert_toggleFullScreen (w : World) : inert w (report (toggleFullScreenMode w)).
Proof.
  unfold toggleFullScreenMode.
  destruct (isFullScreenModeEnabled w); [apply inert_exit | apply inert_enter].
Qed.

Lemma inert_call (m : Manager) (meth : Method) (w : World) :
  inert w (report (call m meth w)).
Proof.
  destruct meth; cbn [call report]; try (now split).
  - apply inert_togglePlayPause.
  - apply inert_toggleFullScreen.
  - apply inert_enter.
  - apply inert_exit.
Qed.

Lemma inert_listener (m : Manager) (r : Registration) (w : World) :
  inert w (run_listener m r w).
Proof.
  destruct r; cbn [run_listener].
  - apply inert_toggleFullScreen.
  - apply inert_togglePlayPause.
  - apply inert_report_feedback.
  - apply inert_refl.
Qed.

Lemma inert_dispatch (type : string) (m : Manager) (w : World) :
  inert w (dispatch type m w).
Proof.
  unfold dispatch.
  enough (H : forall rs w2, inert w w2 ->
                inert w (fold_left
                           (fun w' r => if String.eqb (event_type r) type
                                        then run_listener m r w' else w') rs w2))
    by apply H, inert_refl.
  induction rs as [| r rs IH]; intros w2 H2; [exact H2|].
  cbn [fold_left]. apply IH. destruct (String.eqb (event_type r) type); [| exact H2].
  apply (inert_trans _ w2); [exact H2 | apply inert_listener].
Qed.

Lemma inert_advance (t : Z) (w : World) : inert w (advance t w).
Proof.
  unfold advance.
  set (w0 := with_now _ _). assert (H0 : inert w w0) by now split.
  revert H0. generalize w0.
  induction (filter (fun timer => is_due t timer = true) (timers w)) as [| [d [l]] due IH];
    intros w1 H1; [exact H1|].
  cbn [fold_left]. apply IH. apply (inert_trans _ w1); [exact H1|].
  apply inert_set_attribute.
Qed.

Lemma source_failed_inert (w w' : World) (ev : Event) :
  inert w w' -> source_failed w' ev = source_failed w ev.
Proof. intros [_ H]. destruct ev; cbn; now rewrite ?H. Qed.

Lemma handle_failure_calls (m : Manager) (ev : Event) (w : World) :
  failure_calls (handle m ev w) =
    (failure_calls w + if source_failed w ev then 1 else 0)%nat /\
  error_handlers (handle m ev w) = error_handlers w.
Proof.
  destruct ev as [| | | target | meth]; cbn [handle source_failed].
  - destruct (inert_dispatch "click" m w) as [-> ->]. split; [lia | reflexivity].
  - destruct (inert_dispatch "dblclick" m w) as [-> ->]. split; [lia | reflexivity].
  - destruct (inert_dispatch "keydown" m w) as [-> ->]. split; [lia | reflexivity].
  - unfold fire_error, error_handlers. rewrite list_lookup_fmap.
    destruct (store w !! target) as [el |]; cbn [fmap option_fmap option_map].
    + destruct (onerror el) as [[] |].
      * rewrite bool_decide_eq_true_2 by reflexivity.
        unfold failure_calls. cbn [emit log].
        rewrite filter_app, length_app, filter_cons, decide_True, filter_nil by reflexivity.
        cbn [length]. split; [lia | reflexivity].
      * rewrite bool_decide_eq_false_2 by discriminate. split; [lia | reflexivity].
    + rewrite bool_decide_eq_false_2 by discriminate. split; [lia | reflexivity].
  - destruct (inert_call m meth w) as [-> ->]. split; [lia | reflexivity].
Qed.

(** In every run, each [error] event on an element that has the handler
    adds one call of [showFailureMessage], and nothing else adds one. *)
Lemma run_failure_calls (m : Manager) (events : list (Z * Event)) (w : World) :
  failure_calls (run m events w) =
    (failure_calls w +
     length (filter (fun event => source_failed w (snd event) = true) events))%nat /\
  (forall (ev : Event) (t : Z),
      failure_calls (handle m ev (advance t w)) =
        (failure_calls w + if source_failed w ev then 1 else 0)%nat) /\
  (forall t, failure_calls (advance t w) = failure_calls w).
Proof.
  assert (Hstep : forall (ev : Event) (t : Z) (w0 : World),
             failure_calls (handle m ev (advance t w0)) =
               (failure_calls w0 + if source_failed w0 ev then 1 else 0)%nat /\
             error_handlers (handle m ev (advance t w0)) = error_handlers w0).
  { intros ev t w0. destruct (handle_failure_calls m ev (advance t w0)) as [-> ->].
    rewrite (source_failed_inert _ _ ev (inert_advance t w0)).
    now destruct (inert_advance t w0) as [-> ->]. }
  split; [| split].
  - enough (H : forall w0, error_handlers w0 = error_handlers w ->
                failure_calls (run m events w0) =
                  (failure_calls w0 +
                   length (filter (fun event => source_failed w (snd event) = true) events))%nat)
      by now apply H.
    induction events as [| [t ev] events IH]; intros w0 Hh.
    + cbn. lia.
    + unfold run in *. cbn [fold_left]. destruct (Hstep ev t w0) as [Hcount Hsame].
      rewrite IH by congruence. rewrite Hcount, filter_cons. cbn [snd].
      assert (Hsf : source_failed w0 ev = source_failed w ev).
      { destruct ev; cbn; now rewrite ?Hh. }
      rewrite Hsf. destruct (source_failed w ev).
      * rewrite decide_True by reflexivity. cbn [length]. lia.
      * rewrite decide_False by discriminate. lia.
  - intros ev t. apply Hstep.
  - intros t. apply inert_advance.
Qed.

(** C7. Construction calls [showFailureMessage] never, and of the
    elements it creates the source element alone has the handler that
    calls it. From then on an [error] event on the source element adds
    exactly one call, and nothing else adds one except an [error] event
    on an element of the page that had that handler before: not a
    click, a double click, a key, a call of a method of the video, a
    timer, nor an [error] event on another element. *)
Theorem failure_message_once_per_source_error
  (videoLink : string) (container : loc) (w : World) (el : Element)
  (events : list (Z * Event)) :
  store w !! container = Some el ->
  let n := length (store w) in
  let built := VideoPlayerManager videoLink container w in
  let m := fst built in
  let w' := report (snd built) in
  (exists source,
      store w' !! (n + 1)%nat = Some source /\
      tagName source = "source" /\
      get_attr "src" (attributes source) = Some videoLink /\
      parentNode source = Some (video m) /\
      onerror source = Some OnErrorShowFailure) /\
  failure_calls w' = failure_calls w /\
  (forall l : loc,
      (n <= l)%nat -> source_failed w' (ErrorEvent l) = bool_decide (l = (n + 1)%nat)) /\
  (forall l : loc,
      (l < n)%nat -> source_failed w' (ErrorEvent l) = source_failed w (ErrorEvent l)) /\
  failure_calls (run m events w') =
    (failure_calls w' +
     length (filter (fun event => source_failed w' (snd event) = true) events))%nat /\
  (forall (m0 : Manager) (ev : Event) (t : Z) (w0 : World),
      failure_calls (handle m0 ev (advance t w0)) =
        (failure_calls w0 + if source_failed w0 ev then 1 else 0)%nat) /\
  (forall (t : Z) (w0 : World), failure_calls (advance t w0) = failure_calls w0).
Proof.
  intros Hel n built m w'.
  assert (Hlt : (container < n)%nat) by (now apply lookup_lt_Some in Hel).
  destruct (ConstructionFacts.built_error_handlers videoLink container w Hlt) as [Hh Hf].
  cbv zeta in Hh, Hf. fold built in Hh, Hf. fold w' in Hh, Hf.
  assert (Hn : length (error_handlers w) = n) by apply length_fmap.
  split; [| split; [exact Hf | split; [| split; [| split; [| split]]]]].
  - unfold w', m, built.
    rewrite (ConstructionFacts.VideoPlayerManager_store videoLink container w Hlt).
    cbn [fst snd report store with_store video]. fold n.
    rewrite (ConstructionFacts.lookup_new _ _ n 1) by apply length_alter.
    eexists. split; [reflexivity|]. now repeat split.
  - intros l Hl. unfold source_failed. rewrite Hh.
    rewrite lookup_app_r by lia. rewrite Hn.
    destruct (l - n)%nat as [| [| k]] eqn:Hk.
    + rewrite !bool_decide_eq_false_2; [reflexivity | lia | discriminate].
    + rewrite !bool_decide_eq_true_2; [reflexivity | lia | reflexivity].
    + rewrite !bool_decide_eq_false_2; [reflexivity | lia |].
      cbn [app lookup list_lookup]. intros [H _]%lookup_replicate. discriminate.
  - intros l Hl. unfold source_failed. rewrite Hh.
    now rewrite lookup_app_l by lia.
  - apply run_failure_calls.
  - intros m0 ev t w0. apply (run_failure_calls m0 [] w0).
  - intros t w0. apply (run_failure_calls (mkManager 0%nat 0%nat) [] w0).
Qed.

Lemma failure_message_on_example_page :
  failure_calls (run Examples.manager Examples.failing_run (report (snd Examples.built))) =
    2%nat.
Proof.
  destruct (failure_message_once_per_source_error "https://example.org/video.mp4"
              Examples.container Examples.webkit_world
              (mkElement "div" [("id", "player")] [] None [] [] (Some 1%nat))
              Examples.failing_run eq_refl)
    as (_ & _ & _ & _ & Hrun & _).
  cbv zeta in Hrun. fold Examples.built in Hrun.
  etransitivity; [exact Hrun | vm_compute; reflexivity].
Defined.

End PlayerFacts.

(** ** Hundredths of volume and quarters of rate *)

Module GridFacts.
Import Number Media Dyadic Notions NumberFacts Grid.

(** The checks hold over their ranges. *)
Lemma min_check_all : forall_range 0 201 min_check = true.
Proof. vm_compute. reflexivity. Qed.
Lemma max_check_all : forall_range (-100) 201 max_check = true.
Proof. vm_compute. reflexivity. Qed.
Lemma up_check_all : forall_range 0 101 up_check = true.
Proof. vm_compute. reflexivity. Qed.
Lemma down_check_all : forall_range 0 101 down_check = true.
Proof. vm_compute. reflexivity. Qed.
Lemma faster_check_all : forall_range 1 8 faster_check = true.
Proof. vm_compute. reflexivity. Qed.
Lemma slower_check_all : forall_range 1 8 slower_check = true.
Proof. vm_compute. reflexivity. Qed.

Lemma checked (lo : Z) (n : nat) (P : Z -> bool) (Q : Prop) (k : Z) :
  forall_range lo n P = true -> lo <= k < lo + Z.of_nat n ->
  (P k = true -> Q) -> Q.
Proof. intros H Hk HQ. apply HQ. now apply (forall_range_spec lo n P). Qed.

Lemma up_exact (k : Z) :
  0 <= k <= 100 ->
  Math_min (roundBy2Decimals (add (hundredths k) lit_0_05)) lit_1 =
    hundredths (Z.min (k + 5) 100).
Proof.
  intros Hk. apply (checked 0 101 up_check _ k up_check_all); [lia|].
  apply bool_decide_eq_true.
Qed.

Lemma down_exact (k : Z) :
  0 <= k <= 100 ->
  Math_max lit_0 (roundBy2Decimals (sub (hundredths k) lit_0_05)) =
    hundredths (Z.max (k - 5) 0).
Proof.
  intros Hk. apply (checked 0 101 down_check _ k down_check_all); [lia|].
  apply bool_decide_eq_true.
Qed.

Lemma faster_exact (q : Z) :
  1 <= q <= 8 ->
  Math_min (add (quarters q) lit_0_25) lit_2 = quarters (Z.min (q + 1) 8).
Proof.
  intros Hq. apply (checked 1 8 faster_check _ q faster_check_all); [lia|].
  apply bool_decide_eq_true.
Qed.

Lemma slower_exact (q : Z) :
  1 <= q <= 8 ->
  Math_max lit_0_25 (sub (quarters q) lit_0_25) = quarters (Z.max (q - 1) 1).
Proof.
  intros Hq. apply (checked 1 8 slower_check _ q slower_check_all); [lia|].
  apply bool_decide_eq_true.
Qed.

(** X1. Whatever the volume was within [0, 1], after one call of
    [increaseVolumeBy5Percent] or of [decreaseVolumeBy5Percent] it is a
    whole number of hundredths between 0 and 100: the number nearest
    [k / 100]. *)
Theorem volume_lands_on_hundredths (v : Video) :
  within lit_0 lit_1 (volume v) = true ->
  (exists k, 0 <= k <= 100 /\ volume (increaseVolumeBy5Percent v) = hundredths k) /\
  (exists k, 0 <= k <= 100 /\ volume (decreaseVolumeBy5Percent v) = hundredths k).
Proof.
  intros Hv. unfold increaseVolumeBy5Percent, decreaseVolumeBy5Percent.
  cbn [volume set_volume]. split.
  - pose proof (add_0_05_bounded _ Hv) as Hy.
    apply (mul_bounded false 2) in Hy; [| lia | lia].
    apply Math_round_bounded in Hy as [Hr Hk]; [| lia].
    unfold roundBy2Decimals. rewrite Hr, rounded_false.
    set (k := round_half_up _) in *.
    exists (Z.min k 100). split; [lia|].
    apply (checked 0 201 min_check _ k min_check_all); [lia|].
    apply bool_decide_eq_true.
  - destruct (sub_0_05_bounded _ Hv) as [s Hy].
    apply (mul_bounded s 1) in Hy; [| lia | lia].
    apply Math_round_bounded in Hy as [Hr Hk]; [| lia].
    unfold roundBy2Decimals. rewrite Hr.
    set (k := round_half_up _) in *.
    exists (Z.max k 0). split; [destruct s; lia|].
    assert (Hc : decrease_check s k = true).
    { destruct s.
      - apply (forall_range_spec _ _ _ decrease_check_neg). lia.
      - apply (forall_range_spec _ _ _ decrease_check_pos). lia. }
    apply andb_prop in Hc as [Heq _]. apply bool_decide_eq_true in Heq.
    rewrite Heq.
    apply (checked (-100) 201 max_check _ k max_check_all); [destruct s; lia|].
    apply bool_decide_eq_true.
Qed.

Lemma volume_lands_from_0_97 :
  (exists k, 0 <= k <= 100 /\
     volume (increaseVolumeBy5Percent Examples.video_at_0_97) = hundredths k) /\
  (exists k, 0 <= k <= 100 /\
     volume (decreaseVolumeBy5Percent Examples.video_at_0_97) = hundredths k).
Proof. apply (volume_lands_on_hundredths Examples.video_at_0_97). vm_compute. reflexivity. Defined.

(** X2. From a volume of [k] hundredths the steps are exact: one
    increase gives [k + 5] hundredths, at most 100, and one decrease
    [k - 5], at least 0. So an increase followed by a decrease gives the
    volume back unless the increase was clamped, and likewise the other
    way round: the rounding lets no error build up. *)
Theorem volume_steps_are_exact (k : Z) (v : Video) :
  0 <= k <= 100 -> volume v = hundredths k ->
  volume (increaseVolumeBy5Percent v) = hundredths (Z.min (k + 5) 100) /\
  volume (decreaseVolumeBy5Percent v) = hundredths (Z.max (k - 5) 0) /\
  (k <= 95 -> volume (decreaseVolumeBy5Percent (increaseVolumeBy5Percent v)) = volume v) /\
  (5 <= k -> volume (increaseVolumeBy5Percent (decreaseVolumeBy5Percent v)) = volume v).
Proof.
  intros Hk Hv. unfold increaseVolumeBy5Percent, decreaseVolumeBy5Percent.
  cbn [volume set_volume]. rewrite Hv.
  rewrite (up_exact k Hk), (down_exact k Hk). repeat split.
  - intros H95. rewrite down_exact by lia. f_equal. lia.
  - intros H5. rewrite up_exact by lia. f_equal. lia.
Qed.

Lemma volume_steps_from_half :
  volume (increaseVolumeBy5Percent Samples.video_at_half) = hundredths 55 /\
  volume (decreaseVolumeBy5Percent Samples.video_at_half) = hundredths 45 /\
  volume (decreaseVolumeBy5Percent (increaseVolumeBy5Percent Samples.video_at_half)) =
    volume Samples.video_at_half.
Proof.
  destruct (volume_steps_are_exact 50 Samples.video_at_half) as (Hup & Hdown & Hback & _);
    [lia | reflexivity |].
  split; [exact Hup | split; [exact Hdown | apply Hback; lia]].
Defined.

(** X3. From a rate of [q] quarters, [q] from 1 to 8, the steps are
    exact: [increaseSpeed] gives [q + 1] quarters, at most 8, and
    [decreaseSpeed] [q - 1], at least 1; each undoes the other unless it
    was clamped. *)
Theorem speed_steps_are_exact (q : Z) (v : Video) :
  1 <= q <= 8 -> playbackRate v = quarters q ->
  playbackRate (increaseSpeed v) = quarters (Z.min (q + 1) 8) /\
  playbackRate (decreaseSpeed v) = quarters (Z.max (q - 1) 1) /\
  (q <= 7 -> playbackRate (decreaseSpeed (increaseSpeed v)) = playbackRate v) /\
  (2 <= q -> playbackRate (increaseSpeed (decreaseSpeed v)) = playbackRate v).
Proof.
  intros Hq Hv. unfold increaseSpeed, decreaseSpeed.
  cbn [playbackRate set_playbackRate]. rewrite Hv.
  rewrite (faster_exact q Hq), (slower_exact q Hq). repeat split.
  - intros H7. rewrite slower_exact by lia. f_equal. lia.
  - intros H2. rewrite faster_exact by lia. f_equal. lia.
Qed.

Lemma speed_steps_from_normal :
  playbackRate (increaseSpeed Samples.video_at_half) = quarters 5 /\
  playbackRate (decreaseSpeed (increaseSpeed Samples.video_at_half)) =
    playbackRate Samples.video_at_half.
Proof.
  destruct (speed_steps_are_exact 4 Samples.video_at_half) as (Hup & _ & Hback & _);
    [lia | reflexivity |].
  split; [exact Hup | apply Hback; lia].
Defined.

Lemma step_on_grid (s : Step) (c : Z * Z) (v : Video) :
  on_grid c v -> on_grid (step_counters s c) (step s v).
Proof.
  intros [[Hk Hv] [Hq Hr]]. destruct c as [k q]. cbn [fst snd] in *.
  destruct s; cbn [step step_counters fst snd]; unfold on_grid; cbn [fst snd];
    unfold increaseVolumeBy5Percent, decreaseVolumeBy5Percent, increaseSpeed, decreaseSpeed;
    cbn [volume playbackRate set_volume set_playbackRate].
  - rewrite Hv, (up_exact k Hk). repeat split; (lia || assumption).
  - rewrite Hv, (down_exact k Hk). repeat split; (lia || assumption).
  - rewrite Hr, (faster_exact q Hq). repeat split; (lia || assumption).
  - rewrite Hr, (slower_exact q Hq). repeat split; (lia || assumption).
Qed.

(** X4. The steps compute on two counters: from [k] hundredths of
    volume and [q] quarters of rate, every sequence of increases and
    decreases of volume and speed leaves the video at the hundredths
    and quarters that the same sequence of clamped additions of 5 and
    of 1 gives. *)
Theorem steps_move_counters (steps : list Step) (c : Z * Z) (v : Video) :
  on_grid c v ->
  on_grid (fold_left (fun c' s => step_counters s c') steps c)
    (fold_left (fun v' s => step s v') steps v).
Proof.
  revert c v. induction steps as [| s steps IH]; intros c v H; [exact H|].
  cbn [fold_left]. apply IH. now apply step_on_grid.
Qed.

Lemma steps_from_half :
  on_grid (50, 6) (fold_left (fun v' s => step s v') Samples.some_steps Samples.video_at_half).
Proof.
  apply (steps_move_counters Samples.some_steps (50, 4) Samples.video_at_half).
  repeat split; cbn; (lia || reflexivity).
Defined.

End GridFacts.

(** ** What runs keep *)

Module RunFacts.
Import Number Media Js Dom Html Player Notions NumberFacts PlayerFacts Runs.

(** What the handlers do to the playback state. *)
Lemma same_levels_refl (v : Video) : same_levels v v.
Proof. now repeat split. Qed.

Lemma same_levels_trans (v1 v2 v3 : Video) :
  same_levels v1 v2 -> same_levels v2 v3 -> same_levels v1 v3.
Proof. intros (?&?&?&?) (?&?&?&?). repeat split; congruence. Qed.

Lemma same_levels_eq (v v' : Video) : v' = v -> same_levels v v'.
Proof. intros ->. apply same_levels_refl. Qed.

Lemma media_togglePlayPause (m : Manager) (w : World) :
  media (togglePlayPause m w) = set_paused (negb (paused (media w))) (media w).
Proof.
  unfold togglePlayPause, dispatch_togglePlayPause.
  set (w1 := if paused (media w) then play w else pause w).
  destruct (toggle_listeners_log (listeners_of (video m) w1)
              (emit (DispatchEvent "togglePlayPause") w1)) as (tail & _ & _ & Hmedia).
  change (fun (w' : World) (r : Registration) => _) with toggle_listeners.
  rewrite Hmedia. unfold w1. now destruct (paused (media w)).
Qed.

Lemma media_invoke (o : gmap string value) (name : string) (w : World) :
  media (report (invoke o name w)) = media w.
Proof. unfold invoke. now destruct (get o name). Qed.

Lemma media_enter (w : World) : media (report (enterFullScreenMode w)) = media w.
Proof.
  unfold enterFullScreenMode.
  repeat (destruct (truthy _); [apply media_invoke|]). reflexivity.
Qed.

Lemma media_exit (w : World) : media (report (exitFullScreenMode w)) = media w.
Proof.
  unfold exitFullScreenMode.
  repeat (destruct (truthy _); [apply media_invoke|]). reflexivity.
Qed.

Lemma media_toggleFullScreen (w : World) :
  media (report (toggleFullScreenMode w)) = media w.
Proof.
  unfold toggleFullScreenMode.
  destruct (isFullScreenModeEnabled w); [apply media_exit | apply media_enter].
Qed.

Lemma media_advance (t : Z) (w : World) : media (advance t w) = media w.
Proof.
  unfold advance.
  destruct (run_tasks_frame (filter (fun timer => is_due t timer = true) (timers w))
              (with_now (Z.max (now w) t)
                 (with_timers
                    (fun _ => filter (fun timer => is_due t timer = false) (timers w)) w)))
    as (_ & _ & H & _).
  exact H.
Qed.

Lemma levels_listener (m : Manager) (r : Registration) (w : World) :
  same_levels (media w) (media (run_listener m r w)).
Proof.
  destruct r; cbn [run_listener].
  - apply same_levels_eq, media_toggleFullScreen.
  - unfold click_listener. rewrite media_togglePlayPause. now repeat split.
  - apply same_levels_eq, feedback_listener_media.
  - apply same_levels_refl.
Qed.

Lemma levels_dispatch (type : string) (m : Manager) (w : World) :
  same_levels (media w) (media (dispatch type m w)).
Proof.
  unfold dispatch.
  enough (H : forall rs w2, same_levels (media w) (media w2) ->
                same_levels (media w)
                  (media (fold_left
                            (fun w' r => if String.eqb (event_type r) type
                                         then run_listener m r w' else w') rs w2)))
    by apply H, same_levels_refl.
  induction rs as [| r rs IH]; intros w2 H2; [exact H2|].
  cbn [fold_left]. apply IH. destruct (String.eqb (event_type r) type); [| exact H2].
  apply (same_levels_trans _ (media w2)); [exact H2 | apply levels_listener].
Qed.

Lemma levels_fire_error (target : loc) (w : World) :
  media (fire_error target w) = media w.
Proof.
  unfold fire_error. destruct (store w !! target) as [el |]; [| reflexivity].
  now destruct (onerror el) as [[] |].
Qed.

(** What an event does to the volume, the rate, the time and the
    [muted] flag: nothing, unless it is a call of the method that
    assigns it. *)
Lemma levels_handle (m : Manager) (ev : Event) (w : World) :
  match ev with
  | Call (GoForward s) => media (handle m ev w) = goForward s (media w)
  | Call (GoBack s) => media (handle m ev w) = goBack s (media w)
  | Call (GoToSpecificTime s) => media (handle m ev w) = goToSpecificTime s (media w)
  | Call IncreaseVolumeBy5Percent =>
      media (handle m ev w) = increaseVolumeBy5Percent (media w)
  | Call DecreaseVolumeBy5Percent =>
      media (handle m ev w) = decreaseVolumeBy5Percent (media w)
  | Call IncreaseSpeed => media (handle m ev w) = increaseSpeed (media w)
  | Call DecreaseSpeed => media (handle m ev w) = decreaseSpeed (media w)
  | Call ToggleMuteUnmuteAudio => media (handle m ev w) = toggleMuteUnmuteAudio (media w)
  | _ => same_levels (media w) (media (handle m ev w))
  end.
Proof.
  destruct ev as [| | | target | meth]; cbn [handle].
  - apply levels_dispatch.
  - apply levels_dispatch.
  - apply levels_dispatch.
  - apply same_levels_eq, levels_fire_error.
  - destruct meth; cbn [call report]; try reflexivity.
    + rewrite media_togglePlayPause. now repeat split.
    + apply same_levels_refl.
    + apply same_levels_eq, media_toggleFullScreen.
    + apply same_levels_eq, media_enter.
    + apply same_levels_eq, media_exit.
Qed.

Lemma in_range_levels (v v' : Video) : same_levels v v' -> in_range v -> in_range v'.
Proof. intros (_ & Hv & Hr & _) [H1 H2]. unfold in_range. now rewrite Hv, Hr. Qed.

Lemma in_range_handle (m : Manager) (ev : Event) (w : World) :
  in_range (media w) -> in_range (media (handle m ev w)).
Proof.
  intros Hin. pose proof (levels_handle m ev w) as H.
  destruct ev as [| | | target | []];
    try (now apply (in_range_levels (media w))); rewrite H; destruct Hin as [Hv Hr];
    split; try assumption.
  - now apply increaseVolume_rounding.
  - now apply decreaseVolume_rounding.
  - now apply increaseSpeed_in_range.
  - now apply decreaseSpeed_in_range.
Qed.

(** X5. Whatever happens to the player, in any order (clicks, double
    clicks, keys, [error] events, timers, calls of any method of the
    video), a volume within [0, 1] and a rate within [0.25, 2] stay
    there, at the end of the run and at every moment of it. *)
Theorem run_keeps_ranges (m : Manager) (events : list (Z * Event)) (w : World) :
  in_range (media w) ->
  in_range (media (run m events w)) /\
  forall moment, in_range (media (at_time m events moment w)).
Proof.
  assert (Hrun : forall evs w0, in_range (media w0) -> in_range (media (run m evs w0))).
  { induction evs as [| [t ev] evs IH]; intros w0 H0; [exact H0|].
    unfold run in *. cbn [fold_left]. apply IH. apply in_range_handle.
    now rewrite media_advance. }
  intros Hin. split; [now apply Hrun|].
  intros moment. unfold at_time. rewrite media_advance. now apply Hrun.
Qed.

Lemma ranges_along_busy_run :
  in_range (media (run Examples.manager Samples.busy_run Examples.ready_world)) /\
  in_range (media (at_time Examples.manager Samples.busy_run 35 Examples.ready_world)).
Proof.
  destruct (run_keeps_ranges Examples.manager Samples.busy_run Examples.ready_world)
    as [Hend Hmoment]; [split; vm_compute; reflexivity |].
  split; [exact Hend | apply Hmoment].
Defined.

Lemma odd_succ (n : nat) : Nat.odd (S n) = negb (Nat.odd n).
Proof. now rewrite Nat.odd_succ, <- Nat.negb_odd. Qed.

Lemma count_events_cons (P : Event -> bool) (t : Z) (ev : Event)
  (events : list (Z * Event)) :
  Nat.odd (count_events P ((t, ev) :: events)) =
    xorb (P ev) (Nat.odd (count_events P events)).
Proof.
  unfold count_events. rewrite filter_cons. cbn [snd].
  destruct (P ev).
  - rewrite decide_True by reflexivity. cbn [length]. now rewrite odd_succ.
  - now rewrite decide_False by discriminate.
Qed.

Lemma muted_handle (m : Manager) (ev : Event) (w : World) :
  muted (media (handle m ev w)) = xorb (muted (media w)) (mute_event ev).
Proof.
  pose proof (levels_handle m ev w) as H.
  destruct ev as [| | | target | []]; cbn [mute_event];
    try (destruct H as (_ & _ & _ & ->); now rewrite xorb_false_r);
    rewrite H; cbn; now rewrite ?xorb_false_r, ?xorb_true_r.
Qed.

(** X6. Nothing but [toggleMuteUnmuteAudio] touches the [muted] flag:
    after any run the flag is what it was if the run held an even
    number of calls of it, and the opposite if an odd number. *)
Theorem muted_after_run (m : Manager) (events : list (Z * Event)) (w : World) :
  muted (media (run m events w)) =
    xorb (muted (media w)) (Nat.odd (count_events mute_event events)).
Proof.
  revert w. induction events as [| [t ev] events IH]; intros w.
  - cbn. now rewrite xorb_false_r.
  - unfold run in *. cbn [fold_left]. rewrite IH, muted_handle, media_advance.
    rewrite count_events_cons. now rewrite xorb_assoc.
Qed.

(** Listeners never change once the player is built. *)
Lemma listeners_report_feedback (l : loc) (w : World) :
  listeners_of l (report (feedback_listener w)) = listeners_of l w.
Proof.
  unfold feedback_listener, updateVisualFeedback.
  destruct (querySelector _ _ _) as [feedback |]; cbn [report]; [| reflexivity].
  apply (listeners_set_style feedback "" w l).
Qed.

Lemma listeners_togglePlayPause (m : Manager) (l : loc) (w : World) :
  listeners_of l (togglePlayPause m w) = listeners_of l w.
Proof.
  unfold togglePlayPause, dispatch_togglePlayPause.
  set (w1 := if paused (media w) then play w else pause w).
  assert (H1 : listeners_of l (emit (DispatchEvent "togglePlayPause") w1) = listeners_of l w).
  { unfold w1. now destruct (paused (media w)). }
  revert H1. generalize (emit (DispatchEvent "togglePlayPause") w1).
  induction (listeners_of (video m) w1) as [| r rs IH]; intros w2 H2; [exact H2|].
  cbn [fold_left]. apply IH. destruct r; try exact H2.
  now rewrite listeners_report_feedback.
Qed.

Lemma listeners_invoke (o : gmap string value) (name : string) (l : loc) (w : World) :
  listeners_of l (report (invoke o name w)) = listeners_of l w.
Proof. unfold invoke. now destruct (get o name). Qed.

Lemma listeners_toggleFullScreen (l : loc) (w : World) :
  listeners_of l (report (toggleFullScreenMode w)) = listeners_of l w.
Proof.
  unfold toggleFullScreenMode, exitFullScreenMode, enterFullScreenMode.
  destruct (isFullScreenModeEnabled w);
    repeat (destruct (truthy _); [apply listeners_invoke|]); reflexivity.
Qed.

Lemma listeners_advance (t : Z) (l : loc) (w : World) :
  listeners_of l (advance t w) = listeners_of l w.
Proof.
  unfold advance.
  destruct (run_tasks_frame (filter (fun timer => is_due t timer = true) (timers w))
              (with_now (Z.max (now w) t)
                 (with_timers
                    (fun _ => filter (fun timer => is_due t timer = false) (timers w)) w)))
    as (_ & _ & _ & _ & _ & H & _).
  apply H.
Qed.

(** On a video with the listeners of the constructor, a click toggles
    play and pause, a double click toggles fullscreen, and a key does
    what the shortcut manager does. *)
Lemma handle_built (m : Manager) (w : World) :
  listeners_of (video m) w = built_listeners ->
  handle m Click w = togglePlayPause m w /\
  handle m DblClick w = report (toggleFullScreenMode w) /\
  handle m KeyDown w = shortcut_listener w.
Proof. intros H. cbn [handle]. unfold dispatch. rewrite H. now repeat split. Qed.

Lemma paused_handle (m : Manager) (ev : Event) (w : World) :
  listeners_of (video m) w = built_listeners ->
  paused (media (handle m ev w)) = xorb (paused (media w)) (toggle_event ev) /\
  listeners_of (video m) (handle m ev w) = built_listeners.
Proof.
  intros Hl. destruct (handle_built m w Hl) as (Hc & Hd & Hk).
  destruct ev as [| | | target | meth]; cbn [toggle_event].
  - rewrite Hc, media_togglePlayPause, listeners_togglePlayPause.
    split; [cbn; now rewrite xorb_true_r | exact Hl].
  - rewrite Hd, media_toggleFullScreen, listeners_toggleFullScreen.
    split; [now rewrite xorb_false_r | exact Hl].
  - rewrite Hk. split; [now rewrite xorb_false_r | exact Hl].
  - cbn [handle]. unfold fire_error.
    destruct (store w !! target) as [el |]; [destruct (onerror el) as [[] |] |];
      (split; [now rewrite xorb_false_r | exact Hl]).
  - cbn [handle]. destruct meth; cbn [call report];
      try (split; [now rewrite xorb_false_r | exact Hl]).
    + rewrite media_togglePlayPause, listeners_togglePlayPause.
      split; [cbn; now rewrite xorb_true_r | exact Hl].
    + rewrite media_toggleFullScreen, listeners_toggleFullScreen.
      split; [now rewrite xorb_false_r | exact Hl].
    + rewrite media_enter.
      split; [now rewrite xorb_false_r |].
      unfold enterFullScreenMode.
      repeat (destruct (truthy _); [now rewrite listeners_invoke|]). exact Hl.
    + rewrite media_exit.
      split; [now rewrite xorb_false_r |].
      unfold exitFullScreenMode.
      repeat (destruct (truthy _); [now rewrite listeners_invoke|]). exact Hl.
Qed.



Lemma listeners_handle (m : Manager) (ev : Event) (w : World) :
  listeners_of (video m) w = built_listeners ->
  listeners_of (video m) (handle m ev w) = built_listeners.
Proof. intros H. now apply paused_handle. Qed.

Lemma listeners_run (m : Manager) (events : list (Z * Event)) (w : World) :
  listeners_of (video m) w = built_listeners ->
  listeners_of (video m) (run m events w) = built_listeners.
Proof.
  revert w. induction events as [| [t ev] events IH]; intros w Hl; [exact Hl|].
  unfold run in *. cbn [fold_left]. apply IH, listeners_handle.
  now rewrite listeners_advance.
Qed.

(** X7. On a video with the listeners of the constructor, the player
    flips the [paused] flag once for each click and each call of
    [togglePlayPause], whether or not the feedback icons are found, and
    for nothing else: after any run the flag is what it was if the run
    held an even number of them, and the opposite if an odd number. The
    listeners are the same after the run. *)
Theorem paused_after_run (m : Manager) (events : list (Z * Event)) (w : World) :
  listeners_of (video m) w = built_listeners ->
  paused (media (run m events w)) =
    xorb (paused (media w)) (Nat.odd (count_events toggle_event events)) /\
  listeners_of (video m) (run m events w) = built_listeners.
Proof.
  revert w. induction events as [| [t ev] events IH]; intros w Hl.
  - cbn. now rewrite xorb_false_r.
  - unfold run in *. cbn [fold_left].
    assert (Hl' : listeners_of (video m) (advance t w) = built_listeners)
      by now rewrite listeners_advance.
    destruct (paused_handle m ev (advance t w) Hl') as [Hp Hl''].
    destruct (IH _ Hl'') as [-> ->]. split; [| reflexivity].
    rewrite Hp, media_advance, count_events_cons. now rewrite xorb_assoc.
Qed.

Lemma paused_after_busy_run :
  paused (media (run Examples.manager Samples.busy_run Examples.ready_world)) =
    negb (paused (media Examples.ready_world)).
Proof.
  destruct (paused_after_run Examples.manager Samples.busy_run Examples.ready_world) as [H _];
    [vm_compute; reflexivity |].
  rewrite H. reflexivity.
Defined.

End RunFacts.

(** ** Hosts *)

Module HostFacts.
Import Number Media Js Dom Html Player Notions PlayerFacts FullscreenFacts Runs RunFacts Hosts.

(** A host property that is a function when present is falsy and
    throws when called, or truthy and invoked when called. *)
Lemma callable_cases (o : gmap string value) (name : string) :
  callable_or_absent o name ->
  (o !! name = None /\ truthy (get o name) = false /\ invoke o name = Thrown TypeError) \/
  (exists f, o !! name = Some (VFunction f) /\ truthy (get o name) = true /\
             invoke o name = fun w => Normal (emit (Invoke f) w)).
Proof.
  intros [H | [f H]]; [left | right; exists f]; unfold invoke, get; rewrite H; cbn;
    now repeat split.
Qed.

(** X8. In a browser whose fullscreen properties are functions where
    they are present, [exitFullScreenMode] never throws, and
    [enterFullScreenMode] throws exactly when the element has
    [webkitRequestFullscreen] and lacks [webkitRequestFullScreen]; it
    has then invoked nothing. [toggleFullScreenMode] throws exactly
    when, in addition, the query reports no fullscreen. *)
Theorem fullscreen_throws_only_on_the_other_spelling (w : World) :
  Forall (callable_or_absent (videoApi w)) ("webkitRequestFullScreen" :: request_functions) ->
  Forall (callable_or_absent (documentApi w)) exit_functions ->
  throws (exitFullScreenMode w) = false /\
  (throws (enterFullScreenMode w) = true <->
     is_Some (videoApi w !! "webkitRequestFullscreen") /\
     videoApi w !! "webkitRequestFullScreen" = None) /\
  (throws (toggleFullScreenMode w) = true <->
     isFullScreenModeEnabled w = false /\
     is_Some (videoApi w !! "webkitRequestFullscreen") /\
     videoApi w !! "webkitRequestFullScreen" = None) /\
  (throws (enterFullScreenMode w) = true -> enterFullScreenMode w = Thrown TypeError w).
Proof.
  intros Hv Hd.
  inversion_clear Hv as [| ? ? HS Hv1]. inversion_clear Hv1 as [| ? ? Hs Hv2].
  inversion_clear Hv2 as [| ? ? Hm Hv3]. inversion_clear Hv3 as [| ? ? Hi _].
  inversion_clear Hd as [| ? ? Ha Hd1]. inversion_clear Hd1 as [| ? ? Hb Hd2].
  inversion_clear Hd2 as [| ? ? Hc _].
  assert (Hexit : throws (exitFullScreenMode w) = false).
  { unfold exitFullScreenMode.
    destruct (callable_cases _ _ Ha) as [(_ & -> & _) | (f & _ & -> & ->)]; [| reflexivity].
    destruct (callable_cases _ _ Hb) as [(_ & -> & _) | (f & _ & -> & ->)]; [| reflexivity].
    destruct (callable_cases _ _ Hc) as [(_ & -> & _) | (f & _ & -> & ->)]; reflexivity. }
  assert (Henter : (throws (enterFullScreenMode w) = true <->
                      is_Some (videoApi w !! "webkitRequestFullscreen") /\
                      videoApi w !! "webkitRequestFullScreen" = None) /\
                   (throws (enterFullScreenMode w) = true ->
                      enterFullScreenMode w = Thrown TypeError w)).
  { unfold enterFullScreenMode.
    destruct (callable_cases _ _ Hs) as [(Es & -> & _) | (f & Es & -> & _)].
    - rewrite Es.
      assert (Hok : throws
                      (if truthy (get (videoApi w) "mozRequestFullScreen")
                       then invoke (videoApi w) "mozRequestFullScreen" w
                       else if truthy (get (videoApi w) "msRequestFullscreen")
                            then invoke (videoApi w) "msRequestFullscreen" w
                            else Normal w) = false).
      { destruct (callable_cases _ _ Hm) as [(_ & -> & _) | (g & _ & -> & ->)]; [| reflexivity].
        destruct (callable_cases _ _ Hi) as [(_ & -> & _) | (g & _ & -> & ->)]; reflexivity. }
      rewrite Hok. split; [split; [discriminate | intros [[? ?] _]; discriminate] | discriminate].
    - rewrite Es.
      destruct (callable_cases _ _ HS) as [(ES & _ & ->) | (g & ES & _ & ->)]; rewrite ES; cbn.
      + split; [split; [intros _; split; [eauto | reflexivity] | reflexivity] | reflexivity].
      + split; [split; [discriminate | intros [_ ?]; discriminate] | discriminate]. }
  destruct Henter as [Henter Hsame].
  split; [exact Hexit | split; [exact Henter | split; [| exact Hsame]]].
  unfold toggleFullScreenMode. destruct (isFullScreenModeEnabled w).
  - rewrite Hexit. split; [discriminate | intros [? _]; discriminate].
  - rewrite Henter. split; [intros H; now split | now intros [_ H]].
Qed.

Lemma enter_throws_exit_does_not_on_lowercase_only :
  throws (enterFullScreenMode Examples.lowercase_only_world) = true /\
  throws (exitFullScreenMode Examples.lowercase_only_world) = false.
Proof.
  destruct (fullscreen_throws_only_on_the_other_spelling Examples.lowercase_only_world)
    as (Hexit & Henter & _).
  - constructor; [left; reflexivity|].
    constructor; [right; eexists; reflexivity|].
    constructor; [left; reflexivity|].
    constructor; [left; reflexivity | constructor].
  - constructor; [left; reflexivity|].
    constructor; [left; reflexivity|].
    constructor; [left; reflexivity | constructor].
  - split; [| exact Hexit]. apply Henter. split; [eexists |]; reflexivity.
Defined.

Lemma effects_invoke (o : gmap string value) (name : string) (w : World) :
  one_effect w (invoke o name w).
Proof.
  unfold one_effect, invoke, get. destruct (o !! name) as [[] |]; cbn;
    (split; [now repeat split|]); eauto.
Qed.

Lemma effects_none (w : World) : one_effect w (Normal w).
Proof. split; [now repeat split | now left]. Qed.

Lemma effects_enter (w : World) : one_effect w (enterFullScreenMode w).
Proof.
  unfold enterFullScreenMode.
  repeat (destruct (truthy _); [apply effects_invoke|]). apply effects_none.
Qed.

Lemma effects_exit (w : World) : one_effect w (exitFullScreenMode w).
Proof.
  unfold exitFullScreenMode.
  repeat (destruct (truthy _); [apply effects_invoke|]). apply effects_none.
Qed.

Lemma effects_toggle (w : World) : one_effect w (toggleFullScreenMode w).
Proof.
  unfold toggleFullScreenMode.
  destruct (isFullScreenModeEnabled w); [apply effects_exit | apply effects_enter].
Qed.

(** X9. The four fullscreen paths ([enterFullScreenMode],
    [exitFullScreenMode], [toggleFullScreenMode] and the double-click
    listener) leave the document, the playback state, the host objects
    and the timers as they are, and do at most one thing: invoke one
    platform function, or throw. *)
Theorem fullscreen_touches_nothing_else (w : World) :
  one_effect w (enterFullScreenMode w) /\ one_effect w (exitFullScreenMode w) /\
  one_effect w (toggleFullScreenMode w) /\ one_effect w (dblclick_listener w).
Proof.
  split; [apply effects_enter | split; [apply effects_exit |]].
  split; apply effects_toggle.
Qed.

(** No handler changes a host object or the root of the document. *)
Lemma hosts_refl (w : World) : same_hosts w w.
Proof. now repeat split. Qed.

Lemma hosts_trans (w1 w2 w3 : World) :
  same_hosts w1 w2 -> same_hosts w2 w3 -> same_hosts w1 w3.
Proof. intros (?&?&?) (?&?&?). repeat split; congruence. Qed.

Lemma hosts_effect (w : World) (r : Result) : one_effect w r -> same_hosts w (report r).
Proof. intros [(_ & Hd & _ & Hv & Ha & _) _]. now repeat split. Qed.

Lemma hosts_report_feedback (w : World) : same_hosts w (report (feedback_listener w)).
Proof.
  unfold feedback_listener, updateVisualFeedback.
  destruct (querySelector _ _ _); now repeat split.
Qed.

Lemma hosts_togglePlayPause (m : Manager) (w : World) : same_hosts w (togglePlayPause m w).
Proof.
  unfold togglePlayPause, dispatch_togglePlayPause.
  set (w1 := if paused (media w) then play w else pause w).
  assert (H1 : same_hosts w (emit (DispatchEvent "togglePlayPause") w1)).
  { unfold w1. destruct (paused (media w)); now repeat split. }
  revert H1. generalize (emit (DispatchEvent "togglePlayPause") w1).
  induction (listeners_of (video m) w1) as [| r rs IH]; intros w2 H2; [exact H2|].
  cbn [fold_left]. apply IH. destruct r; try exact H2.
  apply (hosts_trans _ w2); [exact H2 | apply hosts_report_feedback].
Qed.

Lemma hosts_listener (m : Manager) (r : Registration) (w : World) :
  same_hosts w (run_listener m r w).
Proof.
  destruct r; cbn [run_listener].
  - apply hosts_effect, effects_toggle.
  - apply hosts_togglePlayPause.
  - apply hosts_report_feedback.
  - apply hosts_refl.
Qed.

Lemma hosts_dispatch (type : string) (m : Manager) (w : World) :
  same_hosts w (dispatch type m w).
Proof.
  unfold dispatch.
  enough (H : forall rs w2, same_hosts w w2 ->
                same_hosts w (fold_left
                                (fun w' r => if String.eqb (event_type r) type
                                             then run_listener m r w' else w') rs w2))
    by apply H, hosts_refl.
  induction rs as [| r rs IH]; intros w2 H2; [exact H2|].
  cbn [fold_left]. apply IH. destruct (String.eqb (event_type r) type); [| exact H2].
  apply (hosts_trans _ w2); [exact H2 | apply hosts_listener].
Qed.

Lemma hosts_handle (m : Manager) (ev : Event) (w : World) : same_hosts w (handle m ev w).
Proof.
  destruct ev as [| | | target | meth]; cbn [handle].
  - apply hosts_dispatch.
  - apply hosts_dispatch.
  - apply hosts_dispatch.
  - unfold fire_error. destruct (store w !! target) as [el |]; [| apply hosts_refl].
    destruct (onerror el) as [[] |]; now repeat split.
  - destruct meth; cbn [call report]; try (now repeat split).
    + apply hosts_togglePlayPause.
    + apply hosts_effect, effects_toggle.
    + apply hosts_effect, effects_enter.
    + apply hosts_effect, effects_exit.
Qed.

Lemma hosts_advance (t : Z) (w : World) : same_hosts w (advance t w).
Proof.
  unfold advance.
  set (w0 := with_now _ _). assert (H0 : same_hosts w w0) by now repeat split.
  revert H0. generalize w0.
  induction (filter (fun timer => is_due t timer = true) (timers w)) as [| [d [l]] due IH];
    intros w1 H1; [exact H1|].
  cbn [fold_left]. apply IH. apply (hosts_trans _ w1); [exact H1 | now repeat split].
Qed.

Lemma hosts_run (m : Manager) (events : list (Z * Event)) (w : World) :
  same_hosts w (run m events w).
Proof.
  enough (H : forall w0, same_hosts w w0 -> same_hosts w (run m events w0))
    by apply H, hosts_refl.
  induction events as [| [t ev] events IH]; intros w0 H0; [exact H0|].
  unfold run in *. cbn [fold_left]. apply IH.
  apply (hosts_trans _ w0); [exact H0|].
  apply (hosts_trans _ (advance t w0)); [apply hosts_advance | apply hosts_handle].
Qed.

(** X10. On a document that has no [webkitFullscreenElement], as in
    every browser without the WebKit prefix, the query reports
    fullscreen at every moment of every run, so [toggleFullScreenMode]
    and a double click on the video always take the exit path and never
    request fullscreen. *)
Theorem double_click_never_enters_without_webkit_element
  (m : Manager) (events : list (Z * Event)) (moment : Z) (w : World) :
  listeners_of (video m) w = built_listeners ->
  absent (documentApi w) "webkitFullscreenElement" ->
  let w1 := at_time m events moment w in
  isFullScreenModeEnabled w1 = true /\
  toggleFullScreenMode w1 = exitFullScreenMode w1 /\
  handle m DblClick w1 = report (exitFullScreenMode w1).
Proof.
  intros Hl Habsent w1.
  assert (Hhosts : same_hosts w w1).
  { unfold w1, at_time. eapply hosts_trans; [apply hosts_run | apply hosts_advance]. }
  assert (Hl1 : listeners_of (video m) w1 = built_listeners).
  { unfold w1, at_time. rewrite listeners_advance. now apply listeners_run. }
  assert (Hq : isFullScreenModeEnabled w1 = true).
  { unfold isFullScreenModeEnabled. destruct Hhosts as (_ & -> & _).
    now rewrite (get_absent _ _ Habsent). }
  destruct (handle_built m w1 Hl1) as (_ & Hd & _).
  split; [exact Hq|]. unfold toggleFullScreenMode in *. rewrite Hq in *. now split.
Qed.

Lemma double_click_on_moz_only_exits :
  handle (fst Samples.moz_built) DblClick
    (at_time (fst Samples.moz_built) Samples.busy_run 1000 (report (snd Samples.moz_built))) =
  report (exitFullScreenMode
    (at_time (fst Samples.moz_built) Samples.busy_run 1000 (report (snd Samples.moz_built)))).
Proof.
  apply (double_click_never_enters_without_webkit_element (fst Samples.moz_built)
           Samples.busy_run 1000 (report (snd Samples.moz_built)));
    vm_compute; reflexivity.
Defined.

End HostFacts.

(** ** Pages and built players *)

Module PageFacts.
Import Number Media Js Dom Html Player Notions PlayerFacts ConstructionFacts Runs RunFacts Pages.

(** An element that [querySelector] reaches is still reached in a
    larger store, with more fuel, and so are its children. *)
Lemma subtree_extends (f k : nat) (st st' : Store) (r l : loc) :
  extends st st' -> In l (subtree f st r) -> In l (subtree (f + k) st' r).
Proof.
  intros Hext. revert r. induction f as [| f IH]; intros r; cbn [subtree Nat.add]; [easy|].
  destruct (st !! r) as [el |] eqn:Er; [| easy].
  destruct (Hext r el Er) as (el' & -> & Hkids).
  intros [<- | Hin]; [now left | right].
  apply in_flat_map in Hin as (c & Hc & Hl).
  apply in_flat_map. exists c. split; [now apply Hkids | now apply IH].
Qed.

Lemma subtree_child (f : nat) (st : Store) (r l c : loc) (el : Element) :
  In l (subtree f st r) -> st !! l = Some el -> In c (childNodes el) ->
  is_Some (st !! c) -> In c (subtree (S f) st r).
Proof.
  intros Hl Hel Hc [ec Hec]. revert r Hl.
  induction f as [| f IH]; intros r; [easy|].
  cbn [subtree] in *. destruct (st !! r) as [er |] eqn:Er; [| easy].
  intros [<- | Hin].
  - right. apply in_flat_map. exists c. rewrite Er in Hel. injection Hel as ->.
    split; [exact Hc|]. destruct f; cbn [subtree]; rewrite Hec; now left.
  - right. apply in_flat_map in Hin as (c' & Hc' & Hl).
    apply in_flat_map. exists c'. split; [exact Hc'|].
    specialize (IH c' Hl). cbn [subtree] in IH. exact IH.
Qed.

(** [find] returns the one element that satisfies the test. *)
Lemma find_unique {A : Type} (f : A -> bool) (x : A) (L : list A) :
  In x L -> f x = true -> (forall y, f y = true -> y = x) -> find f L = Some x.
Proof.
  intros Hin Hx Huniq. destruct (find f L) as [y |] eqn:E.
  - apply find_some in E as [_ Hy]. f_equal. now apply Huniq.
  - now rewrite (find_none _ _ E x Hin) in Hx.
Qed.

(** The store after construction: the page, with three more children
    of the container, and the elements built. *)
Section Built.
Variables (videoLink : string) (container : loc) (w : World) (el : Element).
Hypothesis Hel : store w !! container = Some el.

Let n : nat := length (store w).
Let st' : Store :=
  alter (with_childNodes (fun kids => kids ++ [(n + 3)%nat; (n + 9)%nat; n])) container
    (store w) ++ builtElements videoLink container n.

Lemma built_extends : extends (store w) st'.
Proof.
  intros i e Hi. unfold st'.
  rewrite lookup_app_l by (rewrite length_alter; now apply lookup_lt_Some in Hi).
  rewrite list_lookup_alter. case_decide as Hc.
  - subst i. rewrite Hi. cbn. eexists. split; [reflexivity|].
    intros c Hin. cbn. apply in_or_app. now left.
  - rewrite Hi. eauto.
Qed.

Lemma built_length : length st' = S (n + 13).
Proof. unfold st'. rewrite length_app, length_alter. cbn. fold n. lia. Qed.

Lemma built_container :
  exists el', st' !! container = Some el' /\
    In (n + 3)%nat (childNodes el') /\ In (n + 9)%nat (childNodes el') /\
    id el' = id el.
Proof.
  assert (Hlt : (container < n)%nat) by (now apply lookup_lt_Some in Hel).
  unfold st'. rewrite lookup_app_l by now rewrite length_alter.
  rewrite list_lookup_alter_eq, Hel. cbn. eexists. split; [reflexivity|].
  cbn. split; [| split; [| reflexivity]]; apply in_or_app; right; cbn; tauto.
Qed.

Lemma built_has_id (name : string) (k : nat) (x : loc) :
  id_unused name w ->
  (forall j e, builtElements videoLink container n !! j = Some e -> id e = name -> j = k) ->
  has_id st' name x = true -> x = (n + k)%nat.
Proof.
  intros Hunused Honly. unfold has_id.
  destruct (st' !! x) as [e |] eqn:Ex; [| discriminate].
  intros Hid%String.eqb_eq. unfold st' in Ex.
  destruct (decide (x < n)%nat) as [Hlt | Hge].
  - exfalso. rewrite lookup_app_l in Ex by now rewrite length_alter.
    rewrite list_lookup_alter in Ex. case_decide as Hc.
    + subst x. rewrite Hel in Ex. cbn in Ex. injection Ex as <-.
      now apply (proj1 (Forall_lookup _ _) Hunused container el Hel).
    + now apply (proj1 (Forall_lookup _ _) Hunused x e Ex).
  - rewrite lookup_app_r in Ex by (rewrite length_alter; fold n; lia).
    rewrite length_alter in Ex. fold n in Ex.
    pose proof (Honly _ _ Ex Hid). lia.
Qed.

Lemma only_pause_icon (j : nat) (e : Element) :
  builtElements videoLink container n !! j = Some e -> id e = "pauseFeedback" -> j = 3%nat.
Proof.
  do 14 (destruct j as [| j]; [cbn; intros [= <-]; cbn; (reflexivity || discriminate) |]).
  discriminate.
Qed.

Lemma only_play_icon (j : nat) (e : Element) :
  builtElements videoLink container n !! j = Some e -> id e = "playFeedback" -> j = 9%nat.
Proof.
  do 14 (destruct j as [| j]; [cbn; intros [= <-]; cbn; (reflexivity || discriminate) |]).
  discriminate.
Qed.

Lemma built_query (name : string) (k : nat) (icon : Element) :
  attached w container ->
  id_unused name w ->
  (forall j e, builtElements videoLink container n !! j = Some e -> id e = name -> j = k) ->
  builtElements videoLink container n !! k = Some icon -> id icon = name ->
  In (n + k)%nat (childNodes (with_childNodes
        (fun kids => kids ++ [(n + 3)%nat; (n + 9)%nat; n]) el)) ->
  find (has_id st' name) (subtree (length st') st' (documentElement w)) = Some (n + k)%nat.
Proof.
  intros Hatt Hunused Honly Hicon Hid Hchild.
  assert (Hlt : (container < n)%nat) by (now apply lookup_lt_Some in Hel).
  assert (Hlook : st' !! (n + k)%nat = Some icon).
  { unfold st'. rewrite (lookup_new _ _ n k) by apply length_alter. exact Hicon. }
  apply find_unique.
  - rewrite built_length.
    assert (Hc : st' !! container =
                 Some (with_childNodes (fun kids => kids ++ [(n + 3)%nat; (n + 9)%nat; n]) el)).
    { unfold st'. rewrite lookup_app_l by now rewrite length_alter.
      now rewrite list_lookup_alter_eq, Hel. }
    eapply subtree_child; [| exact Hc | exact Hchild | eauto].
    apply (subtree_extends n 13 (store w) st'); [apply built_extends | exact Hatt].
  - unfold has_id. rewrite Hlook. now apply String.eqb_eq.
  - intros y. now apply built_has_id.
Qed.

End Built.

(** What construction leaves, on a page where the container is in the
    document and the two ids are free. *)
Lemma built_is_wired
  (videoLink : string) (container : loc) (w : World) (el : Element) :
  store w !! container = Some el ->
  attached w container ->
  id_unused "pauseFeedback" w -> id_unused "playFeedback" w ->
  let n := length (store w) in
  let built := VideoPlayerManager videoLink container w in
  let m := fst built in
  let w' := report (snd built) in
  wired m (n + 3) (n + 9) w' /\
  shown w' (n + 3) = false /\ shown w' (n + 9) = false /\
  timers w' = timers w /\ media w' = media w /\ log w' = log w /\ now w' = now w.
Proof.
  intros Hel Hatt Hp Hq n built m w'.
  assert (Hlt : (container < n)%nat) by (now apply lookup_lt_Some in Hel).
  unfold w', m, built, wired.
  rewrite (VideoPlayerManager_store videoLink container w Hlt).
  cbn [fst snd report video store with_store documentElement timers media log now].
  fold n.
  assert (Hlen : length (alter (with_childNodes
                   (fun kids => kids ++ [(n + 3)%nat; (n + 9)%nat; n])) container (store w)) = n)
    by apply length_alter.
  split; [split; [| split] |].
  { unfold listeners_of. cbn [store with_store]. fold n.
    rewrite (lookup_new0 _ _ n Hlen). reflexivity. }
  { unfold querySelector.
    apply (built_query videoLink container w el Hel "pauseFeedback" 3
             (hd (scratchDiv []) (feedbackIcon "pauseFeedback" pausePath (n + 3) container)));
      try assumption; try reflexivity.
    - apply only_pause_icon.
    - cbn. apply in_or_app. right. cbn. tauto. }
  { unfold querySelector.
    apply (built_query videoLink container w el Hel "playFeedback" 9
             (hd (scratchDiv []) (feedbackIcon "playFeedback" playPath (n + 9) container)));
      try assumption; try reflexivity.
    - apply only_play_icon.
    - cbn. apply in_or_app. right. cbn. tauto. }
  repeat split.
  - unfold shown. cbn [store with_store]. fold n.
    rewrite (lookup_new _ _ n 3 Hlen). reflexivity.
  - unfold shown. cbn [store with_store]. fold n.
    rewrite (lookup_new _ _ n 9 Hlen). reflexivity.
Qed.
(** X11. On a page where the container is in the document and no
    element has the id [pauseFeedback] or [playFeedback], construction
    leaves a player whose parts find each other: the video, which
    [createVideoFrame] returns, has the four listeners, in the order
    double click, click, shortcuts, toggle; [querySelector] finds the new
    pause icon for [#pauseFeedback] and the new play icon for
    [#playFeedback]; both are hidden; and no timer, playback property or
    effect has been touched. *)
Theorem construction_wires_the_player
  (videoLink : string) (container : loc) (w : World) (el : Element) :
  store w !! container = Some el ->
  attached w container ->
  id_unused "pauseFeedback" w -> id_unused "playFeedback" w ->
  let n := length (store w) in
  let built := VideoPlayerManager videoLink container w in
  let m := fst built in
  let w' := report (snd built) in
  createVideoFrame m = n /\
  listeners_of (video m) w' = built_listeners /\
  querySelector (documentElement w') "#pauseFeedback" (store w') = Some (n + 3)%nat /\
  querySelector (documentElement w') "#playFeedback" (store w') = Some (n + 9)%nat /\
  shown w' (n + 3) = false /\ shown w' (n + 9) = false /\
  timers w' = timers w /\ media w' = media w /\ log w' = log w.
Proof.
  intros Hel Hatt Hp Hq n built m w'.
  destruct (built_is_wired videoLink container w el Hel Hatt Hp Hq)
    as ((Hl & Hqp & Hqq) & Hsp & Hsq & Ht & Hm & Hlog & _).
  assert (Hlt : (container < n)%nat) by (now apply lookup_lt_Some in Hel).
  split; [| now repeat split].
  unfold m, built. now rewrite (VideoPlayerManager_store videoLink container w Hlt).
Qed.

(** The page of the examples has its container in the document and
    the two ids free. *)
Lemma example_page_is_ready :
  attached Examples.webkit_world Examples.container /\
  id_unused "pauseFeedback" Examples.webkit_world /\
  id_unused "playFeedback" Examples.webkit_world.
Proof.
  split; [cbn; tauto|].
  split; repeat (constructor; [intros H; vm_compute in H; discriminate H|]); constructor.
Qed.

Lemma construction_wires_the_example_player :
  querySelector (documentElement (report (snd Examples.built))) "#pauseFeedback"
    (store (report (snd Examples.built))) = Some Examples.pauseIcon /\
  querySelector (documentElement (report (snd Examples.built))) "#playFeedback"
    (store (report (snd Examples.built))) = Some Examples.playIcon.
Proof.
  destruct example_page_is_ready as (Hatt & Hp & Hq).
  destruct (construction_wires_the_player "https://example.org/video.mp4"
              Examples.container Examples.webkit_world
              (mkElement "div" [("id", "player")] [] None [] [] (Some 1%nat))
              eq_refl Hatt Hp Hq) as (_ & _ & Hqp & Hqq & _).
  split; [exact Hqp | exact Hqq].
Defined.

(** The video of a built player has the listeners of the constructor,
    on whatever page. *)
Lemma built_listeners_of (videoLink : string) (container : loc) (w : World) :
  (container < length (store w))%nat ->
  let built := VideoPlayerManager videoLink container w in
  listeners_of (video (fst built)) (report (snd built)) = built_listeners /\
  now (report (snd built)) = now w.
Proof.
  intros Hlt. cbv zeta. rewrite (VideoPlayerManager_store videoLink container w Hlt).
  cbn [fst snd report video]. split; [| reflexivity].
  unfold listeners_of. cbn [store with_store].
  rewrite (lookup_new0 _ _ (length (store w))) by apply length_alter. reflexivity.
Qed.

(** X12. At every moment of every run of a built player, on whatever
    page, a click on the video is one call of [togglePlayPause] and
    nothing else, and a double click is one fullscreen toggle and
    nothing else: each listener is registered once, for its own event. *)
Theorem clicks_on_the_built_player
  (videoLink : string) (container : loc) (w : World) (el : Element)
  (events : list (Z * Event)) (moment : Z) :
  store w !! container = Some el ->
  let built := VideoPlayerManager videoLink container w in
  let m := fst built in
  let w1 := at_time m events moment (report (snd built)) in
  handle m Click w1 = togglePlayPause m w1 /\
  handle m DblClick w1 = report (toggleFullScreenMode w1).
Proof.
  intros Hel built m w1.
  assert (Hlt : (container < length (store w))%nat) by (now apply lookup_lt_Some in Hel).
  destruct (built_listeners_of videoLink container w Hlt) as [Hl _].
  fold built in Hl. fold m in Hl.
  assert (H1 : listeners_of (video m) w1 = built_listeners).
  { unfold w1, at_time. rewrite listeners_advance. now apply listeners_run. }
  destruct (handle_built m w1 H1) as (Hc & Hd & _). now split.
Qed.

Lemma clicks_on_the_example_player :
  handle (fst Examples.built) Click
    (at_time (fst Examples.built) Samples.busy_run 1000 (report (snd Examples.built))) =
  togglePlayPause (fst Examples.built)
    (at_time (fst Examples.built) Samples.busy_run 1000 (report (snd Examples.built))).
Proof.
  apply (clicks_on_the_built_player "https://example.org/video.mp4" Examples.container
           Examples.webkit_world
           (mkElement "div" [("id", "player")] [] None [] [] (Some 1%nat))
           Samples.busy_run 1000 eq_refl).
Defined.

(** X13. A player is built on a page where the container is in the
    document, the two ids are free and no timer is pending; then the
    video is clicked once, at [t]. The click flips the [paused] flag,
    and the icon of the new state (the play icon if the video was
    paused, the pause icon if it was playing) is visible from [t] until
    500 ms later and at no other moment; the other icon is never
    visible. *)
Theorem first_click_flashes_one_icon
  (videoLink : string) (container : loc) (w : World) (el : Element) (t moment : Z) :
  store w !! container = Some el ->
  attached w container ->
  id_unused "pauseFeedback" w -> id_unused "playFeedback" w ->
  timers w = [] -> now w <= t ->
  let n := length (store w) in
  let built := VideoPlayerManager videoLink container w in
  let m := fst built in
  let w2 := at_time m [(t, Click)] moment (report (snd built)) in
  let flashed := if paused (media w) then (n + 9)%nat else (n + 3)%nat in
  let other := if paused (media w) then (n + 3)%nat else (n + 9)%nat in
  shown w2 flashed = bool_decide (t <= moment < t + 500) /\
  shown w2 other = false /\
  paused (media w2) = xorb (paused (media w)) (bool_decide (t <= moment)).
Proof.
  intros Hel Hatt Hp Hq Htimers Hnow n built m w2 flashed other.
  assert (Hlt : (container < n)%nat) by (now apply lookup_lt_Some in Hel).
  destruct (built_is_wired videoLink container w el Hel Hatt Hp Hq)
    as (Hw & Hsp & Hsq & Ht & Hm & _ & Hclock).
  fold n built m in Hw, Hsp, Hsq, Ht, Hm, Hclock.
  set (w' := report (snd built)) in *.
  destruct (wired_distinct _ _ _ _ Hw) as (Hne & Hvp & Hvq).
  unfold w2. rewrite at_time_cons. unfold at_time. rewrite filter_nil. cbn [run fold_left].
  destruct (decide (t <= moment)) as [Hle | Hgt].
  - set (w1 := advance t w').
    assert (Hw1 : wired m (n + 3) (n + 9) w1) by now apply advance_wired.
    destruct (timers_advance t w') as [Ht1 Hn1]. fold w1 in Ht1, Hn1.
    rewrite Ht, Htimers in Ht1. cbn in Ht1.
    assert (Hst1 : store w1 = store w').
    { unfold w1, advance. rewrite Ht, Htimers. reflexivity. }
    assert (Hs1 : forall l, shown w1 l = shown w' l).
    { intros l. unfold shown. now rewrite Hst1. }
    assert (Hm1 : media w1 = media w) by (unfold w1; now rewrite media_advance).
    rewrite (handle_toggle m (n + 3) (n + 9) w1 Click Hw1 eq_refl).
    rewrite !shown_advance, !shown_toggled, !Hs1, Hm1, media_advance, Hst1.
    cbn [toggled timers media paused set_paused]. rewrite Ht1, Hn1, Hm1. cbn [app].
    replace (Z.max (now w') t) with t by lia.
    rewrite (bool_decide_eq_true_2 (t <= moment)) by assumption. rewrite xorb_true_r.
    rewrite filter_cons.
    split; [| split; [| reflexivity]].
    + unfold flashed. destruct (paused (media w)).
      * rewrite decide_True, (bool_decide_eq_true_2 _ Hvq) by reflexivity.
        destruct (decide (t + 500 <= moment)).
        -- rewrite decide_True by (apply Z.leb_le; cbn [fst]; lia). cbn [existsb target snd].
           rewrite (bool_decide_eq_true_2 ((n + 9)%nat = (n + 9)%nat)) by reflexivity.
           cbn. symmetry. apply bool_decide_eq_false_2. lia.
        -- rewrite decide_False by (intros ?%Z.leb_le; cbn [fst] in *; lia). cbn.
           symmetry. apply bool_decide_eq_true_2. lia.
      * rewrite decide_True, (bool_decide_eq_true_2 _ Hvp) by reflexivity.
        destruct (decide (t + 500 <= moment)).
        -- rewrite decide_True by (apply Z.leb_le; cbn [fst]; lia). cbn [existsb target snd].
           rewrite (bool_decide_eq_true_2 ((n + 3)%nat = (n + 3)%nat)) by reflexivity.
           cbn. symmetry. apply bool_decide_eq_false_2. lia.
        -- rewrite decide_False by (intros ?%Z.leb_le; cbn [fst] in *; lia). cbn.
           symmetry. apply bool_decide_eq_true_2. lia.
    + unfold other. destruct (paused (media w)).
      * rewrite decide_False by lia. now rewrite Hsp.
      * rewrite decide_False by lia. now rewrite Hsq.
  - rewrite !shown_advance, media_advance, Ht, Htimers, Hm. cbn.
    rewrite (bool_decide_eq_false_2 (t <= moment)) by assumption. rewrite xorb_false_r.
    split; [| split; [| reflexivity]].
    + rewrite andb_true_r. unfold flashed.
      destruct (paused (media w)); rewrite ?Hsp, ?Hsq;
        symmetry; apply bool_decide_eq_false_2; lia.
    + rewrite andb_true_r. unfold other. now destruct (paused (media w)).
Qed.

Lemma first_click_on_the_example_page :
  shown (at_time (fst Examples.built) [(100, Click)] 300 (report (snd Examples.built)))
    Examples.playIcon = true /\
  shown (at_time (fst Examples.built) [(100, Click)] 300 (report (snd Examples.built)))
    Examples.pauseIcon = false /\
  shown (at_time (fst Examples.built) [(100, Click)] 600 (report (snd Examples.built)))
    Examples.playIcon = false.
Proof.
  destruct example_page_is_ready as (Hatt & Hp & Hq).
  pose proof (first_click_flashes_one_icon "https://example.org/video.mp4"
                Examples.container Examples.webkit_world
                (mkElement "div" [("id", "player")] [] None [] [] (Some 1%nat))
                100 300 eq_refl Hatt Hp Hq eq_refl ltac:(cbn; lia)) as (Hf & Ho & _).
  pose proof (first_click_flashes_one_icon "https://example.org/video.mp4"
                Examples.container Examples.webkit_world
                (mkElement "div" [("id", "player")] [] None [] [] (Some 1%nat))
                100 600 eq_refl Hatt Hp Hq eq_refl ltac:(cbn; lia)) as (Hf' & _).
  split; [exact Hf | split; [exact Ho | exact Hf']].
Defined.

(** X14. When [querySelector] finds no icon for the new state, as when
    the container is not in the document, [togglePlayPause] still plays
    or pauses and still dispatches its event; the listener then throws
    a [TypeError], which is the last thing that happens: no style is
    written and no timer is set. *)
Theorem toggle_without_icons_throws_in_the_listener (m : Manager) (w : World) :
  listeners_of (video m) w = built_listeners ->
  querySelector (documentElement w)
    (if paused (media w) then "#playFeedback" else "#pauseFeedback") (store w) = None ->
  togglePlayPause m w =
    emit (Uncaught TypeError)
      (emit (DispatchEvent "togglePlayPause") (if paused (media w) then play w else pause w)) /\
  log (togglePlayPause m w) =
    log w ++ [if paused (media w) then Play else Pause;
              DispatchEvent "togglePlayPause"; Uncaught TypeError] /\
  store (togglePlayPause m w) = store w /\
  timers (togglePlayPause m w) = timers w /\
  paused (media (togglePlayPause m w)) = negb (paused (media w)).
Proof.
  intros Hl Hq.
  assert (E : togglePlayPause m w =
              emit (Uncaught TypeError)
                (emit (DispatchEvent "togglePlayPause")
                   (if paused (media w) then play w else pause w))).
  { unfold togglePlayPause, dispatch_togglePlayPause.
    destruct (paused (media w)) eqn:Ep.
    - change (listeners_of (video m) (play w)) with (listeners_of (video m) w).
      rewrite Hl. cbn [fold_left built_listeners].
      unfold feedback_listener, updateVisualFeedback.
      cbn [emit play with_media media documentElement store set_paused paused].
      now rewrite Hq.
    - change (listeners_of (video m) (pause w)) with (listeners_of (video m) w).
      rewrite Hl. cbn [fold_left built_listeners].
      unfold feedback_listener, updateVisualFeedback.
      cbn [emit pause with_media media documentElement store set_paused paused].
      now rewrite Hq. }
  rewrite E. split; [reflexivity|].
  destruct (paused (media w)); cbn; rewrite <- !app_assoc; now repeat split.
Qed.

Lemma toggle_on_a_detached_container :
  log (togglePlayPause (fst Samples.detached_built) (report (snd Samples.detached_built))) =
    [Play; DispatchEvent "togglePlayPause"; Uncaught TypeError] /\
  timers (togglePlayPause (fst Samples.detached_built) (report (snd Samples.detached_built))) =
    [].
Proof.
  destruct (toggle_without_icons_throws_in_the_listener (fst Samples.detached_built)
              (report (snd Samples.detached_built))) as (_ & Hlog & _ & Ht & _);
    [vm_compute; reflexivity | vm_compute; reflexivity |].
  split; [exact Hlog | exact Ht].
Defined.

End PageFacts.

(** ** Markup written and parsed *)

Module MarkupFacts.
Import Number Media Js Dom Html Player Notions ConstructionFacts Markup.

#[local] Arguments String.append : simpl nomatch.





















Lemma length_app (a b : string) :
  String.length (a +:+ b) = (String.length a + String.length b)%nat.
Proof. induction a as [| c a IH]; cbn [String.append String.length]; [reflexivity | now rewrite IH]. Qed.





Lemma quote_free_app (a b : string) :
  quote_free (a +:+ b) = quote_free a && quote_free b.
Proof.
  induction a as [| c a IH]; cbn [String.append quote_free]; [reflexivity|].
  now rewrite IH, andb_assoc.
Qed.




End MarkupFacts.

(** ** The elements that construction creates *)

Module ElementFacts.
Import Number Media Js Dom Html Player Notions ConstructionFacts Markup MarkupFacts.

(** X15. [createVideoElement] adds two elements to the document's
    store and changes none that was there. It returns the first, a
    [video] element with [controls], [autoplay], the name [media], the
    width 100%, the id [videoTag], its two classes, a double-click and
    a click listener, and no parent. Its one child is the second, a
    [source] element with the link as [src], the type [video/mp4] and
    the [onerror] handler. Nothing else has been touched. *)
Theorem createVideoElement_builds_a_detached_video (videoLink : string) (w : World) :
  let n := length (store w) in
  let built := createVideoElement videoLink w in
  let w' := snd built in
  fst built = n /\
  (exists rest, store w' = store w ++ rest /\ length rest = 2%nat) /\
  (exists videoTag,
      store w' !! n = Some videoTag /\
      tagName videoTag = "video" /\
      has_attribute "controls" videoTag = true /\
      has_attribute "autoplay" videoTag = true /\
      get_attr "name" (properties videoTag) = Some "media" /\
      cssText videoTag = "width: 100%;" /\
      id videoTag = "videoTag" /\
      className videoTag = "video-stream html5-main-video" /\
      listeners videoTag = [RegDblClick; RegClick] /\
      childNodes videoTag = [(n + 1)%nat] /\
      parentNode videoTag = None) /\
  (exists srcTag,
      store w' !! (n + 1)%nat = Some srcTag /\
      tagName srcTag = "source" /\
      get_attr "src" (attributes srcTag) = Some videoLink /\
      get_attr "type" (attributes srcTag) = Some "video/mp4" /\
      onerror srcTag = Some OnErrorShowFailure /\
      childNodes srcTag = [] /\
      parentNode srcTag = Some n) /\
  media w' = media w /\ timers w' = timers w /\ log w' = log w.
Proof.
  intros n built w'. unfold w', built. rewrite createVideoElement_store.
  cbn [fst snd store with_store media timers log]. fold n.
  split; [reflexivity|]. split; [eexists; split; reflexivity|]. split.
  - rewrite (lookup_new0 _ _ n eq_refl). eexists. split; [reflexivity|].
    now repeat split.
  - split; [| now repeat split].
    rewrite (lookup_new _ _ n 1 eq_refl). eexists. split; [reflexivity|].
    now repeat split.
Qed.



End ElementFacts.
